(** * Texture atlas, tile slicing and scrollback ring of the terminal renderer

    A shallow embedding of [src/terminal_renderer/TextureAtlas.h] and
    [src/crispy/ring.h].  Fixed-width C++ integers are integers of [Z] with
    the wrap-around written out, vectors are lists, the borrowed
    [AtlasBackend] is the log of the commands it was sent, and a call that
    trips a [Require] or indexes a vector past its end is a [Fails]
    outcome. *)

From Stdlib Require Import ZArith List Lia Bool.
From Stdlib Require Strings.String Strings.Ascii.
Import String.StringSyntax.
Import ListNotations.
Local Open Scope string_scope.
Local Open Scope Z_scope.

(** ** Machine integers *)

(** Reduction of a mathematical integer to an unsigned integer of [bits]
    bits, as an unsigned conversion or an unsigned overflow does. *)
Definition wrap (bits v : Z) : Z := v mod 2 ^ bits.

Definition to_uint16 : Z -> Z := wrap 16.
Definition to_uint32 : Z -> Z := wrap 32.

(** [std::size_t] of an LP64 target. *)
Definition to_size_t : Z -> Z := wrap 64.

(** [long] of an LP64 target (two's complement, 64 bits). *)
Definition to_long (v : Z) : Z :=
  let w := wrap 64 v in if w <? 2 ^ 63 then w else w - 2 ^ 64.

Definition is_uint32 (v : Z) : Prop := 0 <= v < 2 ^ 32.

(** ** crispy::basic_ring *)

Module ring.
Section basic_ring.
Context {T : Type}.

Record basic_ring : Type := Ring
  { _storage : list T;
    _zero : Z (* std::size_t *) }.

Definition storage (r : basic_ring) : list T := _storage r.
Definition zero_index (r : basic_ring) : Z := _zero r.
Definition size (r : basic_ring) : Z := Z.of_nat (length (_storage r)).

(** [_storage[size_t(offset_type(_zero + size()) + i) % size()]]; the
    vector is indexed without a check, and an empty ring has no element. *)
Definition physical (r : basic_ring) (i : Z) : Z :=
  to_size_t (to_long (_zero r + size r) + i) mod size r.

Definition at_ (r : basic_ring) (i : Z) : option T :=
  nth_error (_storage r) (Z.to_nat (physical r i)).

(** [void rotate(int count)]:
    [_zero = size_t(offset_type(_zero + size()) - count) % size()].
    [count] is an [int], promoted to [long] for the subtraction; a
    negative difference converts to [size_t] modulo [2^64]. *)
Definition rotate (r : basic_ring) (count : Z) : basic_ring :=
  Ring (_storage r) (to_size_t (to_long (_zero r + size r) - count) mod size r).

(** [_zero = (_zero + size() + count) % size()], all in [size_t]. *)
Definition rotate_left (r : basic_ring) (count : Z) : basic_ring :=
  Ring (_storage r) (to_size_t (_zero r + size r + count) mod size r).

(** [_zero = (_zero + size() - count) % size()], all in [size_t]. *)
Definition rotate_right (r : basic_ring) (count : Z) : basic_ring :=
  Ring (_storage r) (to_size_t (_zero r + size r - count) mod size r).

Definition unrotate (r : basic_ring) : basic_ring := Ring (_storage r) 0.

Definition front (r : basic_ring) : option T := at_ r 0.
Definition back (r : basic_ring) : option T := at_ r (size r - 1).

(** The elements in logical order, as [begin()] .. [end()] visits them:
    the iterator at position [current] dereferences to element [current]
    of the ring. *)
Definition elements (r : basic_ring) : list (option T) :=
  map (fun current => at_ r (Z.of_nat current)) (seq 0 (length (_storage r))).

(** [rezero()]: [std::rotate] over the ring's own iterators brings the
    logical order into the storage, then [_zero = 0]. *)
Definition rezero (r : basic_ring) : basic_ring :=
  Ring (skipn (Z.to_nat (_zero r)) (_storage r) ++ firstn (Z.to_nat (_zero r)) (_storage r)) 0.
End basic_ring.
Arguments basic_ring : clear implicits.
End ring.

(** ** Outcomes of a call *)

Inductive Fault : Type :=
  | PreconditionViolation (* a [Require(cond)] whose condition is false *)
  | OutOfBounds           (* [operator[]] of a [std::vector] past its end *)
  | BadOptionalAccess.    (* [value()] of an empty [std::optional] *)

Inductive Outcome (A : Type) : Type :=
  | Returns (a : A)
  | Fails (f : Fault).
Arguments Returns {A} a.
Arguments Fails {A} f.

Definition failed {A : Type} (o : Outcome A) : bool :=
  match o with Returns _ => false | Fails _ => true end.

(** [v[i]] on a [std::vector]: no range check is made by the source, and
    past the end there is no element to return. *)
Definition subscript {A : Type} (v : list A) (i : Z) : Outcome A :=
  if i <? 0 then Fails OutOfBounds
  else match nth_error v (Z.to_nat i) with
       | Some a => Returns a
       | None => Fails OutOfBounds
       end.

(** [v[i] = a] on a [std::vector], for an index already known to be in range. *)
Fixpoint assign {A : Type} (v : list A) (i : nat) (a : A) : list A :=
  match v, i with
  | [], _ => []
  | _ :: v', O => a :: v'
  | b :: v', S i' => b :: assign v' i' a
  end.

(** ** crispy::detail helpers used by the atlas geometry *)

(** Modelled from the spec: [crispy::detail::nextPowerOfTwo] is declared in
    [crispy/StrongLRUHashtable.h], which is not among the sources.  The spec
    uses it as the least power of two that is not below its argument
    ([nextPow2(64) = 64], [nextPow2(80) = 128], [nextPow2(160) = 256]). *)
Definition nextPowerOfTwo (v : Z) : Z := 2 ^ Z.log2_up v.

(** [ceil(sqrt(n))] for [n] a 32-bit unsigned integer.  The source computes
    it in [double]; a correctly rounded square root of an integer below
    [2^32] is an integer exactly when [n] is a perfect square and lies
    strictly between the neighbouring integers otherwise, so the integer
    ceiling of the square root is the value the source gets. *)
Definition ceil_sqrt (n : Z) : Z :=
  let s := Z.sqrt n in if s * s =? n then s else s + 1.

(** ** Data structures of the texture atlas *)

Module atlas.

Definition Buffer : Type := list Byte.byte.

(** [crispy::StrongHash], a 128-bit value compared bit for bit. *)
Definition StrongHash : Type := Z.

Inductive Format : Type := Red | RGB | RGBA.

Definition element_count (format : Format) : Z :=
  match format with Red => 1 | RGB => 3 | RGBA => 4 end.

(** [ImageSize] of boxed unsigned [Width] and [Height]. *)
Record ImageSize : Type := { width : Z; height : Z }.

(** Two [uint16_t] offsets into the atlas texture. *)
Record TileLocation : Type := { x : Z; y : Z }.

Record AtlasProperties : Type :=
  { format : Format;
    tileSize : ImageSize;
    tileCount : Z;            (* uint32_t *)
    directMappingCount : Z }. (* uint32_t *)

Definition AtlasProperties_wf (p : AtlasProperties) : Prop :=
  is_uint32 (width (tileSize p)) /\ is_uint32 (height (tileSize p)) /\
  is_uint32 (tileCount p) /\ is_uint32 (directMappingCount p).

Module ConfigureAtlas.
Record t : Type := { size : ImageSize; properties : AtlasProperties }.
End ConfigureAtlas.

Module UploadTile.
Record t : Type :=
  { location : TileLocation;
    bitmap : Buffer;
    bitmapSize : ImageSize;
    bitmapFormat : Format }.
End UploadTile.

(** ** The backend, as the log of the commands it received

    The atlas itself sends [configureAtlas] and [uploadTile]; [renderTile]
    is sent by the render passes, not by any function modelled here. *)

Inductive Command : Type :=
  | configureAtlas_ (atlas : ConfigureAtlas.t)
  | uploadTile_ (tile : UploadTile.t).

Definition AtlasBackend : Type := list Command.

Definition is_uploadTile (c : Command) : bool :=
  match c with uploadTile_ _ => true | configureAtlas_ _ => false end.

(** A call that may send commands to the backend, and may fail. *)
Definition Cmd (A : Type) : Type := AtlasBackend -> Outcome (A * AtlasBackend).

Definition ret {A : Type} (a : A) : Cmd A := fun backend => Returns (a, backend).

Definition bind {A B : Type} (c : Cmd A) (k : A -> Cmd B) : Cmd B :=
  fun backend =>
    match c backend with
    | Returns (a, backend') => k a backend'
    | Fails f => Fails f
    end.

Definition lift {A : Type} (o : Outcome A) : Cmd A :=
  fun backend =>
    match o with
    | Returns a => Returns (a, backend)
    | Fails f => Fails f
    end.

Notation "v <- c ;; k" := (bind c (fun v => k))
  (at level 61, c at next level, right associativity).
Notation "c ;;; k" := (bind c (fun _ => k))
  (at level 61, right associativity).

(** Modelled from the spec: the macro [Require] comes from
    [crispy/assert.h], which is not among the sources.  A false condition is
    a programming error, surfaced as a precondition violation; nothing after
    it runs. *)
Definition Require (cond : bool) : Outcome unit :=
  if cond then Returns tt else Fails PreconditionViolation.

Definition configureAtlas (atlas : ConfigureAtlas.t) : Cmd unit :=
  fun backend => Returns (tt, backend ++ [configureAtlas_ atlas]).

Definition uploadTile (tile : UploadTile.t) : Cmd unit :=
  fun backend => Returns (tt, backend ++ [uploadTile_ tile]).

(** ** crispy::StrongLRUHashtable *)

(** Modelled from the spec: [crispy/StrongLRUHashtable.h] is not among the
    sources.  The spec describes a table of fixed capacity from [StrongHash]
    to a value; every live entry carries an [entryIndex] that is unique among
    the live entries, lies below the capacity and is stable until the entry
    is dropped; the live entries are totally ordered from most to least
    recently used.  The list [entries] holds them, most recently used
    first. *)
Module StrongLRUHashtable.
Section table.
Context {Value : Type}.

Record Entry : Type :=
  { hash : StrongHash;
    entryIndex : Z; (* uint32_t *)
    value : Value }.

Record t : Type :=
  { hashCount : Z; (* StrongHashtableSize *)
    capacity : Z;  (* LRUCapacity *)
    name : String.string;
    entries : list Entry }.

(** Modelled from the spec: [create] of the absent table takes the bucket
    count, the capacity (the maximum of live entries) and a name, and starts
    without entries. *)
Definition create (hashCount capacity : Z) (name : String.string) : t :=
  {| hashCount := hashCount; capacity := capacity; name := name; entries := [] |}.

Definition with_entries (table : t) (es : list Entry) : t :=
  {| hashCount := hashCount table; capacity := capacity table;
     name := name table; entries := es |}.

Definition size (table : t) : Z := Z.of_nat (length (entries table)).

Definition has_hash (h : StrongHash) (e : Entry) : bool := hash e =? h.

(** Modelled from the spec: [contains] of the absent table is a lookup
    that leaves the order alone. *)
Definition contains (table : t) (h : StrongHash) : bool :=
  existsb (has_hash h) (entries table).

Definition lookup (table : t) (h : StrongHash) : option Entry :=
  find (has_hash h) (entries table).

Definition others (table : t) (h : StrongHash) : list Entry :=
  filter (fun e => negb (has_hash h e)) (entries table).

(** Modelled from the spec: [try_get] of the absent table is a lookup; a
    hit moves the entry to the most recently used end. *)
Definition try_get (table : t) (h : StrongHash) : option Value * t :=
  match lookup table h with
  | Some e => (Some (value e), with_entries table (e :: others table h))
  | None => (None, table)
  end.

(** Modelled from the spec: the absent table takes an unused [entryIndex]
    for a new entry; the least one that no live entry uses is taken here. *)
Fixpoint first_unused (used : list Z) (fuel : nat) (i : Z) : Z :=
  match fuel with
  | O => i
  | S fuel' => if existsb (Z.eqb i) used then first_unused used fuel' (i + 1) else i
  end.

Definition unused_index (table : t) : Z :=
  first_unused (map entryIndex (entries table)) (length (entries table)) 0.

(** Modelled from the spec: on a miss the absent table evicts the least
    recently used entry when it is at capacity and reuses its [entryIndex],
    else it takes an unused one.  The index for the new entry and the
    entries that stay. *)
Definition allocate (table : t) : Z * list Entry :=
  if capacity table <=? size table then
    match rev (entries table) with
    | tail :: kept => (entryIndex tail, rev kept)
    | [] => (0, [])
    end
  else (unused_index table, entries table).

(** Modelled from the spec: [get_or_emplace] of the absent table promotes
    and returns a hit; on a miss it allocates an index, runs the build
    function on it once and inserts the new entry as the most recent. *)
Definition get_or_emplace (table : t) (h : StrongHash) (build : Z -> Cmd Value)
  : Cmd (Value * t) :=
  match lookup table h with
  | Some e => ret (value e, with_entries table (e :: others table h))
  | None =>
      let '(index, kept) := allocate table in
      v <- build index ;;
      ret (v, with_entries table ({| hash := h; entryIndex := index; value := v |} :: kept))
  end.

(** Modelled from the spec: [get_or_try_emplace] of the absent table is
    [get_or_emplace], except that the build function may decline; then it
    returns null, no entry is created and no slot is consumed. *)
Definition get_or_try_emplace (table : t) (h : StrongHash)
    (build : Z -> Cmd (option Value)) : Cmd (option Value * t) :=
  match lookup table h with
  | Some e => ret (Some (value e), with_entries table (e :: others table h))
  | None =>
      let '(index, kept) := allocate table in
      built <- build index ;;
      match built with
      | Some v =>
          ret (Some v,
               with_entries table ({| hash := h; entryIndex := index; value := v |} :: kept))
      | None => ret (None, table)
      end
  end.

(** Modelled from the spec: [emplace] of the absent table forces the
    insertion; it evicts the entry of the same hash if there is one, else
    the least recently used one when the table is full. *)
Definition emplace (table : t) (h : StrongHash) (build : Z -> Cmd Value) : Cmd t :=
  let '(index, kept) :=
    match lookup table h with
    | Some e => (entryIndex e, others table h)
    | None => allocate table
    end in
  v <- build index ;;
  ret (with_entries table ({| hash := h; entryIndex := index; value := v |} :: kept)).

(** Modelled from the spec: [remove] of the absent table drops the entry
    and frees its index. *)
Definition remove (table : t) (h : StrongHash) : t :=
  with_entries table (others table h).

(** Modelled from the spec: [clear] of the absent table drops all entries
    and frees all indices. *)
Definition clear (table : t) : t := with_entries table [].
End table.
Arguments Entry : clear implicits.
Arguments t : clear implicits.
End StrongLRUHashtable.

(** ** TextureAtlas *)

Module TileAttributes.
Record t (Metadata : Type) : Type :=
  { location : TileLocation;
    bitmapSize : ImageSize;
    metadata : Metadata }.
Arguments location {Metadata} _.
Arguments bitmapSize {Metadata} _.
Arguments metadata {Metadata} _.
End TileAttributes.

Module TileCreateData.
Record t (Metadata : Type) : Type :=
  { bitmap : Buffer;
    bitmapFormat : Format;
    bitmapSize : ImageSize;
    metadata : Metadata }.
Arguments bitmap {Metadata} _.
Arguments bitmapFormat {Metadata} _.
Arguments bitmapSize {Metadata} _.
Arguments metadata {Metadata} _.
End TileCreateData.

(** [computeAtlasSize].  Both multipliers are [1.0]; the products of the
    edge count and a tile extent stay below [2^53] and are exact in
    [double]; the conversions to [uint32_t] are written as reductions. *)
Definition computeAtlasSize (atlasProperties : AtlasProperties) : ImageSize :=
  let totalTileCount :=
    nextPowerOfTwo (to_uint32 (tileCount atlasProperties + directMappingCount atlasProperties)) in
  let squareEdgeCount := ceil_sqrt totalTileCount in
  {| width := to_uint32 (nextPowerOfTwo
        (to_uint32 (squareEdgeCount * width (tileSize atlasProperties))));
     height := to_uint32 (nextPowerOfTwo
        (to_uint32 (squareEdgeCount * height (tileSize atlasProperties)))) |}.

(** The body of the constructor's loop: the tile location of [entryIndex],
    each offset converted to [uint16_t].  The source converts from [double];
    for a value that a [uint16_t] cannot hold C++ leaves the result open,
    and the reduction modulo [2^16] stands for whatever 16 bits result. *)
Definition locate (tilesInX : Z) (tileSize : ImageSize) (entryIndex : Z) : TileLocation :=
  {| x := to_uint16 ((entryIndex mod tilesInX) * width tileSize);
     y := to_uint16 ((entryIndex / tilesInX) * height tileSize) |}.

Section TextureAtlas.
Context {Metadata : Type}.

(** [Metadata {}], the value of a default-constructed metadata. *)
Variable Metadata_default : Metadata.

(** The members of the class; [_backend] is the log threaded by [Cmd], and
    [_name] and [_directTileMapping] are never read or written. *)
Record TextureAtlas : Type :=
  { _atlasProperties : AtlasProperties;
    _atlasSize : ImageSize;
    _tilesInX : Z; (* uint32_t *)
    _tilesInY : Z; (* uint32_t *)
    _tileCache : StrongLRUHashtable.t (TileAttributes.t Metadata);
    _tileLocations : list TileLocation;
    _directMapping : list (TileAttributes.t Metadata) }.

Definition with_tileCache (a : TextureAtlas)
    (cache : StrongLRUHashtable.t (TileAttributes.t Metadata)) : TextureAtlas :=
  {| _atlasProperties := _atlasProperties a; _atlasSize := _atlasSize a;
     _tilesInX := _tilesInX a; _tilesInY := _tilesInY a;
     _tileCache := cache;
     _tileLocations := _tileLocations a; _directMapping := _directMapping a |}.

Definition TileAttributes_default : TileAttributes.t Metadata :=
  {| TileAttributes.location := {| x := 0; y := 0 |};
     TileAttributes.bitmapSize := {| width := 0; height := 0 |};
     TileAttributes.metadata := Metadata_default |}.

(** [TextureAtlas::TextureAtlas(backend, atlasProperties)]: the member
    initialisers, the [Require], the [configureAtlas] command, the loop
    over the tile locations and the resize of the direct mapping.
    [_tilesInX] is the floor of a [double] quotient of two 32-bit values,
    which is their integer quotient; [_tilesInY] is the quotient of the two
    boxed heights; [_tilesInX * _tilesInY] is a [uint32_t] product.  A tile
    extent of 0 divides by zero in the source; the quotient is 0 here, which
    leaves an atlas without tile locations. *)
Definition new (atlasProperties : AtlasProperties) : Cmd TextureAtlas :=
  let atlasSize := computeAtlasSize atlasProperties in
  let tilesInX :=
    to_uint32 (width atlasSize / width (tileSize atlasProperties)) in
  let tilesInY :=
    to_uint32 (height atlasSize / height (tileSize atlasProperties)) in
  let tileCache :=
    StrongLRUHashtable.create (to_uint32 (tilesInX * tilesInY))
                              (to_uint32 (tilesInX * tilesInY))
                              "LRU cache for texture atlas" in
  let locations := to_size_t (to_uint32 (tilesInX * tilesInY)) in
  lift (Require
    (to_uint32 (directMappingCount atlasProperties + tileCount atlasProperties)
       <=? locations)) ;;;
  configureAtlas {| ConfigureAtlas.size := atlasSize;
                    ConfigureAtlas.properties := atlasProperties |} ;;;
  ret {| _atlasProperties := atlasProperties;
         _atlasSize := atlasSize;
         _tilesInX := tilesInX;
         _tilesInY := tilesInY;
         _tileCache := tileCache;
         _tileLocations :=
           map (fun entryIndex =>
                  locate tilesInX (tileSize atlasProperties) (Z.of_nat entryIndex))
               (seq 0 (Z.to_nat locations));
         _directMapping :=
           repeat TileAttributes_default
                  (Z.to_nat (directMappingCount atlasProperties)) |}.

Definition atlasSize (a : TextureAtlas) : ImageSize := _atlasSize a.
Definition tileSize_ (a : TextureAtlas) : ImageSize := tileSize (_atlasProperties a).
Definition tilesInX (a : TextureAtlas) : Z := _tilesInX a.
Definition tilesInY (a : TextureAtlas) : Z := _tilesInY a.

(** [capacity()]: [_tileLocations.size()]. *)
Definition capacity (a : TextureAtlas) : Z := Z.of_nat (length (_tileLocations a)).

(** [tileLocation(index)]: [return _tileLocations[index];]. *)
Definition tileLocation (a : TextureAtlas) (index : Z) : Outcome TileLocation :=
  subscript (_tileLocations a) index.

Definition isDirectMappingEnabled (a : TextureAtlas) : bool :=
  match _directMapping a with [] => false | _ :: _ => true end.

Definition contains (a : TextureAtlas) (id : StrongHash) : bool :=
  StrongLRUHashtable.contains (_tileCache a) id.

(** [constructTile]: the location is read before the caller's function is
    asked; a function that declines ends the call before any upload. *)
Definition constructTile (a : TextureAtlas)
    (createTileData : TileLocation -> Z -> option (TileCreateData.t Metadata))
    (entryIndex : Z) : Cmd (option (TileAttributes.t Metadata)) :=
  let tileIndex := to_uint32 (entryIndex + directMappingCount (_atlasProperties a)) in
  tileLocation <- lift (subscript (_tileLocations a) tileIndex) ;;
  match createTileData tileLocation entryIndex with
  | None => ret None
  | Some tileCreateData =>
      uploadTile {| UploadTile.location := tileLocation;
                    UploadTile.bitmap := TileCreateData.bitmap tileCreateData;
                    UploadTile.bitmapSize := TileCreateData.bitmapSize tileCreateData;
                    UploadTile.bitmapFormat := TileCreateData.bitmapFormat tileCreateData |} ;;;
      ret (Some {| TileAttributes.location := tileLocation;
                   TileAttributes.bitmapSize := TileCreateData.bitmapSize tileCreateData;
                   TileAttributes.metadata := TileCreateData.metadata tileCreateData |})
  end.

(** [std::optional::value()]. *)
Definition value_ {A : Type} (o : option A) : Cmd A :=
  match o with
  | Some a => ret a
  | None => fun _ => Fails BadOptionalAccess
  end.

(** [get_or_emplace]: the caller's function always yields tile data here,
    as the table's build function must yield a value. *)
Definition get_or_emplace (a : TextureAtlas) (key : StrongHash)
    (createTileData : TileLocation -> Z -> TileCreateData.t Metadata)
  : Cmd (TileAttributes.t Metadata * TextureAtlas) :=
  r <- StrongLRUHashtable.get_or_emplace (_tileCache a) key
         (fun entryIndex =>
            built <- constructTile a (fun l i => Some (createTileData l i)) entryIndex ;;
            value_ built) ;;
  ret (fst r, with_tileCache a (snd r)).

Definition try_get (a : TextureAtlas) (key : StrongHash)
  : option (TileAttributes.t Metadata) * TextureAtlas :=
  let r := StrongLRUHashtable.try_get (_tileCache a) key in
  (fst r, with_tileCache a (snd r)).

Definition get_or_try_emplace (a : TextureAtlas) (key : StrongHash)
    (createTileData : TileLocation -> Z -> option (TileCreateData.t Metadata))
  : Cmd (option (TileAttributes.t Metadata) * TextureAtlas) :=
  r <- StrongLRUHashtable.get_or_try_emplace (_tileCache a) key
         (fun entryIndex => constructTile a createTileData entryIndex) ;;
  ret (fst r, with_tileCache a (snd r)).

Definition emplace (a : TextureAtlas) (key : StrongHash)
    (createTileData : TileLocation -> TileCreateData.t Metadata) : Cmd TextureAtlas :=
  cache <- StrongLRUHashtable.emplace (_tileCache a) key
             (fun entryIndex =>
                built <- constructTile a (fun location _ => Some (createTileData location))
                                       entryIndex ;;
                value_ built) ;;
  ret (with_tileCache a cache).

Definition remove (a : TextureAtlas) (key : StrongHash) : TextureAtlas :=
  with_tileCache a (StrongLRUHashtable.remove (_tileCache a) key).

(** [reset]: [_atlasProperties = atlasProperties; _tileCache->clear();]. *)
Definition reset (a : TextureAtlas) (atlasProperties : AtlasProperties) : Cmd TextureAtlas :=
  ret {| _atlasProperties := atlasProperties;
         _atlasSize := _atlasSize a;
         _tilesInX := _tilesInX a;
         _tilesInY := _tilesInY a;
         _tileCache := StrongLRUHashtable.clear (_tileCache a);
         _tileLocations := _tileLocations a;
         _directMapping := _directMapping a |}.

Definition directMapped (a : TextureAtlas) (index : Z)
  : Outcome (TileAttributes.t Metadata) :=
  match Require (index <? Z.of_nat (length (_directMapping a))) with
  | Fails f => Fails f
  | Returns _ => subscript (_directMapping a) index
  end.

Definition setDirectMapping (a : TextureAtlas) (index : Z)
    (tileCreateData : TileCreateData.t Metadata) : Cmd TextureAtlas :=
  lift (Require (index <? Z.of_nat (length (_directMapping a)))) ;;;
  tileLocation <- lift (subscript (_tileLocations a) index) ;;
  uploadTile {| UploadTile.location := tileLocation;
                UploadTile.bitmap := TileCreateData.bitmap tileCreateData;
                UploadTile.bitmapSize := TileCreateData.bitmapSize tileCreateData;
                UploadTile.bitmapFormat := TileCreateData.bitmapFormat tileCreateData |} ;;;
  ret {| _atlasProperties := _atlasProperties a;
         _atlasSize := _atlasSize a;
         _tilesInX := _tilesInX a;
         _tilesInY := _tilesInY a;
         _tileCache := _tileCache a;
         _tileLocations := _tileLocations a;
         _directMapping :=
           assign (_directMapping a) (Z.to_nat index)
                  {| TileAttributes.location := tileLocation;
                     TileAttributes.bitmapSize := TileCreateData.bitmapSize tileCreateData;
                     TileAttributes.metadata := TileCreateData.metadata tileCreateData |} |}.

(** The calls that change an atlas, with their arguments, and a lifetime
    as a sequence of them. *)
Inductive Call : Type :=
  | call_get_or_emplace (key : StrongHash)
      (createTileData : TileLocation -> Z -> TileCreateData.t Metadata)
  | call_try_get (key : StrongHash)
  | call_get_or_try_emplace (key : StrongHash)
      (createTileData : TileLocation -> Z -> option (TileCreateData.t Metadata))
  | call_emplace (key : StrongHash)
      (createTileData : TileLocation -> TileCreateData.t Metadata)
  | call_remove (key : StrongHash)
  | call_reset (atlasProperties : AtlasProperties)
  | call_setDirectMapping (index : Z) (tileCreateData : TileCreateData.t Metadata).

Definition call (a : TextureAtlas) (c : Call) : Cmd TextureAtlas :=
  match c with
  | call_get_or_emplace key f => r <- get_or_emplace a key f ;; ret (snd r)
  | call_try_get key => ret (snd (try_get a key))
  | call_get_or_try_emplace key f => r <- get_or_try_emplace a key f ;; ret (snd r)
  | call_emplace key f => emplace a key f
  | call_remove key => ret (remove a key)
  | call_reset atlasProperties => reset a atlasProperties
  | call_setDirectMapping index data => setDirectMapping a index data
  end.

Fixpoint calls (a : TextureAtlas) (cs : list Call) : Cmd TextureAtlas :=
  match cs with
  | [] => ret a
  | c :: cs' => a' <- call a c ;; calls a' cs'
  end.
End TextureAtlas.
Arguments TextureAtlas : clear implicits.
Arguments Call : clear implicits.

(** ** setDirectMapping on the object itself *)

(** [setDirectMapping] once more, as the member function works: on the
    atlas and the backend in place.  The outcome comes with the atlas and
    the backend's log as the call leaves them, also when a fault stops it;
    a [Cmd] keeps them only for a call that returns. *)
Module in_place.
Section in_place.
Context {Metadata : Type}.

Definition State : Type := TextureAtlas Metadata * AtlasBackend.

Definition setDirectMapping (index : Z) (tileCreateData : TileCreateData.t Metadata)
    (s : State) : Outcome unit * State :=
  let a := fst s in
  match Require (index <? Z.of_nat (length (_directMapping a))) with
  | Fails f => (Fails f, s)
  | Returns _ =>
      match subscript (_tileLocations a) index with
      | Fails f => (Fails f, s)
      | Returns tileLocation =>
          let tileUpload :=
            {| UploadTile.location := tileLocation;
               UploadTile.bitmap := TileCreateData.bitmap tileCreateData;
               UploadTile.bitmapSize := TileCreateData.bitmapSize tileCreateData;
               UploadTile.bitmapFormat := TileCreateData.bitmapFormat tileCreateData |} in
          let instance :=
            {| TileAttributes.location := tileLocation;
               TileAttributes.bitmapSize := TileCreateData.bitmapSize tileCreateData;
               TileAttributes.metadata := TileCreateData.metadata tileCreateData |} in
          (Returns tt,
           ({| _atlasProperties := _atlasProperties a;
               _atlasSize := _atlasSize a;
               _tilesInX := _tilesInX a;
               _tilesInY := _tilesInY a;
               _tileCache := _tileCache a;
               _tileLocations := _tileLocations a;
               _directMapping := assign (_directMapping a) (Z.to_nat index) instance |},
            snd s ++ [uploadTile_ tileUpload]))
      end
  end.

(** What a [Cmd] keeps of such an outcome. *)
Definition as_Cmd (r : Outcome unit * State) : Outcome State :=
  match r with
  | (Returns _, s) => Returns s
  | (Fails f, _) => Fails f
  end.
End in_place.
End in_place.

(** ** DirectMapping and DirectMappingAllocator *)

Module DirectMapping.
Record t : Type :=
  { baseIndex : Z; (* uint32_t *)
    count : Z }.   (* uint32_t *)

(** [DirectMapping {}]. *)
Definition empty : t := {| baseIndex := 0; count := 0 |}.

(** [operator bool] and [operator!]. *)
Definition to_bool (m : t) : bool := negb (count m =? 0).
Definition not_ (m : t) : bool := count m =? 0.

Definition toTileIndex (m : t) (directMappingIndex : Z) : Outcome Z :=
  match Require (directMappingIndex <? count m) with
  | Fails f => Fails f
  | Returns _ => Returns (to_uint32 (baseIndex m + directMappingIndex))
  end.
End DirectMapping.

Module DirectMappingAllocator.
Record t : Type :=
  { currentlyAllocatedCount : Z; (* uint32_t *)
    enabled : bool }.

(** The member initialisers: [currentlyAllocatedCount = 0], [enabled = true]. *)
Definition initial : t := {| currentlyAllocatedCount := 0; enabled := true |}.

(** [allocate(count)]: the mapping returned and the allocator afterwards;
    [currentlyAllocatedCount += count] is a [uint32_t] addition. *)
Definition allocate (a : t) (count : Z) : DirectMapping.t * t :=
  if negb (enabled a) then (DirectMapping.empty, a)
  else
    let baseIndex := currentlyAllocatedCount a in
    ({| DirectMapping.baseIndex := baseIndex; DirectMapping.count := count |},
     {| currentlyAllocatedCount := to_uint32 (currentlyAllocatedCount a + count);
        enabled := enabled a |}).

(** A sequence of [allocate] calls: the mappings in the order returned. *)
Fixpoint allocate_each (a : t) (counts : list Z) : list DirectMapping.t * t :=
  match counts with
  | [] => ([], a)
  | count :: counts' =>
      let '(m, a') := allocate a count in
      let '(ms, a'') := allocate_each a' counts' in
      (m :: ms, a'')
  end.
End DirectMappingAllocator.

(** ** Tile slicing *)

Record TileSliceIndex : Type :=
  { sliceIndex : Z; (* uint32_t *)
    beginX : Z;     (* uint32_t *)
    endX : Z }.     (* uint32_t *)

Module slicing.
Record Container : Type :=
  { tileWidth : Z;
    offsetX : Z;
    bitmapSize : ImageSize }.

Record iterator : Type :=
  { iterator_tileWidth : Z;
    value : TileSliceIndex }.

Definition sliced (tileWidth offsetX : Z) (bitmapSize : ImageSize) : Container :=
  {| tileWidth := tileWidth; offsetX := offsetX; bitmapSize := bitmapSize |}.

(** [operator==] and [operator!=] look at [beginX] alone. *)
Definition eq (a b : iterator) : bool := beginX (value a) =? beginX (value b).
Definition ne (a b : iterator) : bool := negb (beginX (value a) =? beginX (value b)).

(** [operator++]. *)
Definition incr (it : iterator) : iterator :=
  {| iterator_tileWidth := iterator_tileWidth it;
     value := {| sliceIndex := to_uint32 (sliceIndex (value it) + 1);
                 beginX := endX (value it);
                 endX := to_uint32 (endX (value it) + iterator_tileWidth it) |} |}.

Definition offsetForEndX (c : Container) : Z :=
  let r := width (bitmapSize c) mod tileWidth c in
  to_uint32 (width (bitmapSize c) + r).

Definition begin_ (c : Container) : iterator :=
  {| iterator_tileWidth := tileWidth c;
     value := {| sliceIndex := 0; beginX := offsetX c; endX := tileWidth c |} |}.

Definition end_ (c : Container) : iterator :=
  {| iterator_tileWidth := tileWidth c;
     value := {| sliceIndex := 0; beginX := offsetForEndX c; endX := offsetForEndX c |} |}.

(** [for (it = begin(); it != end(); ++it)], collecting [*it]; [None]
    when [fuel] increments did not reach [end()]. *)
Fixpoint visit (fuel : nat) (it last : iterator) : option (list TileSliceIndex) :=
  if ne it last then
    match fuel with
    | O => None
    | S fuel' =>
        match visit fuel' (incr it) last with
        | Some rest => Some (value it :: rest)
        | None => None
        end
    end
  else Some [].

Definition slices (fuel : nat) (c : Container) : option (list TileSliceIndex) :=
  visit fuel (begin_ c) (end_ c).
End slicing.

End atlas.

(** * Further code of the cited files *)

(** ** Iterators of the ring and the dynamic ring *)

(** [RingIterator]: a logical position into a ring; dereferencing reads
    element [current] of the ring. *)
Module RingIterator.
Record t : Type := { current : Z (* long *) }.

Definition deref {T : Type} (r : ring.basic_ring T) (it : t) : option T :=
  ring.at_ r (current it).

(** [operator++], [operator--], [operator+(n)], [operator-(n)] and the
    difference of two iterators. *)
Definition incr (it : t) : t := {| current := current it + 1 |}.
Definition decr (it : t) : t := {| current := current it - 1 |}.
Definition plus (it : t) (n : Z) : t := {| current := current it + n |}.
Definition minus (it : t) (n : Z) : t := {| current := current it - n |}.
Definition distance (a b : t) : Z := current a - current b.
Definition eq (a b : t) : bool := current a =? current b.

(** [begin()] and [end()] of a ring. *)
Definition begin_ {T : Type} (r : ring.basic_ring T) : t := {| current := 0 |}.
Definition end_ {T : Type} (r : ring.basic_ring T) : t := {| current := ring.size r |}.
End RingIterator.

(** [RingReverseIterator]: dereferencing reads element
    [ring->size() - current - 1]; the difference is formed in [size_t] and
    handed to [operator[]] as a [long]. *)
Module RingReverseIterator.
Record t : Type := { current : Z (* long *) }.

Definition deref {T : Type} (r : ring.basic_ring T) (it : t) : option T :=
  ring.at_ r (to_long (to_size_t (ring.size r - current it - 1))).

Definition incr (it : t) : t := {| current := current it + 1 |}.
Definition eq (a b : t) : bool := current a =? current b.

(** [rbegin()] and [rend()] of a ring. *)
Definition rbegin {T : Type} (r : ring.basic_ring T) : t := {| current := 0 |}.
Definition rend {T : Type} (r : ring.basic_ring T) : t := {| current := ring.size r |}.

(** The elements as [rbegin()] .. [rend()] visits them. *)
Definition elements {T : Type} (r : ring.basic_ring T) : list (option T) :=
  map (fun c => deref r {| current := Z.of_nat c |})
      (seq 0 (length (ring.storage r))).
End RingReverseIterator.

(** [crispy::ring], the ring over a [std::vector]: the members it adds to
    [basic_ring].  [std::vector::resize] keeps the first elements and fills
    up with value-initialised ones; [erase(begin())] on an empty vector is
    undefined and reported as [OutOfBounds]. *)
Module dynamic_ring.
Section dynamic_ring.
Context {T : Type}.

(** [ring(capacity, value)]. *)
Definition make (capacity : nat) (value : T) : ring.basic_ring T :=
  ring.Ring (repeat value capacity) 0.

Definition vector_resize (T_default : T) (v : list T) (newSize : nat) : list T :=
  firstn newSize v ++ repeat T_default (newSize - length v).

(** [resize(newSize)]: [rezero()] and then [_storage.resize(newSize)]. *)
Definition resize (T_default : T) (r : ring.basic_ring T) (newSize : nat)
  : ring.basic_ring T :=
  let r' := ring.rezero r in
  ring.Ring (vector_resize T_default (ring._storage r') newSize) (ring._zero r').

(** [clear()]: [_storage.clear(); _zero = 0]. *)
Definition clear (r : ring.basic_ring T) : ring.basic_ring T := ring.Ring [] 0.

(** [push_back(value)] and [emplace_back]: [_storage.push_back(value)];
    [_zero] stays. *)
Definition push_back (r : ring.basic_ring T) (value : T) : ring.basic_ring T :=
  ring.Ring (ring._storage r ++ [value]) (ring._zero r).

(** [pop_front()]: [_storage.erase(_storage.begin())]; [_zero] stays. *)
Definition pop_front (r : ring.basic_ring T) : Outcome (ring.basic_ring T) :=
  match ring._storage r with
  | [] => Fails OutOfBounds
  | _ :: rest => Returns (ring.Ring rest (ring._zero r))
  end.
End dynamic_ring.
End dynamic_ring.

(** ** What the atlas sends to its backend *)

(** An [uploadTile] command onto one of the given tile locations. *)
Definition upload_into (locations : list atlas.TileLocation) (c : atlas.Command) : Prop :=
  match c with
  | atlas.uploadTile_ tile => In (atlas.UploadTile.location tile) locations
  | atlas.configureAtlas_ _ => False
  end.

(** Two tiles of the given size at two locations share no pixel. *)
Definition apart (tileSize : atlas.ImageSize) (a b : atlas.TileLocation) : Prop :=
  atlas.x a + atlas.width tileSize <= atlas.x b \/
  atlas.x b + atlas.width tileSize <= atlas.x a \/
  atlas.y a + atlas.height tileSize <= atlas.y b \/
  atlas.y b + atlas.height tileSize <= atlas.y a.

(** A run of slices as [operator++] produces them after [previous]: each
    begins where the one before ends, carries the next slice index and ends
    one tile width further, all in [uint32_t]. *)
Fixpoint follows (tileWidth : Z) (previous : atlas.TileSliceIndex)
    (slices : list atlas.TileSliceIndex) : Prop :=
  match slices with
  | [] => True
  | s :: rest =>
      atlas.sliceIndex s = to_uint32 (atlas.sliceIndex previous + 1) /\
      atlas.beginX s = atlas.endX previous /\
      atlas.endX s = to_uint32 (atlas.endX previous + tileWidth) /\
      follows tileWidth s rest
  end.

(** ** terminal::Modifier and the output buffer of terminal::InputGenerator *)

(** [int] of 32 bits, two's complement. *)
Definition to_int (v : Z) : Z :=
  let w := wrap 32 v in if w <? 2 ^ 31 then w else w - 2 ^ 32.

(** [class Modifier]: a mask of key flags in an [unsigned]. *)
Module Modifier.
Inductive Key : Type := None_ | Shift | Alt | Control | Meta.

(** The enumerators' values. *)
Definition code (k : Key) : Z :=
  match k with None_ => 0 | Shift => 1 | Alt => 2 | Control => 4 | Meta => 8 end.

Record t : Type := { mask_ : Z (* unsigned *) }.

(** [Modifier(Key)] and the default constructor. *)
Definition of_key (k : Key) : t := {| mask_ := code k |}.
Definition default : t := {| mask_ := 0 |}.

Definition value (m : t) : Z := mask_ m.

Definition none (m : t) : bool := value m =? 0.
Definition some (m : t) : bool := negb (value m =? 0).
Definition shift (m : t) : bool := negb (Z.land (value m) (code Shift) =? 0).
Definition alt (m : t) : bool := negb (Z.land (value m) (code Alt) =? 0).
Definition control (m : t) : bool := negb (Z.land (value m) (code Control) =? 0).
Definition meta (m : t) : bool := negb (Z.land (value m) (code Meta) =? 0).
Definition any (m : t) : bool := negb (mask_ m =? 0).

(** [~v] on an [unsigned]. *)
Definition complement (v : Z) : Z := to_uint32 (Z.lnot v).

(** [operator|=]. *)
Definition or_assign (m other : t) : t :=
  {| mask_ := Z.lor (mask_ m) (mask_ other) |}.

(** [with(other)]: [Modifier(static_cast<Key>(mask_ | other.mask_))]. *)
Definition with_ (m other : t) : t :=
  {| mask_ := Z.lor (mask_ m) (mask_ other) |}.

(** [without(other)]: [Modifier(static_cast<Key>(mask_ & ~other.mask_))]. *)
Definition without (m other : t) : t :=
  {| mask_ := Z.land (mask_ m) (complement (mask_ other)) |}.

Definition contains (m other : t) : bool :=
  Z.land (mask_ m) (mask_ other) =? mask_ other.

Definition enable (m : t) (k : Key) : t :=
  {| mask_ := Z.lor (mask_ m) (code k) |}.

Definition disable (m : t) (k : Key) : t :=
  {| mask_ := Z.land (mask_ m) (complement (code k)) |}.

(** The free operators [<], [==], [!], [==] against a key and [+] of two
    keys. *)
Definition lt (lhs rhs : t) : bool := value lhs <? value rhs.
Definition eq (lhs rhs : t) : bool := value lhs =? value rhs.
Definition not_ (m : t) : bool := none m.
Definition eq_key (lhs : t) (rhs : Key) : bool := value lhs =? code rhs.
Definition plus (lhs rhs : Key) : t := {| mask_ := Z.lor (code lhs) (code rhs) |}.

(** [makeVirtualTerminalParam]: [1 + value()] is an [unsigned] sum. *)
Definition makeVirtualTerminalParam (m : t) : Z :=
  to_size_t (to_uint32 (1 + value m)).

(** The flag test that belongs to a key: [none()] for [None]. *)
Definition test (m : t) (k : Key) : bool :=
  match k with
  | None_ => none m
  | Shift => shift m
  | Alt => alt m
  | Control => control m
  | Meta => meta m
  end.
End Modifier.

(** [class InputGenerator], the members whose types the header declares and
    the functions its body defines: the modes and the pending output with
    [peek] and [consume].  The mouse members, the mutex and the text locator
    have types of other headers and take no part in these functions. *)
Module InputGenerator.
Inductive KeyMode : Type := Normal | Application.
Inductive MouseWheelMode : Type := Default | NormalCursorKeys | ApplicationCursorKeys.

Record t : Type :=
  { cursorKeysMode_ : KeyMode;
    numpadKeysMode_ : KeyMode;
    bracketedPaste_ : bool;
    generateFocusEvents_ : bool;
    mouseWheelMode_ : MouseWheelMode;
    pendingSequence_ : list Byte.byte; (* std::vector<char> *)
    consumedBytes_ : Z }.              (* int *)

(** The member initialisers. *)
Definition initial : t :=
  {| cursorKeysMode_ := Normal; numpadKeysMode_ := Normal;
     bracketedPaste_ := false; generateFocusEvents_ := false;
     mouseWheelMode_ := Default; pendingSequence_ := []; consumedBytes_ := 0 |}.

Definition normalCursorKeys (g : t) : bool :=
  match cursorKeysMode_ g with Normal => true | Application => false end.
Definition applicationCursorKeys (g : t) : bool := negb (normalCursorKeys g).
Definition numericKeypad (g : t) : bool :=
  match numpadKeysMode_ g with Normal => true | Application => false end.
Definition applicationKeypad (g : t) : bool := negb (numericKeypad g).

Definition with_buffer (g : t) (pending : list Byte.byte) (consumed : Z) : t :=
  {| cursorKeysMode_ := cursorKeysMode_ g; numpadKeysMode_ := numpadKeysMode_ g;
     bracketedPaste_ := bracketedPaste_ g; generateFocusEvents_ := generateFocusEvents_ g;
     mouseWheelMode_ := mouseWheelMode_ g;
     pendingSequence_ := pending; consumedBytes_ := consumed |}.

(** [peek()]: the view of [size() - consumedBytes_] bytes from
    [data() + consumedBytes_].  With [consumedBytes_] outside the buffer the
    view is outside it too. *)
Definition peek (g : t) : Outcome (list Byte.byte) :=
  if (0 <=? consumedBytes_ g)
     && (consumedBytes_ g <=? Z.of_nat (length (pendingSequence_ g)))
  then Returns (skipn (Z.to_nat (consumedBytes_ g)) (pendingSequence_ g))
  else Fails OutOfBounds.

(** [consume(n)]: [consumedBytes_ += n], and when that equals the size,
    compared as [size_t], the buffer and the counter start afresh. *)
Definition consume (g : t) (n : Z) : t :=
  let consumed := consumedBytes_ g + n in
  if to_size_t consumed =? Z.of_nat (length (pendingSequence_ g))
  then with_buffer g [] 0
  else with_buffer g (pendingSequence_ g) consumed.
End InputGenerator.

(** ** terminal::ViCommands: motions and text objects *)

(** A loop [while (cond) body] on a state; [None] when [fuel] rounds did not
    end it. *)
Fixpoint while {S : Type} (fuel : nat) (cond : S -> bool) (body : S -> S) (s : S)
  : option S :=
  if cond s then
    match fuel with
    | O => None
    | S fuel' => while fuel' cond body (body s)
    end
  else Some s.

Module vi.
Import Ascii.AsciiSyntax.
Local Open Scope char_scope.

(** [CellLocation] of a boxed [LineOffset] and a boxed [ColumnOffset], both
    [int]; adding or subtracting a [ColumnOffset] moves the column. *)
Record CellLocation : Type := { line : Z; column : Z }.

Record CellLocationRange : Type := { first : CellLocation; second : CellLocation }.

Definition with_line (l : CellLocation) (v : Z) : CellLocation :=
  {| line := v; column := column l |}.
Definition with_column (l : CellLocation) (v : Z) : CellLocation :=
  {| line := line l; column := v |}.


Inductive ViMotion : Type :=
  | CharLeft | CharRight | ScreenColumn | FileBegin | FileEnd | LineBegin
  | LineTextBegin | LineDown | LineEnd | LineUp | PageDown | PageUp
  | ParagraphBackward | ParagraphForward | ParenthesisMatching
  | SearchResultBackward | SearchResultForward | WordBackward | WordEndForward
  | WordForward | Explicit | Selection | FullLine.

Inductive TextObject : Type :=
  | AngleBrackets | BackQuotes | CurlyBrackets | DoubleQuotes | Paragraph
  | RoundBrackets | SingleQuotes | SquareBrackets | Word.

Inductive TextObjectScope : Type := Inner | A.

(** The terminal as these functions query it.  [Terminal.h] and [Screen.h]
    are not among the sources: the page size, the number of history lines
    and the three tests on the screen's cells are taken as they come. *)
Record Terminal : Type :=
  { lines : Z;            (* pageSize().lines *)
    columns : Z;          (* pageSize().columns *)
    historyLineCount : Z; (* currentScreen().historyLineCount() *)
    isCellEmpty : CellLocation -> bool;
    isLineEmpty : Z -> bool;
    compareCellTextAt : CellLocation -> Ascii.ascii -> bool }.

(** The two members these functions read and write. *)
Record ViCommands : Type :=
  { terminal : Terminal;
    cursorPosition : CellLocation }.

(** [translateToCellLocation(motion, count)].  [count] is an [unsigned]
    that [cast_from] converts to [int]; the cases [ParenthesisMatching],
    [SearchResultBackward] and [SearchResultForward] fall through to
    [WordBackward]. *)
Definition translateToCellLocation (fuel : nat) (v : ViCommands) (motion : ViMotion)
    (count : Z) : option CellLocation :=
  let t := terminal v in
  let cursor := cursorPosition v in
  match motion with
  | CharLeft =>
      Some (with_column cursor (column cursor - Z.min (column cursor) (to_int count)))
  | CharRight =>
      let columnsAvailable := columns t - column cursor - 1 in
      Some (with_column cursor (column cursor + Z.min (to_int count) columnsAvailable))
  | ScreenColumn =>
      Some {| line := line cursor; column := Z.min (to_int count) (columns t - 1) |}
  | FileBegin => Some {| line := to_int (- historyLineCount t); column := 0 |}
  | FileEnd => Some {| line := lines t - 1; column := 0 |}
  | LineBegin => Some {| line := line cursor; column := 0 |}
  | LineTextBegin =>
      while fuel
        (fun result => (column result <? columns t - 1) && isCellEmpty t result)
        (fun result => with_column result (column result + 1))
        {| line := line cursor; column := 0 |}
  | LineDown =>
      Some {| line := Z.min (line cursor + to_int count) (lines t - 1);
              column := column cursor |}
  | LineEnd => Some {| line := line cursor; column := columns t - 1 |}
  | LineUp =>
      Some {| line := Z.max (line cursor - to_int count) (- historyLineCount t);
              column := column cursor |}
  | PageDown =>
      Some {| line := Z.min (line cursor + Z.quot (lines t) 2) (lines t - 1);
              column := column cursor |}
  | PageUp =>
      Some {| line := Z.max (line cursor - Z.quot (lines t) 2) (- historyLineCount t);
              column := column cursor |}
  | ParagraphBackward =>
      let pageTop := - historyLineCount t in
      let prev := {| line := line cursor; column := 0 |} in
      let prev := if 0 <? line prev then with_line prev (line prev - 1) else prev in
      option_map snd
        (while fuel
           (fun '(prev, current) =>
              (pageTop <? line current)
              && (negb (isLineEmpty t (line current)) || isLineEmpty t (line prev)))
           (fun '(prev, current) =>
              (with_line prev (line current), with_line current (line current - 1)))
           (prev, prev))
  | ParagraphForward =>
      let pageBottom := lines t - 1 in
      let prev := {| line := line cursor; column := 0 |} in
      let prev := if line prev <? pageBottom then with_line prev (line prev + 1) else prev in
      option_map snd
        (while fuel
           (fun '(prev, current) =>
              (line current <? pageBottom)
              && (negb (isLineEmpty t (line current)) || isLineEmpty t (line prev)))
           (fun '(prev, current) =>
              (with_line prev (line current), with_line current (line current + 1)))
           (prev, prev))
  | ParenthesisMatching | SearchResultBackward | SearchResultForward | WordBackward =>
      let prev := cursor in
      let prev := if 0 <? column prev then with_column prev (column prev - 1) else prev in
      option_map
        (fun '(prev, current) => if column current =? 0 then current else prev)
        (while fuel
           (fun '(prev, current) =>
              (0 <? column current)
              && (negb (isCellEmpty t current) || isCellEmpty t prev))
           (fun '(prev, current) =>
              (with_column prev (column current), with_column current (column current - 1)))
           (prev, prev))
  | WordEndForward =>
      let rightMargin := columns t in
      let prev := cursor in
      let prev :=
        if column prev + 1 <? rightMargin then with_column prev (column prev + 1) else prev in
      option_map fst
        (while fuel
           (fun '(prev, current) =>
              (column current + 1 <? rightMargin)
              && (negb (isCellEmpty t current) || isCellEmpty t prev))
           (fun '(prev, current) =>
              (with_column prev (column current), with_column current (column current + 1)))
           (prev, prev))
  | WordForward =>
      let rightMargin := columns t in
      let prev := cursor in
      let prev :=
        if column prev + 1 <? rightMargin then with_column prev (column prev + 1) else prev in
      option_map snd
        (while fuel
           (fun '(prev, current) =>
              (column current + 1 <? rightMargin)
              && (isCellEmpty t current || negb (isCellEmpty t prev)))
           (fun '(prev, current) =>
              (current, with_column current (column current + 1)))
           (prev, prev))
  | Explicit | Selection | FullLine => Some cursor
  end.

(** [translateToCellRange(motion, count)]. *)
Definition translateToCellRange (fuel : nat) (v : ViCommands) (motion : ViMotion)
    (count : Z) : option CellLocationRange :=
  let cursor := cursorPosition v in
  match motion with
  | FullLine =>
      Some {| first := with_column cursor (column cursor - column cursor);
              second := {| line := line cursor; column := columns (terminal v) - 1 |} |}
  | _ =>
      option_map (fun to => {| first := cursor; second := to |})
                 (translateToCellLocation fuel v motion count)
  end.

(** [expandMatchingPair(scope, left, right)]. *)
Definition expandMatchingPair (fuel : nat) (v : ViCommands) (scope : TextObjectScope)
    (left right : Ascii.ascii) : option CellLocationRange :=
  let t := terminal v in
  let rightMargin := columns t - 1 in
  let inner := match scope with Inner => true | A => false end in
  match while fuel
          (fun a => (0 <? column a) && negb (compareCellTextAt t a left))
          (fun a => with_column a (column a - 1))
          (cursorPosition v) with
  | None => None
  | Some a =>
      let a := if inner && compareCellTextAt t a left
               then with_column a (column a + 1) else a in
      match while fuel
              (fun b => (column b <? rightMargin) && negb (compareCellTextAt t b right))
              (fun b => with_column b (column b + 1))
              (cursorPosition v) with
      | None => None
      | Some b =>
          let b := if inner && compareCellTextAt t b right
                   then with_column b (column b - 1) else b in
          Some {| first := a; second := b |}
      end
  end.

(** [translateToCellRange(scope, textObject)]. *)
Definition translateToCellRange_textObject (fuel : nat) (v : ViCommands)
    (scope : TextObjectScope) (textObject : TextObject) : option CellLocationRange :=
  let t := terminal v in
  let gridTop := - historyLineCount t in
  let gridBottom := lines t - 1 in
  let rightMargin := columns t - 1 in
  match textObject with
  | AngleBrackets => expandMatchingPair fuel v scope "<" ">"
  | BackQuotes => expandMatchingPair fuel v scope "`" "`"
  | CurlyBrackets => expandMatchingPair fuel v scope "{" "}"
  | DoubleQuotes =>
      expandMatchingPair fuel v scope (Ascii.ascii_of_nat 34) (Ascii.ascii_of_nat 34)
  | Paragraph =>
      match while fuel
              (fun a => (gridTop <? line a) && negb (isLineEmpty t (line a - 1)))
              (fun a => with_line a (line a - 1))
              (cursorPosition v) with
      | None => None
      | Some a =>
          option_map (fun b => {| first := a; second := b |})
            (while fuel
               (fun b => (line b <? gridBottom) && negb (isLineEmpty t (line b)))
               (fun b => with_line b (line b + 1))
               (cursorPosition v))
      end
  | RoundBrackets => expandMatchingPair fuel v scope "(" ")"
  | SingleQuotes => expandMatchingPair fuel v scope "'" "'"
  | SquareBrackets => expandMatchingPair fuel v scope "[" "]"
  | Word =>
      match while fuel
              (fun a => (0 <? column a)
                        && negb (isCellEmpty t {| line := line a; column := column a - 1 |}))
              (fun a => with_column a (column a - 1))
              (cursorPosition v) with
      | None => None
      | Some a =>
          option_map (fun b => {| first := a; second := b |})
            (while fuel
               (fun b => (column b <? rightMargin)
                         && negb (isCellEmpty t {| line := line b; column := column b |}))
               (fun b => with_column b (column b + 1))
               (cursorPosition v))
      end
  end.



(** The cell lies on the page or in the history above it. *)
Definition inside (t : Terminal) (l : CellLocation) : Prop :=
  - historyLineCount t <= line l <= lines t - 1 /\ 0 <= column l <= columns t - 1.

(** A page of at least one cell whose extents, with the history, stay far
    from the ends of an [int]. *)
Definition sane (t : Terminal) : Prop :=
  1 <= lines t < 2 ^ 30 /\ 1 <= columns t < 2 ^ 30 /\ 0 <= historyLineCount t < 2 ^ 30.
End vi.

(** * Scenarios and auxiliary notions *)

(** The ring of the spec's rotation scenario. *)
Definition ring_ABCDE : ring.basic_ring String.string :=
  ring.Ring ["A"; "B"; "C"; "D"; "E"] 0.

(** The sum of the counts of a sequence of [allocate] calls. *)
Definition total (counts : list Z) : Z := fold_right Z.add 0 counts.

(** The slicing iterator for tiles of width [T] after [k >= 1] increments,
    and the slice it stands on while no [uint32_t] has overflowed. *)
Definition slicing_iterator_at (T : Z) (k : nat) : atlas.slicing.iterator :=
  {| atlas.slicing.iterator_tileWidth := T;
     atlas.slicing.value :=
       {| atlas.sliceIndex := Z.of_nat k;
          atlas.beginX := Z.of_nat k * T;
          atlas.endX := to_uint32 ((Z.of_nat k + 1) * T) |} |}.

Definition slice_at (T : Z) (k : nat) : atlas.TileSliceIndex :=
  {| atlas.sliceIndex := Z.of_nat k;
     atlas.beginX := Z.of_nat k * T;
     atlas.endX := (Z.of_nat k + 1) * T |}.

(** Atlas properties of the spec's scenarios: "atlas geometry from
    properties" (tiles of 10x20, 60 tiles, 4 direct-mapped slots), "direct
    mapping bypasses LRU" (2 tiles, 2 direct-mapped slots) and "fill and
    evict" (4 tiles, no direct mapping), the latter two with tiles of 8x16. *)
Definition geometry_properties : atlas.AtlasProperties :=
  {| atlas.format := atlas.RGBA;
     atlas.tileSize := {| atlas.width := 10; atlas.height := 20 |};
     atlas.tileCount := 60;
     atlas.directMappingCount := 4 |}.

Definition direct_mapping_properties : atlas.AtlasProperties :=
  {| atlas.format := atlas.RGBA;
     atlas.tileSize := {| atlas.width := 8; atlas.height := 16 |};
     atlas.tileCount := 2;
     atlas.directMappingCount := 2 |}.

Definition fill_properties : atlas.AtlasProperties :=
  {| atlas.format := atlas.RGBA;
     atlas.tileSize := {| atlas.width := 8; atlas.height := 16 |};
     atlas.tileCount := 4;
     atlas.directMappingCount := 0 |}.

(** Properties with tiles 40000 pixels wide and one pixel high. *)
Definition wide_properties : atlas.AtlasProperties :=
  {| atlas.format := atlas.RGBA;
     atlas.tileSize := {| atlas.width := 40000; atlas.height := 1 |};
     atlas.tileCount := 4;
     atlas.directMappingCount := 0 |}.

(** A tile of 8x16 with an empty bitmap that carries [m] as its metadata,
    and the build functions that make it or decline. *)
Definition tile (m : Z) : atlas.TileCreateData.t Z :=
  {| atlas.TileCreateData.bitmap := [];
     atlas.TileCreateData.bitmapFormat := atlas.RGBA;
     atlas.TileCreateData.bitmapSize := {| atlas.width := 8; atlas.height := 16 |};
     atlas.TileCreateData.metadata := m |}.

Definition build (m : Z) : atlas.TileLocation -> Z -> atlas.TileCreateData.t Z :=
  fun _ _ => tile m.

Definition decline : atlas.TileLocation -> Z -> option (atlas.TileCreateData.t Z) :=
  fun _ _ => None.

(** The atlas of [direct_mapping_properties] after two tiles, of the hashes
    101 and 102, were put into its LRU zone, with the backend's log. *)
Definition two_tiles : Outcome (atlas.TextureAtlas Z * atlas.AtlasBackend) :=
  atlas.bind (atlas.new 0 direct_mapping_properties)
    (fun a => atlas.calls a [atlas.call_get_or_emplace 101 (build 1);
                             atlas.call_get_or_emplace 102 (build 2)]) [].

(** What no call on an atlas touches: the tile locations, the geometry and
    the number of direct-mapped slots. *)
Definition same_frame {Metadata : Type} (a a' : atlas.TextureAtlas Metadata) : Prop :=
  atlas._tileLocations a' = atlas._tileLocations a /\
  length (atlas._directMapping a') = length (atlas._directMapping a) /\
  atlas._atlasSize a' = atlas._atlasSize a /\
  atlas._tilesInX a' = atlas._tilesInX a /\
  atlas._tilesInY a' = atlas._tilesInY a.

(** The spec's scenario "fill and evict": the atlas of [fill_properties]
    after the tiles of the hashes 1 to 4, and then of 5, were asked for. *)
Definition four_tiles : Outcome (atlas.TextureAtlas Z * atlas.AtlasBackend) :=
  atlas.bind (atlas.new 0 fill_properties)
    (fun a => atlas.calls a [atlas.call_get_or_emplace 1 (build 1);
                             atlas.call_get_or_emplace 2 (build 2);
                             atlas.call_get_or_emplace 3 (build 3);
                             atlas.call_get_or_emplace 4 (build 4)]) [].

Definition five_tiles : Outcome (atlas.TextureAtlas Z * atlas.AtlasBackend) :=
  match four_tiles with
  | Returns (a, backend) => atlas.call a (atlas.call_get_or_emplace 5 (build 5)) backend
  | Fails f => Fails f
  end.

Definition uploads (backend : atlas.AtlasBackend) : nat :=
  length (filter atlas.is_uploadTile backend).

(** The table hands out entry indices below its capacity. *)
Definition indices_below {Value : Type} (table : atlas.StrongLRUHashtable.t Value) : Prop :=
  Forall (fun e => 0 <= atlas.StrongLRUHashtable.entryIndex e
                   < atlas.StrongLRUHashtable.capacity table)
         (atlas.StrongLRUHashtable.entries table).

(** A call that leaves an atlas without direct-mapped slots without them: a
    [reset] passes properties without direct mapping; the index of
    [setDirectMapping] is a [uint32_t]. *)
Definition without_direct_mapping {Metadata : Type} (c : atlas.Call Metadata) : Prop :=
  match c with
  | atlas.call_reset atlasProperties => atlas.directMappingCount atlasProperties = 0
  | atlas.call_setDirectMapping index _ => 0 <= index
  | _ => True
  end.

Definition is_setDirectMapping {Metadata : Type} (c : atlas.Call Metadata) : Prop :=
  match c with
  | atlas.call_setDirectMapping _ _ => True
  | _ => False
  end.

(** What the calls keep of an atlas [a0] built without direct mapping: the
    tile locations, no slots and no reserved tiles, and a table of as many
    entries as there are tile locations, at least one, whose entry indices
    lie below that. *)
Definition unmapped {Metadata : Type} (a0 a : atlas.TextureAtlas Metadata) : Prop :=
  atlas._tileLocations a = atlas._tileLocations a0 /\
  atlas._directMapping a = [] /\
  atlas.directMappingCount (atlas._atlasProperties a) = 0 /\
  atlas.StrongLRUHashtable.capacity (atlas._tileCache a)
    = Z.of_nat (length (atlas._tileLocations a)) /\
  1 <= atlas.StrongLRUHashtable.capacity (atlas._tileCache a) < 2 ^ 32 /\
  indices_below (atlas._tileCache a).

(** An input generator with the three bytes of a cursor-up sequence
    pending. *)
Definition three_pending : InputGenerator.t :=
  InputGenerator.with_buffer InputGenerator.initial
    [Byte.x1b; Byte.x5b; Byte.x41] 0.

(** A page of 24 lines and 80 columns under 100 lines of history.  Every
    line holds text in the columns 2 to 5 and 8 to 9, with an opening
    parenthesis in column 2 and a closing one in column 5; the lines 3 to 6
    are the ones that are not empty.  The cursor is on line 4, column 3. *)
Definition sample_terminal : vi.Terminal :=
  {| vi.lines := 24;
     vi.columns := 80;
     vi.historyLineCount := 100;
     vi.isCellEmpty := fun l =>
       negb (((2 <=? vi.column l) && (vi.column l <=? 5))
             || ((8 <=? vi.column l) && (vi.column l <=? 9)));
     vi.isLineEmpty := fun l => negb ((3 <=? l) && (l <=? 6));
     vi.compareCellTextAt := fun l c =>
       ((vi.column l =? 2) && Ascii.eqb c (Ascii.ascii_of_nat 40))
       || ((vi.column l =? 5) && Ascii.eqb c (Ascii.ascii_of_nat 41)) |}.

Definition sample_vi : vi.ViCommands :=
  {| vi.terminal := sample_terminal;
     vi.cursorPosition := {| vi.line := 4; vi.column := 3 |} |}.


(** * Properties *)

Import atlas.

(** ** Machine integers *)

Lemma wrap_small (bits v : Z) : 0 <= v < 2 ^ bits -> wrap bits v = v.
Proof. intros H. unfold wrap. now apply Z.mod_small. Qed.

Lemma wrap_range (bits v : Z) : 0 <= bits -> 0 <= wrap bits v < 2 ^ bits.
Proof.
  intros H. unfold wrap. apply Z.mod_pos_bound. now apply Z.pow_pos_nonneg.
Qed.

Lemma wrap_le (bits v : Z) : 0 <= bits -> 0 <= v -> wrap bits v <= v.
Proof.
  intros Hb Hv. unfold wrap. apply Z.mod_le; [assumption|].
  now apply Z.pow_pos_nonneg.
Qed.

Lemma to_long_small (v : Z) : 0 <= v < 2 ^ 63 -> to_long v = v.
Proof.
  intros H. unfold to_long. rewrite wrap_small by lia.
  destruct (Z.ltb_spec v (2 ^ 63)); lia.
Qed.

(** ** The ring *)

Section ring_facts.
Context {T : Type}.
Implicit Type r : ring.basic_ring T.

(** Within the reach of the [+ size()] of the source, that is for a count
    that does not exceed [_zero + size()], [rotate] moves the origin by
    [- count] modulo the size. *)
Lemma rotate_zero_in_reach r (count : Z) :
  0 <= ring._zero r < ring.size r -> ring.size r < 2 ^ 62 ->
  - 2 ^ 31 <= count < 2 ^ 31 ->
  count <= ring._zero r + ring.size r ->
  ring._zero (ring.rotate r count) = (ring._zero r - count) mod ring.size r.
Proof.
  intros Hz Hn Hc Hreach. unfold ring.rotate. cbn [ring._zero ring._storage].
  unfold ring.size in *. cbn [ring._storage] in *.
  set (n := Z.of_nat (length (ring._storage r))) in *.
  rewrite to_long_small by lia.
  unfold to_size_t. rewrite wrap_small by lia.
  replace (ring._zero r + n - count) with (ring._zero r - count + 1 * n) by ring.
  now rewrite Z.mod_add by lia.
Qed.

Lemma rotate_size r (count : Z) : ring.size (ring.rotate r count) = ring.size r.
Proof. reflexivity. Qed.

(** For a count of magnitude at most the size, rotating forth and back
    restores the ring. *)
Lemma rotate_forth_and_back_in_reach r (k : Z) :
  0 <= ring._zero r < ring.size r -> ring.size r < 2 ^ 31 ->
  Z.abs k <= ring.size r ->
  ring.rotate (ring.rotate r k) (- k) = r.
Proof.
  intros Hz Hn Hk.
  assert (Hz1 : 0 <= ring._zero (ring.rotate r k) < ring.size r).
  { rewrite rotate_zero_in_reach by lia. apply Z.mod_pos_bound. lia. }
  assert (H2 : ring._zero (ring.rotate (ring.rotate r k) (- k)) = ring._zero r).
  { rewrite rotate_zero_in_reach; rewrite ?rotate_size; try lia.
    rewrite rotate_zero_in_reach by lia.
    rewrite Zminus_mod_idemp_l.
    replace (ring._zero r - k - - k) with (ring._zero r) by ring.
    apply Z.mod_small. lia. }
  destruct r as [s z]. unfold ring.rotate in *. cbn [ring._storage ring._zero] in *.
  now rewrite H2.
Qed.
End ring_facts.

(** Claim C6, at a count beyond the size.  On the ring [A B C D E] with the
    origin at 0, [rotate(+7)] followed by [rotate(-7)] leaves the origin at 1
    and the logical order [B C D E A]: the ring is not restored.  The
    difference [5 - 7] is negative, its conversion to [size_t] is
    [2^64 - 2], and [2^64] is not a multiple of 5. *)
Theorem rotate_forth_and_back_beyond_size :
  ring.zero_index ring_ABCDE = 0 /\
  ring.zero_index (ring.rotate ring_ABCDE 7) = 4 /\
  ring.zero_index (ring.rotate (ring.rotate ring_ABCDE 7) (-7)) = 1 /\
  ring.elements (ring.rotate (ring.rotate ring_ABCDE 7) (-7))
    = [Some "B"; Some "C"; Some "D"; Some "E"; Some "A"] /\
  ring.elements ring_ABCDE
    = [Some "A"; Some "B"; Some "C"; Some "D"; Some "E"] /\
  ring.rotate (ring.rotate ring_ABCDE 7) (-7) <> ring_ABCDE.
Proof.
  repeat split; try (vm_compute; reflexivity).
  intros H. apply (f_equal ring.zero_index) in H. vm_compute in H. discriminate H.
Qed.

(** Claim C7, at a count beyond the size.  On the ring [A B C D E] with the
    origin at 0, [rotate(7)] puts the origin at 4, while [rotate(7 mod 5)],
    that is [rotate(2)], puts it at 3. *)
Theorem rotate_beyond_size_is_not_rotate_mod_size :
  ring.size ring_ABCDE = 5 /\
  7 mod ring.size ring_ABCDE = 2 /\
  ring.rotate ring_ABCDE 7 = ring.Ring ["A"; "B"; "C"; "D"; "E"] 4 /\
  ring.rotate ring_ABCDE (7 mod ring.size ring_ABCDE)
    = ring.Ring ["A"; "B"; "C"; "D"; "E"] 3 /\
  ring.rotate ring_ABCDE 7 <> ring.rotate ring_ABCDE (7 mod ring.size ring_ABCDE).
Proof.
  repeat split; try (vm_compute; reflexivity).
  intros H. apply (f_equal ring.zero_index) in H. vm_compute in H. discriminate H.
Qed.

(** The spec's scenario "ring rotation": [rotate(+2)] on [A B C D E] gives
    the logical order [D E A B C], and [rezero()] brings it into the storage. *)
Example ring_rotation_scenario :
  ring.elements (ring.rotate ring_ABCDE 2)
    = [Some "D"; Some "E"; Some "A"; Some "B"; Some "C"] /\
  ring.rezero (ring.rotate ring_ABCDE 2) = ring.Ring ["D"; "E"; "A"; "B"; "C"] 0.
Proof. split; reflexivity. Qed.

(** ** DirectMappingAllocator *)

Lemma to_uint32_add_l (u v : Z) : to_uint32 (to_uint32 u + v) = to_uint32 (u + v).
Proof. unfold to_uint32, wrap. now rewrite Zplus_mod_idemp_l. Qed.

Lemma total_firstn_le (counts : list Z) (i : nat) :
  Forall (fun c => 0 <= c) counts -> 0 <= total (firstn i counts) <= total counts.
Proof.
  intros H. revert i. unfold total.
  induction H as [|c counts Hc _ IH]; intros [|i]; cbn; try lia.
  - specialize (IH 0%nat). cbn in IH. lia.
  - specialize (IH i). lia.
Qed.

Lemma allocate_each_enabled (counts : list Z) :
  forall a ms a',
    DirectMappingAllocator.enabled a = true ->
    is_uint32 (DirectMappingAllocator.currentlyAllocatedCount a) ->
    DirectMappingAllocator.allocate_each a counts = (ms, a') ->
    DirectMappingAllocator.enabled a' = true /\
    DirectMappingAllocator.currentlyAllocatedCount a'
      = to_uint32 (DirectMappingAllocator.currentlyAllocatedCount a + total counts) /\
    forall i count, nth_error counts i = Some count ->
      nth_error ms i
        = Some {| atlas.DirectMapping.baseIndex :=
                    to_uint32 (DirectMappingAllocator.currentlyAllocatedCount a
                               + total (firstn i counts));
                  atlas.DirectMapping.count := count |}.
Proof.
  induction counts as [|c counts IH]; intros a ms a' Hen Hcur Hrun; cbn in Hrun.
  - injection Hrun as <- <-. cbn. rewrite Z.add_0_r.
    repeat split; try assumption.
    + symmetry. now apply wrap_small.
    + intros [|i] count Hi; discriminate Hi.
  - unfold DirectMappingAllocator.allocate in Hrun. rewrite Hen in Hrun. cbn in Hrun.
    destruct (DirectMappingAllocator.allocate_each _ counts) as [ms' a''] eqn:Hrest.
    injection Hrun as <- <-.
    apply IH in Hrest; [| reflexivity | apply wrap_range; lia].
    cbn [DirectMappingAllocator.currentlyAllocatedCount] in Hrest.
    destruct Hrest as (Hen' & Hcur' & Hnth).
    repeat split; try assumption.
    + rewrite Hcur', to_uint32_add_l. f_equal. unfold total. cbn [fold_right]. ring.
    + intros [|i] count Hi; cbn [nth_error firstn] in Hi |- *.
      * injection Hi as ->. unfold total. cbn [fold_right]. rewrite Z.add_0_r.
        unfold to_uint32. now rewrite wrap_small.
      * rewrite (Hnth i count Hi), to_uint32_add_l. do 3 f_equal.
        unfold total. cbn [fold_right]. ring.
Qed.

(** Claim C10, as the code has it.  With [enabled == true], the mapping
    returned by the i-th [allocate] of a sequence has the requested count and
    a [baseIndex] equal to the counter at the start plus the counts allocated
    before it, reduced modulo [2^32] as every [uint32_t] sum is; this is the
    plain sum as long as the grand total stays below [2^32], and the counter
    advances by each count in the same arithmetic.  With [enabled == false],
    [allocate] returns the empty mapping, which converts to [false], and
    leaves the allocator as it was. *)
Theorem allocate_sequence (a : DirectMappingAllocator.t) (counts : list Z) :
  is_uint32 (DirectMappingAllocator.currentlyAllocatedCount a) ->
  let start := DirectMappingAllocator.currentlyAllocatedCount a in
  let result := DirectMappingAllocator.allocate_each a counts in
  (DirectMappingAllocator.enabled a = true ->
     DirectMappingAllocator.currentlyAllocatedCount (snd result)
       = to_uint32 (start + total counts) /\
     (forall i count, nth_error counts i = Some count ->
        nth_error (fst result) i
          = Some {| atlas.DirectMapping.baseIndex := to_uint32 (start + total (firstn i counts));
                    atlas.DirectMapping.count := count |}) /\
     (Forall (fun c => 0 <= c) counts -> start + total counts < 2 ^ 32 ->
        forall i count, nth_error counts i = Some count ->
          nth_error (fst result) i
            = Some {| atlas.DirectMapping.baseIndex := start + total (firstn i counts);
                      atlas.DirectMapping.count := count |})) /\
  (DirectMappingAllocator.enabled a = false ->
     forall count,
       DirectMappingAllocator.allocate a count = (atlas.DirectMapping.empty, a) /\
       atlas.DirectMapping.count (fst (DirectMappingAllocator.allocate a count)) = 0 /\
       atlas.DirectMapping.to_bool (fst (DirectMappingAllocator.allocate a count)) = false).
Proof.
  intros Hcur start result. split.
  - intros Hen. subst result.
    destruct (DirectMappingAllocator.allocate_each a counts) as [ms a'] eqn:Hrun.
    destruct (allocate_each_enabled counts a ms a' Hen Hcur Hrun) as (_ & Hfinal & Hnth).
    cbn [fst snd]. repeat split; try assumption.
    intros Hpos Hfit i count Hi. rewrite (Hnth i count Hi). do 2 f_equal.
    apply wrap_small. pose proof (total_firstn_le counts i Hpos).
    unfold is_uint32 in Hcur. fold start. lia.
  - intros Hdis count. unfold DirectMappingAllocator.allocate. rewrite Hdis. cbn.
    repeat split.
Qed.

Lemma allocate_sequence_witness :
  nth_error (fst (DirectMappingAllocator.allocate_each
                    DirectMappingAllocator.initial [3; 5; 2])) 2
    = Some {| atlas.DirectMapping.baseIndex := 8; atlas.DirectMapping.count := 2 |}.
Proof.
  assert (Hcur : is_uint32 (DirectMappingAllocator.currentlyAllocatedCount
                              DirectMappingAllocator.initial))
    by (unfold is_uint32; cbn; lia).
  destruct (allocate_sequence DirectMappingAllocator.initial [3; 5; 2] Hcur)
    as [Hen _].
  destruct (Hen eq_refl) as (_ & _ & Hexact).
  apply (Hexact (ltac:(repeat constructor; lia)) (ltac:(cbn; lia)) 2%nat 2 eq_refl).
Defined.

(** Claim C10 as worded, without the reduction: after [allocate(2^32 - 1)]
    and [allocate(1)] the next mapping has [baseIndex] 0, while the counts
    allocated before it add up to [2^32]. *)
Lemma allocate_baseIndex_wraps :
  let result := DirectMappingAllocator.allocate_each
                  DirectMappingAllocator.initial [4294967295; 1; 1] in
  nth_error (fst result) 2
    = Some {| atlas.DirectMapping.baseIndex := 0; atlas.DirectMapping.count := 1 |} /\
  total (firstn 2 [4294967295; 1; 1]) = 4294967296 /\
  0 <> total (firstn 2 [4294967295; 1; 1]).
Proof. vm_compute. repeat split; discriminate. Qed.

(** ** Tile slicing *)

Section slicing_facts.
Variables (T offsetX h : Z) (m : nat).
Hypothesis T_pos : 0 < T.
Hypothesis m_pos : (1 <= m)%nat.
Hypothesis fits : Z.of_nat m * T < 2 ^ 32.

Let c : slicing.Container :=
  slicing.sliced T offsetX {| width := Z.of_nat m * T; height := h |}.

Lemma offsetForEndX_multiple : slicing.offsetForEndX c = Z.of_nat m * T.
Proof.
  unfold slicing.offsetForEndX. cbn.
  rewrite Z.mod_mul by lia. rewrite Z.add_0_r.
  apply wrap_small. nia.
Qed.

Lemma incr_iterator_at (k : nat) :
  (k < m)%nat ->
  slicing.incr (slicing_iterator_at T k) = slicing_iterator_at T (S k).
Proof.
  intros Hk. unfold slicing.incr, slicing_iterator_at.
  cbn [slicing.value slicing.iterator_tileWidth sliceIndex beginX endX].
  assert (Hk1 : 0 <= (Z.of_nat k + 1) * T < 2 ^ 32) by nia.
  f_equal. f_equal.
  - rewrite Nat2Z.inj_succ. apply wrap_small. nia.
  - rewrite Nat2Z.inj_succ. unfold to_uint32. rewrite wrap_small by lia. lia.
  - rewrite to_uint32_add_l. f_equal. lia.
Qed.

Lemma ne_end (it : slicing.iterator) :
  slicing.ne it (slicing.end_ c)
    = negb (beginX (slicing.value it) =? Z.of_nat m * T).
Proof.
  unfold slicing.ne.
  change (beginX (slicing.value (slicing.end_ c))) with (slicing.offsetForEndX c).
  now rewrite offsetForEndX_multiple.
Qed.

Lemma visit_from (n : nat) :
  forall (k fuel : nat),
    (1 <= k)%nat -> (k + n = m)%nat -> (n <= fuel)%nat ->
    slicing.visit fuel (slicing_iterator_at T k) (slicing.end_ c)
      = Some (map (slice_at T) (seq k n)).
Proof.
  induction n as [|n IH]; intros k fuel Hk Hsum Hfuel.
  - assert (k = m) by lia. subst k.
    destruct fuel; cbn [slicing.visit]; rewrite ne_end;
      cbn [slicing_iterator_at slicing.value beginX];
      now rewrite Z.eqb_refl.
  - destruct fuel as [|fuel]; [lia|].
    cbn [slicing.visit]. rewrite ne_end.
    cbn [slicing_iterator_at slicing.value beginX].
    destruct (Z.eqb_spec (Z.of_nat k * T) (Z.of_nat m * T)) as [E|_]; [nia|].
    cbn [negb]. fold (slicing_iterator_at T k). rewrite incr_iterator_at by lia.
    rewrite (IH (S k) fuel) by lia.
    cbn [map seq]. do 2 f_equal. unfold slice_at.
    cbn [slicing_iterator_at slicing.value]. f_equal.
    apply wrap_small. nia.
Qed.

Lemma slices_of_multiple (fuel : nat) :
  offsetX <> Z.of_nat m * T -> (m <= fuel)%nat ->
  slicing.slices fuel c
    = Some ({| sliceIndex := 0; beginX := offsetX; endX := T |}
            :: map (slice_at T) (seq 1 (m - 1))).
Proof.
  intros Hoff Hfuel. unfold slicing.slices.
  destruct fuel as [|fuel]; [lia|].
  cbn [slicing.visit]. rewrite ne_end.
  cbn [slicing.begin_ slicing.value beginX c slicing.sliced slicing.offsetX].
  destruct (Z.eqb_spec offsetX (Z.of_nat m * T)) as [E|_]; [contradiction|].
  cbn [negb].
  replace (slicing.incr _) with (slicing_iterator_at T 1).
  - rewrite (visit_from (m - 1) 1 fuel) by lia.
    cbn [slicing.tileWidth]. reflexivity.
  - unfold slicing.incr, slicing_iterator_at, slicing.begin_, c, slicing.sliced.
    cbn [slicing.value slicing.iterator_tileWidth sliceIndex beginX endX slicing.tileWidth].
    change (Z.of_nat 1) with 1.
    f_equal. f_equal; try reflexivity; try lia. f_equal. lia.
Qed.
End slicing_facts.

Lemma visit_never_reaches_10 (fuel : nat) :
  forall it,
    slicing.iterator_tileWidth it = 8 ->
    beginX (slicing.value it) mod 8 = 0 ->
    endX (slicing.value it) mod 8 = 0 ->
    slicing.visit fuel it
      (slicing.end_ (slicing.sliced 8 0 {| width := 9; height := 1 |})) = None.
Proof.
  induction fuel as [|fuel IH]; intros it Hw Hb He; cbn [slicing.visit];
    unfold slicing.ne;
    change (beginX (slicing.value (slicing.end_ _))) with 10;
    (destruct (Z.eqb_spec (beginX (slicing.value it)) 10) as [E|_];
       [rewrite E in Hb; discriminate Hb|]); cbn [negb]; [reflexivity|].
  rewrite IH; [reflexivity | exact Hw | exact He |].
  unfold slicing.incr. cbn [slicing.value endX]. rewrite Hw.
  unfold to_uint32, wrap.
  rewrite Z.mod_mod_divide by (exists (2 ^ 29); reflexivity).
  rewrite <- Zplus_mod_idemp_l, He. reflexivity.
Qed.

(** Claim C8, as the code has it.  For a tile width [T > 0] and a bitmap
    whose width is a positive multiple [m * T] of it (below [2^32]), with an
    [offsetX] other than that width, the iteration from [begin()] to [end()]
    ends after [m] increments and yields [m] triples with the slice indices
    0, 1, .., m-1: the first is [(0, offsetX, T)], so it starts at [offsetX]
    and ends at the first tile boundary, and the k-th one after it is
    [(k, k*T, (k+1)*T)], of width [T]; each slice begins where the one
    before ends and the last one ends at the bitmap's width.  Nothing is
    said here about widths that are not multiples of the tile width. *)
Theorem sliced_covers_multiple_width (T offsetX h : Z) (m fuel : nat) :
  0 < T -> (1 <= m)%nat -> Z.of_nat m * T < 2 ^ 32 ->
  offsetX <> Z.of_nat m * T -> (m <= fuel)%nat ->
  let first := {| sliceIndex := 0; beginX := offsetX; endX := T |} in
  let later := map (slice_at T) (seq 1 (m - 1)) in
  slicing.slices fuel
    (slicing.sliced T offsetX {| width := Z.of_nat m * T; height := h |})
    = Some (first :: later) /\
  map sliceIndex (first :: later) = map Z.of_nat (seq 0 m) /\
  Forall (fun s => endX s - beginX s = T) later /\
  endX (last later first) = Z.of_nat m * T.
Proof.
  intros HT Hm Hfit Hoff Hfuel first later. split; [| split; [| split]].
  - now apply slices_of_multiple.
  - destruct m as [|m]; [lia|]. subst later. cbn [map seq sliceIndex first].
    f_equal. replace (S m - 1)%nat with m by lia.
    rewrite map_map. apply map_ext. reflexivity.
  - subst later. apply Forall_forall. intros s Hs.
    apply in_map_iff in Hs. destruct Hs as (k & <- & _). cbn. ring.
  - subst later. destruct m as [|[|m]];
      [lia | cbn [seq map last first endX Nat.sub]; change (Z.of_nat 1) with 1; lia |].
    replace (S (S m) - 1)%nat with (S m) by lia.
    rewrite seq_S, map_app. cbn [map]. rewrite last_last. cbn [slice_at endX]. lia.
Qed.

Lemma sliced_covers_multiple_width_witness :
  slicing.slices 2 (slicing.sliced 8 3 {| width := 16; height := 1 |})
    = Some [ {| sliceIndex := 0; beginX := 3; endX := 8 |};
             {| sliceIndex := 1; beginX := 8; endX := 16 |} ].
Proof.
  exact (proj1 (sliced_covers_multiple_width 8 3 1 2 2
                  ltac:(lia) ltac:(lia) ltac:(cbn; lia) ltac:(cbn; lia) ltac:(lia))).
Defined.

(** Claim C8 as worded fails twice.  For tiles of width 8, [offsetX = 3] and
    a bitmap of width 16 the first slice is [(0, 3, 8)], of width 5 and not
    8.  For tiles of width 8, [offsetX = 0] and a bitmap of width 9,
    [end()] stands at [9 + 9 mod 8 = 10], the iterator only ever stands on
    multiples of 8, also after its [uint32_t] fields wrap around, and so no
    number of increments reaches [end()]. *)
Lemma sliced_first_slice_and_termination :
  (slicing.slices 2 (slicing.sliced 8 3 {| width := 16; height := 1 |})
     = Some [ {| sliceIndex := 0; beginX := 3; endX := 8 |};
              {| sliceIndex := 1; beginX := 8; endX := 16 |} ] /\
   8 - 3 <> 8) /\
  (forall fuel,
     slicing.slices fuel (slicing.sliced 8 0 {| width := 9; height := 1 |}) = None).
Proof.
  split; [split; [reflexivity | discriminate] |].
  intros fuel. unfold slicing.slices. apply visit_never_reaches_10; reflexivity.
Qed.

(** ** The texture atlas *)

Lemma bind_returns {A B : Type} (c : Cmd A) (k : A -> Cmd B) backend r backend' :
  bind c k backend = Returns (r, backend') ->
  exists a backend1, c backend = Returns (a, backend1) /\ k a backend1 = Returns (r, backend').
Proof.
  unfold bind. destruct (c backend) as [[a backend1]|f]; [|discriminate].
  intros H. now exists a, backend1.
Qed.

Lemma lift_returns {A : Type} (o : Outcome A) backend r backend' :
  lift o backend = Returns (r, backend') -> o = Returns r /\ backend' = backend.
Proof.
  unfold lift. destruct o as [a|f]; [|discriminate].
  intros H. injection H as -> ->. now split.
Qed.

Lemma ret_returns {A : Type} (a : A) backend r backend' :
  ret a backend = Returns (r, backend') -> r = a /\ backend' = backend.
Proof. unfold ret. intros H. injection H as -> ->. now split. Qed.

(** Inversion of a call that returned, down to its last [ret]. *)
Ltac returned H :=
  repeat match type of H with
    | bind _ _ _ = Returns _ =>
        let a := fresh "r" in let b := fresh "backend" in let H1 := fresh "Hcall" in
        apply bind_returns in H; destruct H as (a & b & H1 & H)
    | ret _ _ = Returns _ =>
        apply ret_returns in H; destruct H as [? ?]; subst
    end.

Lemma lookup_absent {Value : Type} (table : StrongLRUHashtable.t Value) (h : StrongHash) :
  StrongLRUHashtable.contains table h = false -> StrongLRUHashtable.lookup table h = None.
Proof.
  unfold StrongLRUHashtable.contains, StrongLRUHashtable.lookup.
  induction (StrongLRUHashtable.entries table) as [|e es IH]; cbn; [reflexivity|].
  destruct (StrongLRUHashtable.has_hash h e); cbn; [discriminate | exact IH].
Qed.

Section atlas_facts.
Context {Metadata : Type} (Metadata_default : Metadata).
Implicit Type a : TextureAtlas Metadata.

Lemma with_own_tileCache a : with_tileCache a (_tileCache a) = a.
Proof. now destruct a. Qed.

(** What the constructor leaves behind when it returns. *)
Lemma new_returns (p : AtlasProperties) backend a backend' :
  new Metadata_default p backend = Returns (a, backend') ->
  let X := to_uint32 (width (computeAtlasSize p) / width (tileSize p)) in
  let Y := to_uint32 (height (computeAtlasSize p) / height (tileSize p)) in
  _atlasProperties a = p /\
  _atlasSize a = computeAtlasSize p /\
  _tilesInX a = X /\
  _tilesInY a = Y /\
  _tileCache a
    = StrongLRUHashtable.create (to_uint32 (X * Y)) (to_uint32 (X * Y))
                                "LRU cache for texture atlas" /\
  _tileLocations a
    = map (fun entryIndex => locate X (tileSize p) (Z.of_nat entryIndex))
          (seq 0 (Z.to_nat (to_size_t (to_uint32 (X * Y))))) /\
  _directMapping a
    = repeat (TileAttributes_default Metadata_default)
             (Z.to_nat (directMappingCount p)) /\
  to_uint32 (directMappingCount p + tileCount p) <= to_uint32 (X * Y) /\
  backend' = backend ++ [configureAtlas_
                           {| ConfigureAtlas.size := computeAtlasSize p;
                              ConfigureAtlas.properties := p |}].
Proof.
  intros H X Y. unfold new in H. fold X Y in H.
  apply bind_returns in H. destruct H as ([] & b1 & Hreq & H).
  apply lift_returns in Hreq. destruct Hreq as [Hreq ->].
  apply bind_returns in H. destruct H as ([] & b2 & Hconf & H).
  unfold configureAtlas in Hconf. injection Hconf as <-.
  apply ret_returns in H. destruct H as [-> ->].
  cbn [_atlasProperties _atlasSize _tilesInX _tilesInY _tileCache _tileLocations
       _directMapping].
  repeat split.
  unfold Require in Hreq.
  destruct (Z.leb_spec (to_uint32 (directMappingCount p + tileCount p))
                       (to_size_t (to_uint32 (X * Y)))) as [Hle|_]; [|discriminate].
  unfold to_size_t in Hle. rewrite wrap_small in Hle; [exact Hle|].
  pose proof (wrap_range 32 (X * Y)). unfold to_uint32. lia.
Qed.

Lemma new_capacity (p : AtlasProperties) backend a backend' :
  new Metadata_default p backend = Returns (a, backend') ->
  capacity a = to_uint32 (tilesInX a * tilesInY a).
Proof.
  intros H. apply new_returns in H. destruct H as (_ & _ & HX & HY & _ & Hloc & _).
  unfold capacity, tilesInX, tilesInY. rewrite Hloc, HX, HY.
  rewrite length_map, length_seq.
  pose proof (wrap_range 32 (to_uint32 (width (computeAtlasSize p) / width (tileSize p))
                             * to_uint32 (height (computeAtlasSize p) / height (tileSize p)))).
  unfold to_size_t, to_uint32 in *. rewrite wrap_small by lia. lia.
Qed.

Lemma new_tileLocation (p : AtlasProperties) backend a backend' (i : Z) :
  new Metadata_default p backend = Returns (a, backend') ->
  0 <= i < capacity a ->
  tileLocation a i = Returns (locate (tilesInX a) (tileSize p) i).
Proof.
  intros H Hi. pose proof (new_returns _ _ _ _ H) as (_ & _ & HX & _ & _ & Hloc & _).
  unfold capacity in Hi. unfold tileLocation, subscript, tilesInX.
  destruct (Z.ltb_spec i 0) as [|_]; [lia|].
  rewrite Hloc in Hi |- *. rewrite length_map, length_seq in Hi.
  rewrite nth_error_map, nth_error_seq.
  destruct (Nat.ltb_spec (Z.to_nat i) (Z.to_nat (to_size_t (to_uint32
    (to_uint32 (width (computeAtlasSize p) / width (tileSize p))
     * to_uint32 (height (computeAtlasSize p) / height (tileSize p))))))) as [_|Hge];
    [|lia].
  cbn [option_map]. rewrite Nat.add_0_l, Z2Nat.id by lia. now rewrite HX.
Qed.
End atlas_facts.

Lemma assign_length {A : Type} (v : list A) (i : nat) (a : A) :
  length (assign v i a) = length v.
Proof.
  revert i. induction v as [|b v IH]; intros [|i]; cbn; try reflexivity.
  now rewrite IH.
Qed.

Section atlas_lifetime.
Context {Metadata : Type}.
Implicit Type a : TextureAtlas Metadata.

Lemma same_frame_refl a : same_frame a a.
Proof. now repeat split. Qed.

Lemma same_frame_with_tileCache a cache : same_frame a (with_tileCache a cache).
Proof. now repeat split. Qed.

Lemma call_keeps_frame a (c : Call Metadata) backend a' backend' :
  call a c backend = Returns (a', backend') -> same_frame a a'.
Proof.
  intros H. destruct c; cbn [call] in H.
  - returned H. unfold get_or_emplace in Hcall. returned Hcall.
    apply same_frame_with_tileCache.
  - returned H. apply same_frame_with_tileCache.
  - returned H. unfold get_or_try_emplace in Hcall. returned Hcall.
    apply same_frame_with_tileCache.
  - unfold emplace in H. returned H. apply same_frame_with_tileCache.
  - returned H. apply same_frame_with_tileCache.
  - unfold reset in H. returned H. now repeat split.
  - unfold setDirectMapping in H. returned H.
    repeat split. cbn [_directMapping]. apply assign_length.
Qed.

Lemma calls_keep_frame (cs : list (Call Metadata)) :
  forall a backend a' backend',
    calls a cs backend = Returns (a', backend') -> same_frame a a'.
Proof.
  induction cs as [|c cs IH]; intros a backend a' backend' H; cbn [calls] in H.
  - returned H. apply same_frame_refl.
  - apply bind_returns in H. destruct H as (a1 & b1 & Hc & H).
    apply call_keeps_frame in Hc. apply IH in H.
    unfold same_frame in *. intuition congruence.
Qed.
End atlas_lifetime.

(** ** Geometry of a constructed atlas *)

Section atlas_geometry.
Context {Metadata : Type} (Metadata_default : Metadata).
Variables (p : AtlasProperties) (backend backend' : AtlasBackend).
Variable a : TextureAtlas Metadata.
Hypothesis well_formed : AtlasProperties_wf p.
Hypothesis constructed : new Metadata_default p backend = Returns (a, backend').

Let w := width (tileSize p).
Let h := height (tileSize p).

Lemma tilesInX_fits : tilesInX a * w <= width (atlasSize a).
Proof.
  destruct (new_returns _ _ _ _ _ constructed) as (_ & HS & HX & _).
  unfold tilesInX, atlasSize. rewrite HX, HS.
  destruct well_formed as (Hw & _). fold w in Hw |- *. unfold is_uint32 in Hw.
  set (W := width (computeAtlasSize p)).
  assert (HW : 0 <= W) by (apply wrap_range; lia).
  destruct (Z.eq_dec w 0) as [->|Hw0]; [lia|].
  assert (0 <= W / w) by (apply Z.div_pos; lia).
  pose proof (wrap_le 32 (W / w)). pose proof (Z.mul_div_le W w).
  unfold to_uint32. nia.
Qed.

Lemma tilesInY_fits : tilesInY a * h <= height (atlasSize a).
Proof.
  destruct (new_returns _ _ _ _ _ constructed) as (_ & HS & _ & HY & _).
  unfold tilesInY, atlasSize. rewrite HY, HS.
  destruct well_formed as (_ & Hh & _). fold h in Hh |- *. unfold is_uint32 in Hh.
  set (H := height (computeAtlasSize p)).
  assert (HH : 0 <= H) by (apply wrap_range; lia).
  destruct (Z.eq_dec h 0) as [->|Hh0]; [lia|].
  assert (0 <= H / h) by (apply Z.div_pos; lia).
  pose proof (wrap_le 32 (H / h)). pose proof (Z.mul_div_le H h).
  unfold to_uint32. nia.
Qed.

Lemma tiles_nonneg : 0 <= tilesInX a /\ 0 <= tilesInY a.
Proof.
  destruct (new_returns _ _ _ _ _ constructed) as (_ & _ & HX & HY & _).
  unfold tilesInX, tilesInY. rewrite HX, HY.
  split; apply wrap_range; lia.
Qed.

Lemma capacity_le : capacity a <= tilesInX a * tilesInY a.
Proof.
  rewrite (new_capacity _ _ _ _ _ constructed).
  destruct tiles_nonneg. apply wrap_le; nia.
Qed.

(** The column and the row of a tile index below the capacity. *)
Lemma column_and_row (i : Z) :
  0 <= i < capacity a ->
  0 < tilesInX a /\ 0 <= i mod tilesInX a < tilesInX a /\
  0 <= i / tilesInX a < tilesInY a.
Proof.
  intros Hi. pose proof capacity_le. destruct tiles_nonneg as [HX HY].
  assert (0 < tilesInX a) by nia.
  split; [assumption|]. split; [now apply Z.mod_pos_bound|].
  split; [apply Z.div_pos; lia|].
  apply Z.div_lt_upper_bound; nia.
Qed.

Lemma tileLocation_inside (i : Z) :
  0 <= i < capacity a ->
  exists location,
    tileLocation a i = Returns location /\
    0 <= x location <= width (atlasSize a) - w /\
    0 <= y location <= height (atlasSize a) - h.
Proof.
  intros Hi. exists (locate (tilesInX a) (tileSize p) i).
  split; [now apply (new_tileLocation _ _ _ _ _ _ constructed)|].
  destruct (column_and_row i Hi) as (HX & Hcol & Hrow).
  pose proof tilesInX_fits. pose proof tilesInY_fits.
  destruct well_formed as (Hw & Hh & _). fold w in Hw. fold h in Hh.
  unfold is_uint32 in Hw, Hh.
  unfold locate. cbn [x y]. fold w h.
  pose proof (wrap_range 16 (i mod tilesInX a * w)).
  pose proof (wrap_le 16 (i mod tilesInX a * w)).
  pose proof (wrap_range 16 (i / tilesInX a * h)).
  pose proof (wrap_le 16 (i / tilesInX a * h)).
  unfold to_uint16. split; nia.
Qed.

Lemma tileLocation_on_grid (i : Z) :
  0 <= i < capacity a ->
  i mod tilesInX a * w <= 65535 ->
  i / tilesInX a * h <= 65535 ->
  tileLocation a i
    = Returns {| x := i mod tilesInX a * w; y := i / tilesInX a * h |}.
Proof.
  intros Hi Hx Hy. rewrite (new_tileLocation _ _ _ _ _ _ constructed) by assumption.
  destruct (column_and_row i Hi) as (HX & Hcol & Hrow).
  destruct well_formed as (Hw & Hh & _). fold w in Hw. fold h in Hh.
  unfold is_uint32 in Hw, Hh.
  unfold locate, to_uint16. fold w h.
  rewrite !wrap_small by nia. reflexivity.
Qed.
End atlas_geometry.

(** Claim C3, as the code has it.  For every atlas that the constructor
    returns and every [i] below its capacity, [tileLocations[i]] is
    [((i mod tilesInX) * tileSize.w, (i div tilesInX) * tileSize.h)]
    whenever both products fit the 16-bit offsets of a [TileLocation], that
    is, are at most 65535.  For tiles of 10x20, 60 tiles and 4 direct-mapped
    slots the constructor returns, after one [configureAtlas] command, an
    atlas of 128x256 pixels with 12 tiles in X, 12 tiles in Y, capacity 144
    and [tileLocation(13) = (10, 20)]. *)
Theorem tileLocations_follow_grid {Metadata : Type} (Metadata_default : Metadata)
    (p : AtlasProperties) (backend backend' : AtlasBackend) (a : TextureAtlas Metadata) :
  AtlasProperties_wf p ->
  new Metadata_default p backend = Returns (a, backend') ->
  (forall i, 0 <= i < capacity a ->
     i mod tilesInX a * width (tileSize p) <= 65535 ->
     i / tilesInX a * height (tileSize p) <= 65535 ->
     tileLocation a i
       = Returns {| x := i mod tilesInX a * width (tileSize p);
                    y := i / tilesInX a * height (tileSize p) |}) /\
  (exists a6,
     new Metadata_default geometry_properties backend
       = Returns (a6, backend ++ [configureAtlas_
                    {| ConfigureAtlas.size := {| width := 128; height := 256 |};
                       ConfigureAtlas.properties := geometry_properties |}]) /\
     atlasSize a6 = {| width := 128; height := 256 |} /\
     tilesInX a6 = 12 /\ tilesInY a6 = 12 /\ capacity a6 = 144 /\
     tileLocation a6 13 = Returns {| x := 10; y := 20 |}).
Proof.
  intros Hwf Hnew. split.
  - intros i Hi Hx Hy.
    now apply (tileLocation_on_grid Metadata_default p backend backend').
  - eexists. split; [vm_compute; reflexivity|].
    vm_compute. repeat split.
Qed.

Lemma tileLocations_follow_grid_witness :
  exists a backend',
    new 0 geometry_properties [] = Returns (a, backend') /\
    tileLocation a 143 = Returns {| x := 110; y := 220 |}.
Proof.
  eexists. eexists. split; [vm_compute; reflexivity|].
  refine (proj1 (tileLocations_follow_grid 0 geometry_properties [] _ _ _ _) 143 _ _ _).
  - unfold AtlasProperties_wf, is_uint32. cbn. lia.
  - vm_compute. reflexivity.
  - vm_compute. split; [discriminate | reflexivity].
  - vm_compute. discriminate.
  - vm_compute. discriminate.
Defined.

(** Claim C3 as worded, for every [AtlasProperties]: with tiles 40000
    pixels wide (4 tiles, no direct mapping) the atlas has 3 tiles in X and
    capacity 6, and for [i = 2] the formula gives the offset
    [2 * 40000 = 80000], while [tileLocations[2].x] is a 16-bit value. *)
Lemma tileLocation_offset_exceeds_16_bits :
  exists a backend',
    new 0 wide_properties [] = Returns (a, backend') /\
    tilesInX a = 3 /\ capacity a = 6 /\
    2 mod tilesInX a * width (tileSize wide_properties) = 80000 /\
    exists location,
      tileLocation a 2 = Returns location /\
      0 <= x location < 65536 /\
      location <> {| x := 2 mod tilesInX a * width (tileSize wide_properties);
                     y := 2 / tilesInX a * height (tileSize wide_properties) |}.
Proof.
  eexists. eexists. split; [vm_compute; reflexivity|].
  do 3 (split; [reflexivity|]).
  eexists. split; [vm_compute; reflexivity|].
  vm_compute. repeat split; discriminate.
Qed.

(** Claim C5, as the code has it.  For every atlas that the constructor
    returns and every [i] below its capacity, [tileLocations[i]] lies on a
    tile that is inside the texture, [x <= atlasWidth - tileSize.w] and
    [y <= atlasHeight - tileSize.h] (the last column and the last row may
    touch the border, so the bounds are not strict), and no sequence of calls
    on the atlas changes the capacity or any [tileLocations[i]]. *)
Theorem tileLocations_inside_and_constant {Metadata : Type} (Metadata_default : Metadata)
    (p : AtlasProperties) (backend backend' : AtlasBackend) (a : TextureAtlas Metadata) :
  AtlasProperties_wf p ->
  new Metadata_default p backend = Returns (a, backend') ->
  (forall i, 0 <= i < capacity a ->
     exists location,
       tileLocation a i = Returns location /\
       0 <= x location <= width (atlasSize a) - width (tileSize p) /\
       0 <= y location <= height (atlasSize a) - height (tileSize p)) /\
  (forall cs backend1 a2 backend2,
     calls a cs backend1 = Returns (a2, backend2) ->
     capacity a2 = capacity a /\
     atlasSize a2 = atlasSize a /\
     forall i, tileLocation a2 i = tileLocation a i).
Proof.
  intros Hwf Hnew. split.
  - intros i Hi.
    now apply (tileLocation_inside Metadata_default p backend backend').
  - intros cs backend1 a2 backend2 Hcalls.
    apply calls_keep_frame in Hcalls. destruct Hcalls as (Hloc & _ & Hsize & _).
    unfold capacity, atlasSize, tileLocation. rewrite Hloc, Hsize. now repeat split.
Qed.

Lemma tileLocations_inside_and_constant_witness :
  exists a backend',
    new 0 fill_properties [] = Returns (a, backend') /\
    exists location,
      tileLocation a 3 = Returns location /\
      0 <= x location <= width (atlasSize a) - 8 /\
      0 <= y location <= height (atlasSize a) - 16.
Proof.
  eexists. eexists. split; [vm_compute; reflexivity|].
  refine (proj1 (tileLocations_inside_and_constant 0 fill_properties [] _ _ _ _) 3 _).
  - unfold AtlasProperties_wf, is_uint32. cbn. lia.
  - vm_compute. reflexivity.
  - vm_compute. split; [discriminate | reflexivity].
Defined.

(** Claim C5 as worded, with strict bounds: for tiles of 8x16, 4 tiles and
    no direct mapping the atlas is 16 pixels wide and [tileLocations[1]] is
    [(8, 0)], and 8 is not below [16 - 8]. *)
Lemma tileLocation_touches_border :
  exists a backend',
    new 0 fill_properties [] = Returns (a, backend') /\
    capacity a = 4 /\
    width (atlasSize a) = 16 /\
    tileLocation a 1 = Returns {| x := 8; y := 0 |} /\
    ~ 8 < width (atlasSize a) - width (tileSize fill_properties).
Proof.
  eexists. eexists. split; [vm_compute; reflexivity|].
  vm_compute. repeat split. discriminate.
Qed.

(** ** reset *)

(** Claim C4, as the code has it.  [reset(properties)] always returns: it
    stores the properties it is given, clears the LRU table, keeps
    [tileLocations], the direct mapping, the atlas size and the tile counts
    of the construction, and sends nothing to the backend, so no
    [configureAtlas] is reissued, whatever the properties are. *)
Theorem reset_clears_cache_keeps_geometry {Metadata : Type}
    (a : TextureAtlas Metadata) (p : AtlasProperties) (backend : AtlasBackend) :
  exists a',
    reset a p backend = Returns (a', backend) /\
    _atlasProperties a' = p /\
    StrongLRUHashtable.entries (_tileCache a') = [] /\
    (forall key, contains a' key = false) /\
    _tileLocations a' = _tileLocations a /\
    _directMapping a' = _directMapping a /\
    atlasSize a' = atlasSize a /\
    tilesInX a' = tilesInX a /\ tilesInY a' = tilesInY a.
Proof. eexists. split; [reflexivity|]. now repeat split. Qed.

(** Claim C4 as worded, where it has [reset] fail on a changed geometry: the
    atlas built for tiles of 10x20 (128x256 pixels) is reset with the
    properties of tiles of 8x16, whose atlas size would be 16x32, and the
    call returns. *)
Lemma reset_accepts_other_geometry :
  exists a backend',
    new 0 geometry_properties [] = Returns (a, backend') /\
    computeAtlasSize fill_properties <> atlasSize a /\
    failed (reset a fill_properties backend') = false /\
    forall a' backend'',
      reset a fill_properties backend' = Returns (a', backend'') ->
      atlasSize a' = {| width := 128; height := 256 |} /\ backend'' = backend'.
Proof.
  eexists. eexists. split; [vm_compute; reflexivity|].
  split; [vm_compute; discriminate|]. split; [reflexivity|].
  intros a' backend'' H. unfold reset in H. apply ret_returns in H.
  destruct H as [-> ->]. split; reflexivity.
Qed.

(** ** Index checks *)

(** The two embeddings of [setDirectMapping] agree: the [Cmd] is what the
    call in place gives, without the state at a fault. *)
Lemma setDirectMapping_in_place {Metadata : Type} (a : TextureAtlas Metadata)
    (index : Z) (data : TileCreateData.t Metadata) (backend : AtlasBackend) :
  setDirectMapping a index data backend
    = in_place.as_Cmd (in_place.setDirectMapping index data (a, backend)).
Proof.
  unfold setDirectMapping, in_place.setDirectMapping, bind, lift, uploadTile, ret.
  cbn [fst snd].
  destruct (Require (index <? Z.of_nat (length (_directMapping a)))) as [[]|f];
    [| reflexivity].
  destruct (subscript (_tileLocations a) index) as [location|f]; reflexivity.
Qed.

(** Claim C9, as the code has it.  At any time in the life of an atlas built
    from properties [p], whatever a [reset] passed since, [directMapped(index)]
    and [setDirectMapping(index, data)] with [index] not below the
    [directMappingCount] of [p] are rejected by their [Require] as
    precondition violations.  [directMapped] stops there and not at a read
    past [_directMapping]; [setDirectMapping] stops with the atlas as it was
    and nothing sent to the backend. *)
Theorem direct_mapping_index_is_checked {Metadata : Type} (Metadata_default : Metadata)
    (p : AtlasProperties) (backend0 backend1 backend2 : AtlasBackend)
    (a0 a : TextureAtlas Metadata) (cs : list (Call Metadata)) :
  AtlasProperties_wf p ->
  new Metadata_default p backend0 = Returns (a0, backend1) ->
  calls a0 cs backend1 = Returns (a, backend2) ->
  forall index, directMappingCount p <= index ->
    directMapped a index = Fails PreconditionViolation /\
    forall data backend,
      in_place.setDirectMapping index data (a, backend)
        = (Fails PreconditionViolation, (a, backend)) /\
      setDirectMapping a index data backend = Fails PreconditionViolation.
Proof.
  intros Hwf Hnew Hcalls.
  assert (Hlen : Z.of_nat (length (_directMapping a)) = directMappingCount p).
  { apply calls_keep_frame in Hcalls. destruct Hcalls as (_ & -> & _).
    apply new_returns in Hnew. destruct Hnew as (_ & _ & _ & _ & _ & _ & -> & _).
    rewrite repeat_length. destruct Hwf as (_ & _ & _ & Hd). unfold is_uint32 in Hd. lia. }
  intros index Hindex.
  assert (Hcheck : (index <? Z.of_nat (length (_directMapping a))) = false)
    by (apply Z.ltb_ge; lia).
  split.
  - unfold directMapped. now rewrite Hcheck.
  - intros data backend.
    assert (Hstops : in_place.setDirectMapping index data (a, backend)
                     = (Fails PreconditionViolation, (a, backend))).
    { unfold in_place.setDirectMapping. cbn [fst snd]. now rewrite Hcheck. }
    split; [exact Hstops |].
    now rewrite setDirectMapping_in_place, Hstops.
Qed.

Lemma direct_mapping_index_is_checked_witness :
  exists a backend',
    new 0 geometry_properties [] = Returns (a, backend') /\
    directMapped a 4 = Fails PreconditionViolation /\
    forall data backend,
      in_place.setDirectMapping 4 data (a, backend)
        = (Fails PreconditionViolation, (a, backend)) /\
      setDirectMapping a 4 data backend = Fails PreconditionViolation.
Proof.
  eexists. eexists. split; [vm_compute; reflexivity|].
  refine (direct_mapping_index_is_checked 0 geometry_properties [] _ _ _ _ [] _ _ _ 4 _).
  - unfold AtlasProperties_wf, is_uint32. cbn. lia.
  - vm_compute. reflexivity.
  - reflexivity.
  - cbn. lia.
Defined.

(** Claim C9 as worded, for [tileLocation]: on the atlas of capacity 144,
    [tileLocation(144)] is not turned down by a [Require]; the call indexes
    [_tileLocations] one past its end. *)
Lemma tileLocation_is_not_checked :
  exists a backend',
    new 0 geometry_properties [] = Returns (a, backend') /\
    capacity a = 144 /\
    tileLocation a 144 = Fails OutOfBounds /\
    tileLocation a 144 <> Fails PreconditionViolation.
Proof.
  eexists. eexists. split; [vm_compute; reflexivity|].
  vm_compute. repeat split. discriminate.
Qed.

(** ** The LRU table behind the atlas *)

Section atlas_cache.
Context {Metadata : Type} (Metadata_default : Metadata).
Implicit Type a : TextureAtlas Metadata.

(** The constructor sizes the LRU table by the full grid. *)
Lemma new_lru_capacity (p : AtlasProperties) backend a backend' :
  new Metadata_default p backend = Returns (a, backend') ->
  StrongLRUHashtable.capacity (_tileCache a) = to_uint32 (tilesInX a * tilesInY a) /\
  StrongLRUHashtable.capacity (_tileCache a) = capacity a.
Proof.
  intros H. rewrite (new_capacity _ _ _ _ _ H).
  apply new_returns in H. destruct H as (_ & _ & HX & HY & -> & _).
  unfold tilesInX, tilesInY. rewrite HX, HY. now split.
Qed.

(** With direct-mapped slots, the table so sized admits an entry index
    whose tile, [entryIndex + directMappingCount], is none of the
    precomputed tile locations. *)
Lemma lru_index_past_tile_locations (p : AtlasProperties) backend a backend' :
  AtlasProperties_wf p ->
  directMappingCount p + tileCount p < 2 ^ 32 ->
  0 < directMappingCount p ->
  new Metadata_default p backend = Returns (a, backend') ->
  exists entryIndex,
    0 <= entryIndex < StrongLRUHashtable.capacity (_tileCache a) /\
    subscript (_tileLocations a)
              (to_uint32 (entryIndex + directMappingCount (_atlasProperties a)))
      = Fails OutOfBounds.
Proof.
  intros (_ & _ & Htc & Hd) Hsum Hpos H. unfold is_uint32 in Htc, Hd.
  destruct (new_lru_capacity _ _ _ _ H) as [Hcap ->].
  pose proof (new_capacity _ _ _ _ _ H) as Hc.
  pose proof (wrap_range 32 (tilesInX a * tilesInY a)) as Hr. fold to_uint32 in Hr.
  apply new_returns in H. destruct H as (-> & _ & HX & HY & _ & _ & _ & Hreq & _).
  rewrite <- HX, <- HY in Hreq. fold (tilesInX a) (tilesInY a) in Hreq.
  unfold to_uint32 at 1 in Hreq. rewrite wrap_small in Hreq by lia.
  exists (capacity a - directMappingCount p). split; [lia|].
  replace (capacity a - directMappingCount p + directMappingCount p) with (capacity a) by ring.
  unfold to_uint32. rewrite wrap_small by (rewrite Hc; lia).
  unfold subscript, capacity.
  destruct (Z.ltb_spec (Z.of_nat (length (_tileLocations a))) 0) as [|_]; [reflexivity|].
  rewrite Nat2Z.id.
  replace (nth_error (_tileLocations a) (length (_tileLocations a)))
    with (@None TileLocation); [reflexivity|].
  symmetry. apply nth_error_None. lia.
Qed.

(** A build function that declines leaves no trace, as long as the entry
    index that the table hands to [constructTile] has a tile location. *)
Lemma get_or_try_emplace_declined a (key : StrongHash)
    (createTileData : TileLocation -> Z -> option (TileCreateData.t Metadata))
    (backend : AtlasBackend) (location : TileLocation) :
  contains a key = false ->
  (forall l entryIndex, createTileData l entryIndex = None) ->
  subscript (_tileLocations a)
    (to_uint32 (fst (StrongLRUHashtable.allocate (_tileCache a))
                + directMappingCount (_atlasProperties a)))
    = Returns location ->
  get_or_try_emplace a key createTileData backend = Returns ((None, a), backend).
Proof.
  intros Habsent Hdecline Hlocation.
  unfold get_or_try_emplace, StrongLRUHashtable.get_or_try_emplace.
  rewrite (lookup_absent _ _ Habsent).
  destruct (StrongLRUHashtable.allocate (_tileCache a)) as [index kept].
  cbn [fst] in Hlocation.
  cbv [bind constructTile lift]. rewrite Hlocation. cbv [bind].
  rewrite Hdecline. cbn. now rewrite with_own_tileCache.
Qed.
End atlas_cache.

(** Claim C1, on the atlas of 2 tiles and 2 direct-mapped slots (tiles of
    8x16).  The grid is 2x2, so [tilesInX * tilesInY - directMappingCount]
    is 2, but the LRU table is created with capacity 4.  With the tiles of
    two hashes in the LRU zone the table is not full; the tile for a third
    hash gets entry index 2, and [constructTile] indexes [_tileLocations],
    of size 4, at [2 + 2]. *)
Theorem lru_capacity_ignores_direct_mapping :
  (exists a backend,
     new 0 direct_mapping_properties [] = Returns (a, backend) /\
     tilesInX a = 2 /\ tilesInY a = 2 /\ capacity a = 4 /\
     tilesInX a * tilesInY a - directMappingCount direct_mapping_properties = 2 /\
     StrongLRUHashtable.capacity (_tileCache a) = 4) /\
  (exists a backend,
     two_tiles = Returns (a, backend) /\
     StrongLRUHashtable.size (_tileCache a) = 2 /\
     contains a 101 = true /\ contains a 102 = true /\
     fst (StrongLRUHashtable.allocate (_tileCache a)) = 2 /\
     get_or_emplace a 103 (build 3) backend = Fails OutOfBounds).
Proof.
  split; eexists; eexists; (split; [vm_compute; reflexivity|]); vm_compute; repeat split.
Qed.

(** Claim C2, on the same atlas with two tiles in its LRU zone.  The hash
    103 is absent and the build function declines for every argument, yet
    [get_or_try_emplace] does not return null: [constructTile] reads
    [_tileLocations[2 + 2]], past the 4 tile locations, before it asks the
    build function. *)
Theorem declined_build_reads_past_tile_locations :
  exists a backend,
    two_tiles = Returns (a, backend) /\
    capacity a = 4 /\
    contains a 103 = false /\
    (forall location entryIndex, decline location entryIndex = None) /\
    get_or_try_emplace a 103 decline backend = Fails OutOfBounds.
Proof.
  eexists. eexists. split; [vm_compute; reflexivity|].
  vm_compute. repeat split.
Qed.

(** On the fresh atlas of the same properties the first entry index is 0,
    its tile location exists, and a declined build leaves the atlas and the
    backend as they were. *)
Lemma get_or_try_emplace_declined_witness :
  exists a backend,
    new 0 direct_mapping_properties [] = Returns (a, backend) /\
    get_or_try_emplace a 103 decline backend = Returns ((None, a), backend).
Proof.
  eexists. eexists. split; [vm_compute; reflexivity|].
  eapply get_or_try_emplace_declined; [reflexivity | reflexivity | vm_compute; reflexivity].
Defined.

(** The spec's scenario "fill and evict", on the table modelled after the
    spec: four tiles fill the atlas of 2x2 tiles, the fifth evicts the least
    recently used one, and each of the five was uploaded once. *)
Example fill_and_evict_scenario :
  (exists a backend,
     four_tiles = Returns (a, backend) /\
     map (contains a) [1; 2; 3; 4] = [true; true; true; true] /\
     uploads backend = 4%nat) /\
  (exists a backend,
     five_tiles = Returns (a, backend) /\
     map (contains a) [1; 2; 3; 4; 5] = [false; true; true; true; true] /\
     uploads backend = 5%nat).
Proof.
  split; eexists; eexists; (split; [vm_compute; reflexivity|]); vm_compute; split; reflexivity.
Qed.

(** * Further properties *)

(** ** Indexing, rotating and rezeroing the ring *)

Lemma list_as_lookups {A : Type} (l : list A) :
  map Some l = map (nth_error l) (seq 0 (length l)).
Proof.
  induction l as [|a l IH]; [reflexivity|].
  cbn [map length seq nth_error]. f_equal.
  rewrite <- seq_shift, map_map. exact IH.
Qed.

Lemma rev_map_seq {A : Type} (f : nat -> A) (n : nat) :
  rev (map f (seq 0 n)) = map (fun c => f (n - 1 - c)%nat) (seq 0 n).
Proof.
  induction n as [|n IH]; [reflexivity|].
  rewrite seq_S at 1. rewrite map_app. cbn [map]. rewrite rev_unit.
  cbn [map Nat.add seq].
  replace (S n - 1 - 0)%nat with n by lia. f_equal.
  rewrite IH, <- seq_shift, map_map. apply map_ext_in.
  intros c Hc. apply in_seq in Hc. f_equal. lia.
Qed.

Section ring_views.
Context {T : Type}.
Implicit Type r : ring.basic_ring T.

Lemma physical_inside r (i : Z) :
  0 < ring.size r -> 0 <= ring.physical r i < ring.size r.
Proof. intros H. unfold ring.physical. now apply Z.mod_pos_bound. Qed.

Lemma physical_exact r (i : Z) :
  0 < ring.size r -> 0 <= ring._zero r ->
  ring._zero r + ring.size r < 2 ^ 63 ->
  - (ring._zero r + ring.size r) <= i < 2 ^ 63 ->
  ring.physical r i = (ring._zero r + i) mod ring.size r.
Proof.
  intros HN Hz Hfit Hi. unfold ring.physical.
  rewrite to_long_small by lia.
  unfold to_size_t. rewrite wrap_small by lia.
  replace (ring._zero r + ring.size r + i)
    with (ring._zero r + i + 1 * ring.size r) by ring.
  now rewrite Z.mod_add by lia.
Qed.

Lemma elements_lookup r (i : nat) :
  (i < length (ring._storage r))%nat ->
  nth_error (ring.elements r) i = Some (ring.at_ r (Z.of_nat i)).
Proof.
  intros Hi. unfold ring.elements.
  rewrite nth_error_map, nth_error_seq.
  destruct (Nat.ltb_spec i (length (ring._storage r))); [reflexivity | lia].
Qed.

Lemma elements_length r : length (ring.elements r) = length (ring._storage r).
Proof. unfold ring.elements. now rewrite length_map, length_seq. Qed.

(** The elements of a ring whose origin is 0 are its storage. *)
Lemma elements_unrotated (s : list T) :
  Z.of_nat (length s) < 2 ^ 62 ->
  ring.elements (ring.Ring s 0) = map Some s.
Proof.
  intros Hfit. rewrite list_as_lookups. unfold ring.elements. cbn [ring._storage].
  apply map_ext_in. intros c Hc. apply in_seq in Hc.
  unfold ring.at_. f_equal.
  rewrite physical_exact; unfold ring.size; cbn [ring._storage ring._zero]; try lia.
  rewrite Z.add_0_l, Z.mod_small by lia. apply Nat2Z.id.
Qed.
End ring_views.

Section ring_laws.
Context {T : Type}.
Implicit Type r : ring.basic_ring T.

(** Property X1.
    Reading through [operator[]] or [at] never leaves the storage of a
    non-empty ring, whatever the offset and the origin are; for an offset
    that is not below [-(_zero + size())] the element read is the one at the
    physical index [(_zero + i) mod size()], so that offsets from [-size()]
    on count from the back. *)
Theorem ring_index_inside_storage r (i : Z) :
  0 < ring.size r ->
  (exists v, ring.at_ r i = Some v) /\
  (0 <= ring._zero r -> ring._zero r + ring.size r < 2 ^ 63 ->
   - (ring._zero r + ring.size r) <= i < 2 ^ 63 ->
   ring.at_ r i
     = nth_error (ring.storage r) (Z.to_nat ((ring._zero r + i) mod ring.size r))).
Proof.
  intros HN. split.
  - pose proof (physical_inside r i HN) as Hp. unfold ring.at_.
    destruct (nth_error (ring._storage r) (Z.to_nat (ring.physical r i))) as [v|] eqn:E.
    + now exists v.
    + apply nth_error_None in E. unfold ring.size in Hp. lia.
  - intros Hz Hfit Hi. unfold ring.at_, ring.storage.
    now rewrite physical_exact.
Qed.

(** Property X2.
    [rotate(count)] with a count of magnitude at most the size shifts the
    logical view: element [i] of the rotated ring is element [i - count] of
    the ring before. *)
Theorem rotate_shifts_view r (count i : Z) :
  0 <= ring._zero r < ring.size r -> ring.size r < 2 ^ 31 ->
  Z.abs count <= ring.size r ->
  0 <= i < ring.size r ->
  ring.at_ (ring.rotate r count) i = ring.at_ r (i - count).
Proof.
  intros Hz HN Hc Hi.
  assert (Hz' : ring._zero (ring.rotate r count) = (ring._zero r - count) mod ring.size r)
    by (apply rotate_zero_in_reach; lia).
  pose proof (Z.mod_pos_bound (ring._zero r - count) (ring.size r) ltac:(lia)) as Hb.
  unfold ring.at_. cbn [ring.rotate ring._storage]. f_equal. f_equal.
  rewrite (physical_exact r) by lia.
  rewrite physical_exact; rewrite ?rotate_size; try lia.
  rewrite Hz', Zplus_mod_idemp_l. f_equal. ring.
Qed.

(** Property X3.
    [rotate_left] moves the origin forward modulo the size for every count;
    [rotate_right] moves it back for a count up to [_zero + size()];
    [rotate_left(n)] followed by [rotate_right(n)] restores the ring for
    [n] up to the size, and [rotate] with a negative or positive count is
    [rotate_left] or [rotate_right] with its magnitude. *)
Theorem rotate_left_and_right r (n : Z) :
  0 <= ring._zero r < ring.size r -> ring.size r < 2 ^ 31 ->
  0 <= n < 2 ^ 31 ->
  ring.zero_index (ring.rotate_left r n) = (ring._zero r + n) mod ring.size r /\
  ring.rotate r (- n) = ring.rotate_left r n /\
  (n <= ring._zero r + ring.size r ->
     ring.zero_index (ring.rotate_right r n) = (ring._zero r - n) mod ring.size r /\
     ring.rotate r n = ring.rotate_right r n) /\
  (n <= ring.size r -> ring.rotate_right (ring.rotate_left r n) n = r).
Proof.
  intros Hz HN Hn.
  assert (Hleft : ring._zero (ring.rotate_left r n) = (ring._zero r + n) mod ring.size r).
  { unfold ring.rotate_left. cbn [ring._zero]. unfold to_size_t.
    rewrite wrap_small by lia.
    replace (ring._zero r + ring.size r + n) with (ring._zero r + n + 1 * ring.size r) by ring.
    now rewrite Z.mod_add by lia. }
  assert (Hright : forall r', ring.size r' = ring.size r ->
            0 <= ring._zero r' < ring.size r -> n <= ring._zero r' + ring.size r ->
            ring._zero (ring.rotate_right r' n) = (ring._zero r' - n) mod ring.size r).
  { intros r' Hs Hz' Hreach. unfold ring.rotate_right. cbn [ring._zero]. rewrite Hs.
    unfold to_size_t. rewrite wrap_small by lia.
    replace (ring._zero r' + ring.size r - n) with (ring._zero r' - n + 1 * ring.size r) by ring.
    now rewrite Z.mod_add by lia. }
  split; [exact Hleft|]. split; [| split].
  - unfold ring.rotate, ring.rotate_left. f_equal.
    rewrite to_long_small by lia. f_equal. f_equal. ring.
  - intros Hreach. split; [now apply Hright|].
    unfold ring.rotate, ring.rotate_right. f_equal.
    now rewrite to_long_small by lia.
  - intros Hle.
    pose proof (Z.mod_pos_bound (ring._zero r + n) (ring.size r) ltac:(lia)) as Hb.
    assert (H2 : ring._zero (ring.rotate_right (ring.rotate_left r n) n) = ring._zero r).
    { rewrite Hright; [| reflexivity | rewrite Hleft; lia | rewrite Hleft; lia].
      rewrite Hleft, Zminus_mod_idemp_l.
      replace (ring._zero r + n - n) with (ring._zero r) by ring.
      apply Z.mod_small. lia. }
    destruct r as [s z]. unfold ring.rotate_right, ring.rotate_left in *.
    cbn [ring._storage ring._zero] in *. now rewrite H2.
Qed.
End ring_laws.

Section ring_order.
Context {T : Type}.
Implicit Type r : ring.basic_ring T.

Lemma rezero_lookup r (i : nat) :
  0 <= ring._zero r < ring.size r ->
  (i < length (ring._storage r))%nat ->
  nth_error (ring._storage (ring.rezero r)) i
    = nth_error (ring._storage r)
        (Z.to_nat ((ring._zero r + Z.of_nat i) mod ring.size r)).
Proof.
  intros Hz Hi. unfold ring.rezero, ring.size in *. cbn [ring._storage].
  set (s := ring._storage r) in *. set (z := ring._zero r) in *.
  rewrite nth_error_app, length_skipn.
  destruct (Nat.ltb_spec i (length s - Z.to_nat z)) as [Hlt|Hge].
  - rewrite nth_error_skipn. f_equal.
    rewrite Z.mod_small by lia. lia.
  - rewrite nth_error_firstn.
    destruct (Nat.ltb_spec (i - (length s - Z.to_nat z)) (Z.to_nat z)) as [_|Hbad]; [|lia].
    f_equal.
    replace (z + Z.of_nat i) with (z + Z.of_nat i - Z.of_nat (length s) + 1 * Z.of_nat (length s))
      by ring.
    rewrite Z.mod_add, Z.mod_small by lia. lia.
Qed.

Lemma rezero_length r :
  0 <= ring._zero r <= ring.size r ->
  length (ring._storage (ring.rezero r)) = length (ring._storage r).
Proof.
  intros Hz. unfold ring.rezero, ring.size in *. cbn [ring._storage].
  rewrite length_app, length_skipn, length_firstn. lia.
Qed.

Lemma rezero_in_logical_order r :
  0 <= ring._zero r < ring.size r -> ring.size r < 2 ^ 62 ->
  map Some (ring._storage (ring.rezero r)) = ring.elements r.
Proof.
  intros Hz HN.
  rewrite list_as_lookups, rezero_length by lia. unfold ring.elements.
  apply map_ext_in. intros c Hc. apply in_seq in Hc.
  rewrite rezero_lookup by lia. unfold ring.at_. f_equal. f_equal.
  symmetry. apply physical_exact; unfold ring.size in *; lia.
Qed.

(** Property X4.
    [rezero()] puts the origin at 0 and the elements into the storage in
    their logical order: the logical order of the ring stays as it was. *)
Theorem rezero_keeps_logical_order r :
  0 <= ring._zero r < ring.size r -> ring.size r < 2 ^ 62 ->
  ring.zero_index (ring.rezero r) = 0 /\
  map Some (ring.storage (ring.rezero r)) = ring.elements r /\
  ring.elements (ring.rezero r) = ring.elements r.
Proof.
  intros Hz HN.
  pose proof (rezero_in_logical_order r Hz HN) as Hs.
  split; [reflexivity|]. split; [exact Hs|].
  rewrite <- Hs. unfold ring.rezero at 1.
  apply elements_unrotated.
  fold (ring._storage (ring.rezero r)). rewrite rezero_length by lia.
  unfold ring.size in HN. lia.
Qed.

(** Property X5.
    Iterating from [rbegin()] to [rend()] visits the elements in the
    reverse of their logical order. *)
Theorem reverse_iteration_reverses r :
  0 <= ring._zero r -> ring._zero r + ring.size r < 2 ^ 62 ->
  RingReverseIterator.elements r = rev (ring.elements r).
Proof.
  intros Hz HN. unfold ring.elements. rewrite rev_map_seq.
  unfold RingReverseIterator.elements, ring.storage.
  apply map_ext_in. intros c Hc. apply in_seq in Hc.
  unfold RingReverseIterator.deref. cbn [RingReverseIterator.current].
  f_equal. unfold ring.size in *.
  unfold to_size_t. rewrite wrap_small by lia.
  rewrite to_long_small by lia. lia.
Qed.
End ring_order.

Section dynamic_ring_laws.
Context {T : Type}.
Implicit Type r : ring.basic_ring T.

Lemma rezero_storage r :
  0 <= ring._zero r <= Z.max 0 (ring.size r - 1) -> ring.size r < 2 ^ 62 ->
  map Some (ring._storage (ring.rezero r)) = ring.elements r.
Proof.
  intros Hz HN. destruct (ring._storage r) as [|a s] eqn:Hs.
  - unfold ring.rezero, ring.elements. rewrite Hs.
    now rewrite skipn_nil, firstn_nil.
  - apply rezero_in_logical_order; [|assumption].
    unfold ring.size in *. rewrite Hs in *. cbn [length] in *. lia.
Qed.

(** Property X6.
    [resize(newSize)] keeps the first [newSize] elements in their logical
    order, adds value-initialised elements behind them when the ring grows,
    and leaves the origin at 0. *)
Theorem resize_keeps_logical_prefix (T_default : T) r (newSize : nat) :
  0 <= ring._zero r <= Z.max 0 (ring.size r - 1) -> ring.size r < 2 ^ 62 ->
  Z.of_nat newSize < 2 ^ 62 ->
  let r' := dynamic_ring.resize T_default r newSize in
  ring.zero_index r' = 0 /\
  ring.size r' = Z.of_nat newSize /\
  ring.elements r'
    = firstn newSize (ring.elements r)
      ++ repeat (Some T_default) (newSize - length (ring.storage r)).
Proof.
  intros Hz HN Hnew r'.
  assert (Hlen : length (ring._storage (ring.rezero r)) = length (ring._storage r)).
  { apply rezero_length. unfold ring.size in *. lia. }
  assert (Hsize : length (ring._storage r') = newSize).
  { subst r'. unfold dynamic_ring.resize, dynamic_ring.vector_resize.
    cbn [ring._storage]. rewrite length_app, length_firstn, repeat_length. lia. }
  split; [reflexivity|]. split; [unfold ring.size; now rewrite Hsize|].
  subst r'. unfold dynamic_ring.resize.
  change (ring._zero (ring.rezero r)) with 0.
  rewrite elements_unrotated.
  - unfold dynamic_ring.vector_resize.
    rewrite map_app, <- firstn_map, rezero_storage by assumption.
    rewrite map_repeat, Hlen. reflexivity.
  - unfold dynamic_ring.resize in Hsize. cbn [ring._storage] in Hsize.
    rewrite Hsize. exact Hnew.
Qed.

(** Property X7.
    [push_back(value)] stores the value behind the physical end and leaves
    the origin alone.  On a ring whose origin is [_zero] the value therefore
    becomes the logical element [size() - _zero]: the elements before it
    stay and the ones from there on move up by one.  Only with the origin
    at 0 is it the new back. *)
Theorem push_back_position r (value : T) :
  0 <= ring._zero r <= Z.max 0 (ring.size r - 1) -> ring.size r < 2 ^ 61 ->
  let r' := dynamic_ring.push_back r value in
  let position := ring.size r - ring._zero r in
  ring.size r' = ring.size r + 1 /\
  ring.at_ r' position = Some value /\
  (forall i, 0 <= i < position -> ring.at_ r' i = ring.at_ r i) /\
  (forall i, position < i <= ring.size r -> ring.at_ r' i = ring.at_ r (i - 1)) /\
  (ring._zero r = 0 -> ring.back r' = Some value).
Proof.
  intros Hz HN r' position.
  assert (HN0 : 0 <= ring.size r) by (unfold ring.size; lia).
  assert (Hsize : ring.size r' = ring.size r + 1).
  { subst r'. unfold ring.size, dynamic_ring.push_back. cbn [ring._storage].
    rewrite length_app. cbn [length]. lia. }
  assert (Hzero : ring._zero r' = ring._zero r) by reflexivity.
  assert (Hat : forall i, 0 <= i <= ring.size r ->
            ring.at_ r' i
              = nth_error (ring._storage r ++ [value])
                          (Z.to_nat ((ring._zero r + i) mod (ring.size r + 1)))).
  { intros i Hi. unfold ring.at_. rewrite physical_exact; rewrite ?Hsize, ?Hzero; try lia.
    reflexivity. }
  assert (Hvalue : ring.at_ r' position = Some value).
  { subst position. rewrite Hat by lia.
    replace (ring._zero r + (ring.size r - ring._zero r)) with (ring.size r) by ring.
    rewrite Z.mod_small by lia. unfold ring.size. rewrite Nat2Z.id.
    rewrite nth_error_app2 by lia. now rewrite Nat.sub_diag. }
  split; [exact Hsize|]. split; [exact Hvalue|]. split; [| split].
  - intros i Hi. subst position. rewrite Hat by lia.
    rewrite Z.mod_small by lia.
    unfold ring.at_. rewrite physical_exact by lia. rewrite Z.mod_small by lia.
    apply nth_error_app1. unfold ring.size in *. lia.
  - intros i Hi. subst position. rewrite Hat by lia.
    replace (ring._zero r + i)
      with (ring._zero r + i - (ring.size r + 1) + 1 * (ring.size r + 1)) by ring.
    rewrite Z.mod_add, Z.mod_small by lia.
    unfold ring.at_. rewrite physical_exact by lia.
    replace (ring._zero r + (i - 1))
      with (ring._zero r + i - 1 - ring.size r + 1 * ring.size r) by ring.
    rewrite Z.mod_add, Z.mod_small by lia.
    replace (ring._zero r + i - 1 - ring.size r) with (ring._zero r + i - (ring.size r + 1)) by ring.
    apply nth_error_app1. unfold ring.size in *. lia.
  - intros Hunrotated. unfold ring.back. rewrite Hsize.
    replace (ring.size r + 1 - 1) with position by (subst position; lia).
    exact Hvalue.
Qed.

(** Property X8.
    [pop_front()] on a ring whose origin is 0 removes the front element and
    keeps the others in order; on a ring without elements it erases at the
    end iterator of an empty vector. *)
Theorem pop_front_unrotated r :
  ring._zero r = 0 -> ring.size r < 2 ^ 62 ->
  match ring.storage r with
  | [] => dynamic_ring.pop_front r = Fails OutOfBounds
  | _ :: _ =>
      exists r',
        dynamic_ring.pop_front r = Returns r' /\
        ring.zero_index r' = 0 /\
        ring.size r' = ring.size r - 1 /\
        ring.elements r' = tl (ring.elements r)
  end.
Proof.
  intros Hz HN. destruct r as [s z]. cbn [ring._zero] in Hz. subst z.
  unfold ring.storage, dynamic_ring.pop_front. cbn [ring._storage ring._zero].
  destruct s as [|a s]; [reflexivity|].
  eexists. split; [reflexivity|]. split; [reflexivity|].
  unfold ring.size in *. cbn [ring._storage length] in *.
  split; [lia|].
  rewrite (elements_unrotated s), (elements_unrotated (a :: s)) by (cbn [length]; lia).
  reflexivity.
Qed.
End dynamic_ring_laws.

Lemma resize_keeps_logical_prefix_witness :
  ring.elements (dynamic_ring.resize "-" (ring.rotate ring_ABCDE 2) 7)
    = [Some "D"; Some "E"; Some "A"; Some "B"; Some "C"; Some "-"; Some "-"].
Proof.
  refine (proj2 (proj2 (resize_keeps_logical_prefix "-" (ring.rotate ring_ABCDE 2) 7 _ _ _))).
  - vm_compute. split; discriminate.
  - vm_compute. reflexivity.
  - vm_compute. reflexivity.
Defined.

(** ** An atlas without direct mapping *)

Lemma first_unused_bounds (used : list Z) (fuel : nat) :
  forall i, i <= StrongLRUHashtable.first_unused used fuel i <= i + Z.of_nat fuel.
Proof.
  induction fuel as [|fuel IH]; intros i; cbn [StrongLRUHashtable.first_unused].
  - lia.
  - destruct (existsb (Z.eqb i) used); [| lia].
    specialize (IH (i + 1)). lia.
Qed.

Lemma others_below {Value : Type} (table : StrongLRUHashtable.t Value) (h : StrongHash)
    (P : StrongLRUHashtable.Entry Value -> Prop) :
  Forall P (StrongLRUHashtable.entries table) ->
  Forall P (StrongLRUHashtable.others table h).
Proof.
  intros H. unfold StrongLRUHashtable.others. apply Forall_forall. intros e He.
  apply filter_In in He. destruct He as [He _].
  now apply (proj1 (Forall_forall _ _) H).
Qed.

Lemma lookup_below {Value : Type} (table : StrongLRUHashtable.t Value) (h : StrongHash)
    (P : StrongLRUHashtable.Entry Value -> Prop) e :
  Forall P (StrongLRUHashtable.entries table) ->
  StrongLRUHashtable.lookup table h = Some e -> P e.
Proof.
  intros H He. unfold StrongLRUHashtable.lookup in He. apply find_some in He.
  destruct He as [He _]. now apply (proj1 (Forall_forall _ _) H).
Qed.

Lemma allocate_below {Value : Type} (table : StrongLRUHashtable.t Value) :
  indices_below table -> 1 <= StrongLRUHashtable.capacity table ->
  0 <= fst (StrongLRUHashtable.allocate table) < StrongLRUHashtable.capacity table /\
  Forall (fun e => 0 <= StrongLRUHashtable.entryIndex e < StrongLRUHashtable.capacity table)
         (snd (StrongLRUHashtable.allocate table)).
Proof.
  intros Hbelow Hcap. unfold StrongLRUHashtable.allocate.
  destruct (Z.leb_spec (StrongLRUHashtable.capacity table) (StrongLRUHashtable.size table))
    as [Hfull|Hroom].
  - unfold indices_below in Hbelow.
    assert (Hrev : Forall (fun e => 0 <= StrongLRUHashtable.entryIndex e
                                    < StrongLRUHashtable.capacity table)
                          (rev (StrongLRUHashtable.entries table))).
    { apply Forall_forall. intros e He. apply in_rev in He.
      now apply (proj1 (Forall_forall _ _) Hbelow). }
    destruct (rev (StrongLRUHashtable.entries table)) as [|tail kept] eqn:E.
    + unfold StrongLRUHashtable.size in Hfull.
      apply (f_equal (@length _)) in E. rewrite length_rev in E. cbn in E. lia.
    + cbn [fst snd]. inversion Hrev as [|? ? Htail Hkept]; subst. split; [exact Htail |].
      apply Forall_forall. intros e He. apply in_rev in He.
      now apply (proj1 (Forall_forall _ _) Hkept).
  - cbn [fst snd]. split; [| exact Hbelow].
    unfold StrongLRUHashtable.unused_index, StrongLRUHashtable.size in *.
    pose proof (first_unused_bounds
                  (map StrongLRUHashtable.entryIndex (StrongLRUHashtable.entries table))
                  (length (StrongLRUHashtable.entries table)) 0).
    lia.
Qed.

Section atlas_without_direct_mapping.
Context {Metadata : Type}.
Implicit Type a : TextureAtlas Metadata.

Lemma constructTile_inside a createTileData (entryIndex : Z) backend :
  directMappingCount (_atlasProperties a) = 0 ->
  0 <= entryIndex < Z.of_nat (length (_tileLocations a)) ->
  Z.of_nat (length (_tileLocations a)) < 2 ^ 32 ->
  exists location,
    In location (_tileLocations a) /\
    constructTile a createTileData entryIndex backend =
      match createTileData location entryIndex with
      | None => Returns (None, backend)
      | Some tileCreateData =>
          Returns
            (Some {| TileAttributes.location := location;
                     TileAttributes.bitmapSize := TileCreateData.bitmapSize tileCreateData;
                     TileAttributes.metadata := TileCreateData.metadata tileCreateData |},
             backend ++ [uploadTile_
               {| UploadTile.location := location;
                  UploadTile.bitmap := TileCreateData.bitmap tileCreateData;
                  UploadTile.bitmapSize := TileCreateData.bitmapSize tileCreateData;
                  UploadTile.bitmapFormat := TileCreateData.bitmapFormat tileCreateData |}])
      end.
Proof.
  intros Hd Hindex Hlen. unfold constructTile. rewrite Hd, Z.add_0_r.
  unfold to_uint32. rewrite wrap_small by lia.
  destruct (nth_error (_tileLocations a) (Z.to_nat entryIndex)) as [location|] eqn:Hnth.
  - exists location. split; [now apply nth_error_In in Hnth |].
    unfold bind, lift, subscript.
    destruct (Z.ltb_spec entryIndex 0) as [|_]; [lia |]. rewrite Hnth.
    destruct (createTileData location entryIndex); reflexivity.
  - apply nth_error_None in Hnth. lia.
Qed.

Lemma unmapped_with_entries a0 a (es : list (StrongLRUHashtable.Entry (TileAttributes.t Metadata))) :
  unmapped a0 a ->
  Forall (fun e => 0 <= StrongLRUHashtable.entryIndex e
                   < StrongLRUHashtable.capacity (_tileCache a)) es ->
  unmapped a0 (with_tileCache a (StrongLRUHashtable.with_entries (_tileCache a) es)).
Proof.
  intros (Hloc & Hslots & Hd & Hcap & Hrange & _) Hes.
  unfold unmapped, indices_below. cbn. repeat split; try assumption; lia.
Qed.

Lemma call_without_direct_mapping a0 a (c : Call Metadata) backend :
  unmapped a0 a -> without_direct_mapping c ->
  (exists a' sent,
     call a c backend = Returns (a', backend ++ sent) /\
     Forall (upload_into (_tileLocations a0)) sent /\
     unmapped a0 a') \/
  (call a c backend = Fails PreconditionViolation /\ is_setDirectMapping c).
Proof.
  intros Ha Hc.
  pose proof Ha as (Hloc & Hslots & Hd & Hcap & Hrange & Hbelow).
  assert (Hlen : Z.of_nat (length (_tileLocations a)) < 2 ^ 32) by lia.
  pose proof (allocate_below (_tileCache a) Hbelow ltac:(lia)) as [Hindex Hkept].
  destruct c as [key f | key | key f | key f | key | p' | index data]; cbn [call].
  - (* get_or_emplace *)
    left. unfold get_or_emplace, StrongLRUHashtable.get_or_emplace.
    destruct (StrongLRUHashtable.lookup (_tileCache a) key) as [e|] eqn:He.
    + eexists. exists []. cbv [bind ret]. cbn [fst snd]. rewrite app_nil_r.
      split; [reflexivity |]. split; [constructor |].
      apply unmapped_with_entries; [exact Ha |]. constructor.
      * exact (lookup_below _ _ _ _ Hbelow He).
      * now apply others_below.
    + destruct (StrongLRUHashtable.allocate (_tileCache a)) as [index kept].
      cbn [fst snd] in Hindex, Hkept.
      destruct (constructTile_inside a (fun l i => Some (f l i)) index backend Hd
                  ltac:(lia) Hlen) as (location & Hin & Hct).
      cbv beta iota in Hct.
      eexists. eexists. cbv [bind ret]. rewrite Hct. cbn [value_ ret fst snd].
      split; [reflexivity |]. split.
      * constructor; [| constructor]. cbn. now rewrite <- Hloc.
      * apply unmapped_with_entries; [exact Ha |]. constructor; [| exact Hkept].
        cbn. lia.
  - (* try_get *)
    left. unfold try_get, StrongLRUHashtable.try_get.
    destruct (StrongLRUHashtable.lookup (_tileCache a) key) as [e|] eqn:He.
    + eexists. exists []. cbv [ret]. cbn [fst snd]. rewrite app_nil_r.
      split; [reflexivity |]. split; [constructor |].
      apply unmapped_with_entries; [exact Ha |]. constructor.
      * exact (lookup_below _ _ _ _ Hbelow He).
      * now apply others_below.
    + exists a, []. cbv [ret]. cbn [fst snd]. rewrite app_nil_r.
      split; [now destruct a |]. split; [constructor | exact Ha].
  - (* get_or_try_emplace *)
    left. unfold get_or_try_emplace, StrongLRUHashtable.get_or_try_emplace.
    destruct (StrongLRUHashtable.lookup (_tileCache a) key) as [e|] eqn:He.
    + eexists. exists []. cbv [bind ret]. cbn [fst snd]. rewrite app_nil_r.
      split; [reflexivity |]. split; [constructor |].
      apply unmapped_with_entries; [exact Ha |]. constructor.
      * exact (lookup_below _ _ _ _ Hbelow He).
      * now apply others_below.
    + destruct (StrongLRUHashtable.allocate (_tileCache a)) as [index kept].
      cbn [fst snd] in Hindex, Hkept.
      destruct (constructTile_inside a f index backend Hd ltac:(lia) Hlen)
        as (location & Hin & Hct).
      cbv [bind ret]. rewrite Hct.
      destruct (f location index) as [tileCreateData|].
      * eexists. eexists. cbn [fst snd].
        split; [reflexivity |]. split.
        -- constructor; [| constructor]. cbn. now rewrite <- Hloc.
        -- apply unmapped_with_entries; [exact Ha |]. constructor; [| exact Hkept].
           cbn. lia.
      * exists a, []. cbn [fst snd]. rewrite app_nil_r.
        split; [now destruct a |]. split; [constructor | exact Ha].
  - (* emplace *)
    left. unfold emplace, StrongLRUHashtable.emplace.
    assert (Hplace :
      0 <= fst (match StrongLRUHashtable.lookup (_tileCache a) key with
                | Some e => (StrongLRUHashtable.entryIndex e,
                             StrongLRUHashtable.others (_tileCache a) key)
                | None => StrongLRUHashtable.allocate (_tileCache a)
                end) < StrongLRUHashtable.capacity (_tileCache a) /\
      Forall (fun e => 0 <= StrongLRUHashtable.entryIndex e
                       < StrongLRUHashtable.capacity (_tileCache a))
             (snd (match StrongLRUHashtable.lookup (_tileCache a) key with
                   | Some e => (StrongLRUHashtable.entryIndex e,
                                StrongLRUHashtable.others (_tileCache a) key)
                   | None => StrongLRUHashtable.allocate (_tileCache a)
                   end))).
    { destruct (StrongLRUHashtable.lookup (_tileCache a) key) as [e|] eqn:He.
      - cbn [fst snd]. split; [exact (lookup_below _ _ _ _ Hbelow He) |].
        now apply others_below.
      - now split. }
    destruct (match StrongLRUHashtable.lookup (_tileCache a) key with
              | Some e => _
              | None => _
              end) as [index kept].
    cbn [fst snd] in Hplace. destruct Hplace as [Hplace Hrest].
    destruct (constructTile_inside a (fun location _ => Some (f location)) index backend Hd
                ltac:(lia) Hlen) as (location & Hin & Hct).
    cbv beta iota in Hct.
    eexists. eexists. cbv [bind ret]. rewrite Hct. cbn [value_ ret].
    split; [reflexivity |]. split.
    + constructor; [| constructor]. cbn. now rewrite <- Hloc.
    + apply unmapped_with_entries; [exact Ha |]. constructor; [| exact Hrest].
      cbn. lia.
  - (* remove *)
    left. eexists. exists []. cbv [ret]. rewrite app_nil_r.
    split; [reflexivity |]. split; [constructor |].
    unfold remove, StrongLRUHashtable.remove.
    apply unmapped_with_entries; [exact Ha |]. now apply others_below.
  - (* reset *)
    left. eexists. exists []. unfold reset. cbv [ret]. rewrite app_nil_r.
    split; [reflexivity |]. split; [constructor |].
    unfold unmapped, indices_below. cbn in *. repeat split; try assumption; try lia.
    constructor.
  - (* setDirectMapping *)
    right. split; [| exact I]. cbn in Hc.
    unfold setDirectMapping. rewrite Hslots. cbn [length].
    destruct (Z.ltb_spec index (Z.of_nat 0)) as [Hneg|_]; [cbn in Hneg; lia |].
    reflexivity.
Qed.

Lemma calls_without_direct_mapping a0 (cs : list (Call Metadata)) :
  forall a backend,
    unmapped a0 a -> Forall without_direct_mapping cs ->
    match calls a cs backend with
    | Returns (a', backend') =>
        exists sent,
          backend' = backend ++ sent /\ Forall (upload_into (_tileLocations a0)) sent
    | Fails f => f = PreconditionViolation /\ Exists is_setDirectMapping cs
    end.
Proof.
  induction cs as [|c cs IH]; intros a backend Ha Hcs; cbn [calls].
  - cbv [ret]. exists []. rewrite app_nil_r. split; [reflexivity | constructor].
  - inversion Hcs as [|? ? Hc Hrest]; subst.
    destruct (call_without_direct_mapping a0 a c backend Ha Hc)
      as [(a1 & sent1 & Hcall & Hsent1 & Ha1) | (Hcall & Hset)].
    + unfold bind. rewrite Hcall.
      specialize (IH a1 (backend ++ sent1) Ha1 Hrest).
      destruct (calls a1 cs (backend ++ sent1)) as [[a' backend']|f].
      * destruct IH as (sent2 & -> & Hsent2).
        exists (sent1 ++ sent2). rewrite app_assoc. split; [reflexivity |].
        apply Forall_app. now split.
      * destruct IH as [-> Hexists]. split; [reflexivity |]. now apply Exists_cons_tl.
    + unfold bind. rewrite Hcall. split; [reflexivity |]. now apply Exists_cons_hd.
Qed.

End atlas_without_direct_mapping.

(** Property X9.
    An atlas built without direct mapping, for at least one tile, never
    reads outside its tile locations.  Over every sequence of calls, with
    every [reset] passing properties without direct mapping, the calls run
    to the end unless one of them is a [setDirectMapping], which its
    [Require] turns down for want of a slot; and all the atlas has sent to
    its backend since its construction is then an [uploadTile] onto one of
    its tile locations. *)
Theorem calls_without_direct_mapping_stay_inside {Metadata : Type}
    (Metadata_default : Metadata) (p : AtlasProperties)
    (backend0 backend1 : AtlasBackend) (a0 : TextureAtlas Metadata)
    (cs : list (Call Metadata)) :
  AtlasProperties_wf p -> directMappingCount p = 0 -> 1 <= tileCount p ->
  new Metadata_default p backend0 = Returns (a0, backend1) ->
  Forall without_direct_mapping cs ->
  match calls a0 cs backend1 with
  | Returns (a, backend2) =>
      exists sent,
        backend2 = backend1 ++ sent /\ Forall (upload_into (_tileLocations a0)) sent
  | Fails f => f = PreconditionViolation /\ Exists is_setDirectMapping cs
  end.
Proof.
  intros (_ & _ & Hcount & _) Hd Htiles Hnew Hcs.
  apply calls_without_direct_mapping; [| exact Hcs].
  apply new_returns in Hnew.
  destruct Hnew as (Hp & _ & _ & _ & Hcache & Hloc & Hslots & Hrequire & _).
  unfold unmapped, indices_below. rewrite Hp, Hcache, Hloc, Hslots, Hd.
  cbn [StrongLRUHashtable.create StrongLRUHashtable.capacity StrongLRUHashtable.entries].
  rewrite length_map, length_seq.
  set (n := to_uint32 _) in *.
  assert (Hn : 0 <= n < 2 ^ 32) by (apply wrap_range; lia).
  rewrite Hd, Z.add_0_l in Hrequire.
  unfold to_uint32 at 1 in Hrequire. unfold is_uint32 in Hcount.
  rewrite wrap_small in Hrequire by lia.
  unfold to_size_t. rewrite wrap_small by lia.
  repeat split; try reflexivity; try lia. constructor.
Qed.

Lemma calls_without_direct_mapping_stay_inside_witness :
  exists a backend,
    new 0 fill_properties [] = Returns (a, backend) /\
    match calls a [call_get_or_emplace 1 (build 1); call_remove 1;
                   call_get_or_emplace 2 (build 2)] backend with
    | Returns (a', backend') =>
        exists sent,
          backend' = backend ++ sent /\ Forall (upload_into (_tileLocations a)) sent
    | Fails f => f = PreconditionViolation /\
                 Exists is_setDirectMapping
                   [call_get_or_emplace 1 (build 1); call_remove 1;
                    call_get_or_emplace 2 (build 2)]
    end.
Proof.
  eexists. eexists. split; [vm_compute; reflexivity |].
  match goal with
  | |- context [calls ?a ?cs ?backend] =>
      refine (calls_without_direct_mapping_stay_inside 0 fill_properties []
                backend a cs _ _ _ _ _)
  end.
  - unfold AtlasProperties_wf, is_uint32. cbn. lia.
  - reflexivity.
  - cbn. lia.
  - vm_compute. reflexivity.
  - repeat constructor.
Defined.

(** ** Direct mapping *)

Lemma assign_same {A : Type} (v : list A) (i : nat) (a : A) :
  (i < length v)%nat -> nth_error (assign v i a) i = Some a.
Proof.
  revert i. induction v as [|b v IH]; intros [|i] Hi; cbn in *; try lia; [reflexivity|].
  apply IH. lia.
Qed.

Lemma assign_other {A : Type} (v : list A) (i j : nat) (a : A) :
  j <> i -> nth_error (assign v i a) j = nth_error v j.
Proof.
  revert i j. induction v as [|b v IH]; intros [|i] [|j] Hij; cbn; try reflexivity;
    try contradiction.
  apply IH. congruence.
Qed.

Section direct_mapping.
Context {Metadata : Type}.
Implicit Type a : TextureAtlas Metadata.

(** Property X10.
    [setDirectMapping(index, data)] on a slot that exists and has a tile
    location returns after one [uploadTile] onto [tileLocations[index]];
    afterwards [directMapped(index)] gives that location with the size and
    the metadata of the data, every other slot reads as before, and the LRU
    table and the tile locations are untouched. *)
Theorem setDirectMapping_then_directMapped a (index : Z)
    (data : TileCreateData.t Metadata) (backend : AtlasBackend) (location : TileLocation) :
  0 <= index < Z.of_nat (length (_directMapping a)) ->
  tileLocation a index = Returns location ->
  exists a',
    setDirectMapping a index data backend
      = Returns (a', backend ++ [uploadTile_
                   {| UploadTile.location := location;
                      UploadTile.bitmap := TileCreateData.bitmap data;
                      UploadTile.bitmapSize := TileCreateData.bitmapSize data;
                      UploadTile.bitmapFormat := TileCreateData.bitmapFormat data |}]) /\
    directMapped a' index
      = Returns {| TileAttributes.location := location;
                   TileAttributes.bitmapSize := TileCreateData.bitmapSize data;
                   TileAttributes.metadata := TileCreateData.metadata data |} /\
    (forall other, other <> index -> directMapped a' other = directMapped a other) /\
    _tileCache a' = _tileCache a /\
    _tileLocations a' = _tileLocations a.
Proof.
  intros Hindex Hloc. unfold tileLocation in Hloc.
  assert (Hcheck : (index <? Z.of_nat (length (_directMapping a))) = true)
    by (apply Z.ltb_lt; lia).
  eexists. split.
  { unfold setDirectMapping. rewrite Hcheck. cbv [Require lift bind].
    rewrite Hloc. reflexivity. }
  cbn [_tileCache _tileLocations]. split; [| split; [| now split]].
  - unfold directMapped. cbn [_directMapping]. rewrite assign_length, Hcheck.
    cbn [Require]. unfold subscript.
    destruct (Z.ltb_spec index 0) as [|_]; [lia|].
    rewrite assign_same by lia. reflexivity.
  - intros other Hother. unfold directMapped. cbn [_directMapping].
    rewrite assign_length.
    destruct (Require (other <? Z.of_nat (length (_directMapping a)))); [|reflexivity].
    unfold subscript. destruct (Z.ltb_spec other 0) as [|Hpos]; [reflexivity|].
    rewrite assign_other by lia. reflexivity.
Qed.
End direct_mapping.

Lemma setDirectMapping_then_directMapped_witness :
  exists a backend,
    new 0 direct_mapping_properties [] = Returns (a, backend) /\
    exists a' backend',
      setDirectMapping a 1 (tile 7) backend = Returns (a', backend') /\
      directMapped a' 1
        = Returns {| TileAttributes.location := {| x := 8; y := 0 |};
                     TileAttributes.bitmapSize := {| width := 8; height := 16 |};
                     TileAttributes.metadata := 7 |}.
Proof.
  eexists. eexists. split; [vm_compute; reflexivity|].
  match goal with
  | |- context [setDirectMapping ?a 1 (tile 7) ?b] =>
      destruct (setDirectMapping_then_directMapped a 1 (tile 7) b {| x := 8; y := 0 |})
        as (a' & Hset & Hget & _)
  end.
  - vm_compute. split; [discriminate | reflexivity].
  - vm_compute. reflexivity.
  - exists a'. eexists. split; [exact Hset | exact Hget].
Defined.

(** ** The constructed atlas *)

Section constructed_atlas.
Context {Metadata : Type} (Metadata_default : Metadata).
Variables (p : AtlasProperties) (backend backend' : AtlasBackend).
Variable a : TextureAtlas Metadata.
Hypothesis well_formed : AtlasProperties_wf p.
Hypothesis constructed : new Metadata_default p backend = Returns (a, backend').

(** Property X11.
    An atlas that the constructor returned has room for all that was asked
    of it, as long as the two counts add up below [2^32]: its capacity is at
    least [tileCount + directMappingCount], every direct-mapped slot exists,
    holds default attributes and has a tile location, and so has the tile of
    each of the first [tileCount] entry indices of the LRU table. *)
Theorem constructed_atlas_has_room :
  directMappingCount p + tileCount p < 2 ^ 32 ->
  tileCount p + directMappingCount p <= capacity a /\
  (forall index, 0 <= index < directMappingCount p ->
     directMapped a index = Returns (TileAttributes_default Metadata_default) /\
     exists location, tileLocation a index = Returns location) /\
  (forall entryIndex, 0 <= entryIndex < tileCount p ->
     exists location,
       subscript (_tileLocations a)
                 (to_uint32 (entryIndex + directMappingCount (_atlasProperties a)))
         = Returns location).
Proof.
  intros Hsum. destruct well_formed as (_ & _ & Htc & Hd). unfold is_uint32 in Htc, Hd.
  pose proof (new_capacity _ _ _ _ _ constructed) as Hcap.
  pose proof (new_returns _ _ _ _ _ constructed)
    as (Hp & _ & HX & HY & _ & _ & Hdirect & Hreq & _).
  rewrite <- HX, <- HY in Hreq. fold (tilesInX a) (tilesInY a) in Hreq.
  rewrite <- Hcap in Hreq.
  unfold to_uint32 in Hreq. rewrite wrap_small in Hreq by lia.
  assert (Hin : forall i, 0 <= i < capacity a ->
            exists location, subscript (_tileLocations a) i = Returns location).
  { intros i Hi. unfold capacity in Hi. unfold subscript.
    destruct (Z.ltb_spec i 0) as [|_]; [lia|].
    destruct (nth_error (_tileLocations a) (Z.to_nat i)) as [location|] eqn:E.
    - now exists location.
    - apply nth_error_None in E. lia. }
  split; [lia|]. split.
  - intros index Hindex. split; [| apply Hin; lia].
    unfold directMapped. rewrite Hdirect, repeat_length.
    destruct (Z.ltb_spec index (Z.of_nat (Z.to_nat (directMappingCount p)))) as [_|]; [|lia].
    cbn [Require]. unfold subscript.
    destruct (Z.ltb_spec index 0) as [|_]; [lia|].
    rewrite nth_error_repeat by lia. reflexivity.
  - intros entryIndex Hentry. rewrite Hp.
    unfold to_uint32. rewrite wrap_small by lia. apply Hin. lia.
Qed.

(** Property X12.
    As long as the atlas is at most 65536 pixels wide and high, so that
    every offset fits a [TileLocation], two different tile indices below the
    capacity get tiles that share no pixel. *)
Theorem tiles_do_not_overlap (i j : Z) :
  width (atlasSize a) <= 65536 -> height (atlasSize a) <= 65536 ->
  0 <= i < capacity a -> 0 <= j < capacity a -> i <> j ->
  exists li lj,
    tileLocation a i = Returns li /\ tileLocation a j = Returns lj /\
    apart (tileSize p) li lj.
Proof.
  intros HW HH Hi Hj Hij.
  pose proof (tilesInX_fits _ _ _ _ _ well_formed constructed) as HfitX.
  pose proof (tilesInY_fits _ _ _ _ _ well_formed constructed) as HfitY.
  destruct (column_and_row _ _ _ _ _ constructed i Hi) as (HX & Hci & Hri).
  destruct (column_and_row _ _ _ _ _ constructed j Hj) as (_ & Hcj & Hrj).
  destruct well_formed as (Hw & Hh & _). unfold is_uint32 in Hw, Hh.
  set (w := width (tileSize p)) in *. set (h := height (tileSize p)) in *.
  set (X := tilesInX a) in *.
  exists {| x := i mod X * w; y := i / X * h |}, {| x := j mod X * w; y := j / X * h |}.
  split; [| split].
  - apply (tileLocation_on_grid Metadata_default p backend backend'); fold w h X;
      try assumption; nia.
  - apply (tileLocation_on_grid Metadata_default p backend backend'); fold w h X;
      try assumption; nia.
  - unfold apart. cbn [x y]. fold w h.
    destruct (Z.lt_total (i mod X) (j mod X)) as [Hlt|[Heq|Hgt]].
    + left. nia.
    + right. right.
      assert (Hrows : i / X <> j / X).
      { intros Hrows. apply Hij.
        rewrite (Z.div_mod i X), (Z.div_mod j X) by lia. congruence. }
      destruct (Z.lt_total (i / X) (j / X)) as [Hr|[Hr|Hr]]; [left; nia | contradiction | right; nia].
    + right. left. nia.
Qed.
End constructed_atlas.

(** ** The constructor on sensible properties *)

Lemma nextPowerOfTwo_bounds (v : Z) : 1 <= v -> v <= nextPowerOfTwo v < 2 * v.
Proof.
  intros Hv. unfold nextPowerOfTwo.
  destruct (Z.eq_dec v 1) as [->|Hne]; [cbn; lia|].
  pose proof (Z.log2_up_spec v ltac:(lia)) as [Hlow Hhigh].
  pose proof (Z.log2_up_pos v ltac:(lia)) as Hpos.
  split; [exact Hhigh|].
  replace (Z.log2_up v) with (Z.succ (Z.pred (Z.log2_up v))) by lia.
  rewrite Z.pow_succ_r by lia. lia.
Qed.

Lemma ceil_sqrt_bounds (n : Z) :
  1 <= n -> 1 <= ceil_sqrt n /\ n <= ceil_sqrt n * ceil_sqrt n /\
  (ceil_sqrt n - 1) * (ceil_sqrt n - 1) < n.
Proof.
  intros Hn. unfold ceil_sqrt.
  pose proof (Z.sqrt_spec n ltac:(lia)) as [Hlow Hhigh].
  pose proof (Z.sqrt_nonneg n).
  destruct (Z.eqb_spec (Z.sqrt n * Z.sqrt n) n) as [E|E]; nia.
Qed.

(** Property X13.
    With [nextPowerOfTwo] the least power of two that is not below its
    argument, the constructor returns for all sensible properties, tiles of
    1 to 65535 pixels a side and between 1 and [2^24] tiles in all: its
    [Require] holds, and it sends the one [configureAtlas] command. *)
Theorem new_returns_for_sensible_properties {Metadata : Type}
    (Metadata_default : Metadata) (p : AtlasProperties) (backend : AtlasBackend) :
  1 <= width (tileSize p) < 2 ^ 16 -> 1 <= height (tileSize p) < 2 ^ 16 ->
  0 <= tileCount p -> 0 <= directMappingCount p ->
  1 <= tileCount p + directMappingCount p <= 2 ^ 24 ->
  exists a,
    new Metadata_default p backend
      = Returns (a, backend ++ [configureAtlas_
                   {| ConfigureAtlas.size := computeAtlasSize p;
                      ConfigureAtlas.properties := p |}]) /\
    tileCount p + directMappingCount p <= capacity a.
Proof.
  intros Hw Hh Htc Hd Hsum.
  set (w := width (tileSize p)) in *. set (h := height (tileSize p)) in *.
  set (n := tileCount p + directMappingCount p) in *.
  set (total := nextPowerOfTwo (to_uint32 n)).
  assert (Hn32 : to_uint32 n = n) by (apply wrap_small; lia).
  pose proof (nextPowerOfTwo_bounds n ltac:(lia)) as Htotal.
  assert (Htotal' : n <= total < 2 * n) by (unfold total; now rewrite Hn32).
  destruct (ceil_sqrt_bounds total ltac:(lia)) as (He1 & He2 & He3).
  set (edge := ceil_sqrt total) in *.
  assert (Hedge : edge <= 2 ^ 13) by nia.
  assert (Hside : forall s, 1 <= s < 2 ^ 16 ->
            let S := to_uint32 (nextPowerOfTwo (to_uint32 (edge * s))) in
            edge <= to_uint32 (S / s) < 2 * edge + 1).
  { intros s Hs S.
    assert (Hv : to_uint32 (edge * s) = edge * s) by (apply wrap_small; nia).
    pose proof (nextPowerOfTwo_bounds (edge * s) ltac:(nia)) as HS.
    assert (HS' : S = nextPowerOfTwo (edge * s)).
    { unfold S. rewrite Hv. apply wrap_small. nia. }
    assert (Hq : edge <= S / s) by (apply Z.div_le_lower_bound; nia).
    assert (Hq' : S / s < 2 * edge + 1) by (apply Z.div_lt_upper_bound; nia).
    unfold to_uint32 at 1 2. rewrite wrap_small by nia. lia. }
  pose proof (Hside w Hw) as HX. pose proof (Hside h Hh) as HY. cbv zeta in HX, HY.
  unfold new.
  change (computeAtlasSize p)
    with {| width := to_uint32 (nextPowerOfTwo (to_uint32 (edge * w)));
            height := to_uint32 (nextPowerOfTwo (to_uint32 (edge * h))) |}.
  cbn [width height]. fold w h.
  set (X := to_uint32 (to_uint32 (nextPowerOfTwo (to_uint32 (edge * w))) / w)) in *.
  set (Y := to_uint32 (to_uint32 (nextPowerOfTwo (to_uint32 (edge * h))) / h)) in *.
  assert (HXY : to_uint32 (X * Y) = X * Y) by (apply wrap_small; nia).
  assert (Hsize : to_size_t (to_uint32 (X * Y)) = X * Y).
  { rewrite HXY. apply wrap_small. nia. }
  assert (Hreq : (to_uint32 (directMappingCount p + tileCount p)
                    <=? to_size_t (to_uint32 (X * Y))) = true).
  { rewrite Hsize. apply Z.leb_le.
    replace (directMappingCount p + tileCount p) with n by (unfold n; ring).
    rewrite Hn32. nia. }
  rewrite Hreq. eexists. split; [reflexivity|].
  unfold capacity. cbn [_tileLocations]. rewrite length_map, length_seq, Hsize.
  fold n. rewrite Z2Nat.id by nia. nia.
Qed.

Lemma new_returns_for_sensible_properties_witness :
  exists a backend',
    new 0 geometry_properties [] = Returns (a, backend') /\
    64 <= capacity a.
Proof.
  destruct (new_returns_for_sensible_properties 0 geometry_properties [])
    as (a & Hnew & Hcap); try (cbn; lia).
  exists a. eexists. split; [exact Hnew | exact Hcap].
Defined.

(** ** Tile indices of direct mappings *)

Lemma allocate_each_length (counts : list Z) :
  forall a, length (fst (DirectMappingAllocator.allocate_each a counts)) = length counts.
Proof.
  induction counts as [|c counts IH]; intros a; [reflexivity|].
  cbn [DirectMappingAllocator.allocate_each].
  destruct (DirectMappingAllocator.allocate a c) as [m a'].
  specialize (IH a').
  destruct (DirectMappingAllocator.allocate_each a' counts) as [ms a''].
  cbn [fst length] in *. now rewrite IH.
Qed.

Lemma total_firstn_succ (counts : list Z) (i : nat) (c : Z) :
  nth_error counts i = Some c ->
  total (firstn (S i) counts) = total (firstn i counts) + c.
Proof.
  revert i. unfold total.
  induction counts as [|d counts IH]; intros [|i] Hi; cbn in Hi; try discriminate.
  - injection Hi as ->. cbn. lia.
  - rewrite (firstn_cons (S i)), (firstn_cons i). cbn [fold_right].
    rewrite (IH i Hi). lia.
Qed.

Lemma total_firstn_mono (counts : list Z) (i j : nat) :
  Forall (fun c => 0 <= c) counts -> (i <= j)%nat ->
  total (firstn i counts) <= total (firstn j counts).
Proof.
  intros Hpos. revert i j. unfold total.
  induction Hpos as [|c counts Hc Hpos IH]; intros i j Hij.
  - now rewrite !firstn_nil.
  - destruct i as [|i], j as [|j]; rewrite ?firstn_cons, ?firstn_O; cbn [fold_right];
      try lia.
    + pose proof (total_firstn_le counts j Hpos) as H. unfold total in H. lia.
    + specialize (IH i j). lia.
Qed.

(** Property X14.
    [toTileIndex] turns an index below the mapping's count into
    [baseIndex + index] and is turned down by its [Require] otherwise.  The
    mappings that an enabled allocator returns one after the other cover
    tile indices in ascending, separate ranges, as long as the total stays
    below [2^32]: every tile index of an earlier mapping is below every tile
    index of a later one. *)
Theorem direct_mappings_do_not_overlap (a : DirectMappingAllocator.t) (counts : list Z)
    (i j : nat) (mi mj : DirectMapping.t) (p q : Z) :
  DirectMappingAllocator.enabled a = true ->
  is_uint32 (DirectMappingAllocator.currentlyAllocatedCount a) ->
  Forall (fun c => 0 <= c) counts ->
  DirectMappingAllocator.currentlyAllocatedCount a + total counts < 2 ^ 32 ->
  (i < j)%nat ->
  nth_error (fst (DirectMappingAllocator.allocate_each a counts)) i = Some mi ->
  nth_error (fst (DirectMappingAllocator.allocate_each a counts)) j = Some mj ->
  0 <= p < DirectMapping.count mi -> 0 <= q < DirectMapping.count mj ->
  (forall m index, DirectMapping.count m <= index ->
     DirectMapping.toTileIndex m index = Fails PreconditionViolation) /\
  exists ti tj,
    DirectMapping.toTileIndex mi p = Returns ti /\
    DirectMapping.toTileIndex mj q = Returns tj /\
    ti = DirectMapping.baseIndex mi + p /\
    tj = DirectMapping.baseIndex mj + q /\
    ti < tj.
Proof.
  intros Hen Hcur Hpos Hfit Hij Hi Hj Hp Hq. split.
  { intros m index Hindex. unfold DirectMapping.toTileIndex.
    destruct (Z.ltb_spec index (DirectMapping.count m)); [lia | reflexivity]. }
  destruct (DirectMappingAllocator.allocate_each a counts) as [ms a'] eqn:Hrun.
  cbn [fst] in Hi, Hj.
  pose proof (allocate_each_length counts a) as Hlen. rewrite Hrun in Hlen. cbn [fst] in Hlen.
  destruct (allocate_each_enabled counts a ms a' Hen Hcur Hrun) as (_ & _ & Hnth).
  assert (Hici : exists ci, nth_error counts i = Some ci).
  { destruct (nth_error counts i) as [ci|] eqn:E; [now exists ci|].
    apply nth_error_None in E. assert (i < length ms)%nat by (apply nth_error_Some; congruence).
    lia. }
  assert (Hjcj : exists cj, nth_error counts j = Some cj).
  { destruct (nth_error counts j) as [cj|] eqn:E; [now exists cj|].
    apply nth_error_None in E. assert (j < length ms)%nat by (apply nth_error_Some; congruence).
    lia. }
  destruct Hici as (ci & Hci). destruct Hjcj as (cj & Hcj).
  rewrite (Hnth i ci Hci) in Hi. rewrite (Hnth j cj Hcj) in Hj.
  injection Hi as <-. injection Hj as <-.
  cbn [DirectMapping.count DirectMapping.baseIndex] in *.
  unfold is_uint32 in Hcur. unfold to_uint32 in *.
  pose proof (total_firstn_le counts i Hpos) as Hti.
  pose proof (total_firstn_le counts j Hpos) as Htj.
  pose proof (total_firstn_le counts (S i) Hpos) as Htsi.
  pose proof (total_firstn_le counts (S j) Hpos) as Htsj.
  pose proof (total_firstn_succ counts i ci Hci) as Hsi.
  pose proof (total_firstn_succ counts j cj Hcj) as Hsj.
  pose proof (total_firstn_mono counts (S i) j Hpos ltac:(lia)) as Hmono.
  rewrite (wrap_small 32 (DirectMappingAllocator.currentlyAllocatedCount a
                          + total (firstn i counts))) in * by lia.
  rewrite (wrap_small 32 (DirectMappingAllocator.currentlyAllocatedCount a
                          + total (firstn j counts))) in * by lia.
  unfold DirectMapping.toTileIndex. cbn [DirectMapping.count DirectMapping.baseIndex].
  destruct (Z.ltb_spec p ci) as [_|]; [|lia].
  destruct (Z.ltb_spec q cj) as [_|]; [|lia].
  cbn [Require].
  do 2 eexists. split; [reflexivity|]. split; [reflexivity|].
  unfold to_uint32. rewrite !wrap_small by lia. repeat split; lia.
Qed.

Lemma direct_mappings_do_not_overlap_witness :
  exists ti tj,
    DirectMapping.toTileIndex {| DirectMapping.baseIndex := 0; DirectMapping.count := 3 |} 2
      = Returns ti /\
    DirectMapping.toTileIndex {| DirectMapping.baseIndex := 8; DirectMapping.count := 2 |} 0
      = Returns tj /\
    ti = 0 + 2 /\ tj = 8 + 0 /\ ti < tj.
Proof.
  refine (proj2 (direct_mappings_do_not_overlap DirectMappingAllocator.initial [3; 5; 2]
                   0 2 _ _ 2 0 eq_refl _ _ _ _ eq_refl eq_refl _ _)).
  - unfold is_uint32. cbn. lia.
  - repeat constructor; lia.
  - cbn. lia.
  - lia.
  - cbn. lia.
  - cbn. lia.
Defined.

(** ** Slices follow each other *)

Lemma visit_follows (fuel : nat) :
  forall it last l,
    slicing.visit fuel it last = Some l ->
    Forall (fun s => beginX s <> beginX (slicing.value last)) l /\
    match l with
    | [] => beginX (slicing.value it) = beginX (slicing.value last)
    | s :: rest =>
        s = slicing.value it /\ follows (slicing.iterator_tileWidth it) s rest
    end.
Proof.
  induction fuel as [|fuel IH]; intros it last l H; cbn [slicing.visit] in H;
    unfold slicing.ne in H;
    destruct (Z.eqb_spec (beginX (slicing.value it)) (beginX (slicing.value last)))
      as [E|E]; cbn [negb] in H; try discriminate.
  - injection H as <-. now split.
  - injection H as <-. now split.
  - destruct (slicing.visit fuel (slicing.incr it) last) as [rest|] eqn:Hrest;
      [|discriminate].
    injection H as <-. apply IH in Hrest. destruct Hrest as [Hall Hshape].
    split; [constructor; assumption|]. split; [reflexivity|].
    destruct rest as [|s rest]; [exact I|].
    destruct Hshape as [-> Hfollows]. cbn [follows].
    repeat split; try reflexivity. exact Hfollows.
Qed.

Lemma visit_more_fuel (fuel : nat) :
  forall it last l fuel',
    slicing.visit fuel it last = Some l -> (fuel <= fuel')%nat ->
    slicing.visit fuel' it last = Some l.
Proof.
  induction fuel as [|fuel IH]; intros it last l fuel' H Hle; cbn [slicing.visit] in H.
  - destruct fuel'; cbn [slicing.visit]; destruct (slicing.ne it last);
      try discriminate; exact H.
  - destruct fuel' as [|fuel']; [lia|]. cbn [slicing.visit].
    destruct (slicing.ne it last); [|exact H].
    destruct (slicing.visit fuel (slicing.incr it) last) as [rest|] eqn:Hrest;
      [|discriminate].
    rewrite (IH _ _ _ fuel' Hrest) by lia. exact H.
Qed.

(** Property X15.
    Whenever the iteration over [sliced(tileWidth, offsetX, bitmapSize)]
    ends, with whatever width and offset, it yielded nothing exactly if
    [offsetX] is where [end()] stands; otherwise the first slice is
    [(0, offsetX, tileWidth)], every further slice begins where the one
    before ends, has the next slice index and ends one tile width further
    (in [uint32_t]), none begins where [end()] stands, and spending more
    increments changes nothing. *)
Theorem slices_follow_each_other (fuel : nat) (tileWidth offsetX : Z)
    (bitmapSize : ImageSize) (l : list TileSliceIndex) :
  let c := slicing.sliced tileWidth offsetX bitmapSize in
  slicing.slices fuel c = Some l ->
  (l = [] <-> offsetX = slicing.offsetForEndX c) /\
  match l with
  | [] => True
  | s :: rest =>
      s = {| sliceIndex := 0; beginX := offsetX; endX := tileWidth |} /\
      follows tileWidth s rest
  end /\
  Forall (fun s => beginX s <> slicing.offsetForEndX c) l /\
  (forall fuel', (fuel <= fuel')%nat -> slicing.slices fuel' c = Some l).
Proof.
  intros c H. unfold slicing.slices in *.
  pose proof (visit_follows _ _ _ _ H) as [Hall Hshape].
  change (beginX (slicing.value (slicing.end_ c))) with (slicing.offsetForEndX c) in *.
  change (beginX (slicing.value (slicing.begin_ c))) with offsetX in *.
  split; [| split; [| split]].
  - destruct l as [|s rest].
    + now split.
    + split; [discriminate|]. intros Hoff. exfalso.
      destruct Hshape as [-> _]. inversion Hall as [|? ? Hs _]. apply Hs. exact Hoff.
  - destruct l as [|s rest]; [exact I|]. exact Hshape.
  - exact Hall.
  - intros fuel' Hle. now apply (visit_more_fuel fuel).
Qed.

Lemma slices_follow_each_other_witness :
  follows 10 {| sliceIndex := 0; beginX := 0; endX := 10 |}
    [ {| sliceIndex := 1; beginX := 10; endX := 20 |};
      {| sliceIndex := 2; beginX := 20; endX := 30 |} ].
Proof.
  exact (proj2 (proj1 (proj2 (slices_follow_each_other 3 10 0 {| width := 25; height := 1 |}
                   _ eq_refl)))).
Defined.

(** ** Modifier masks *)

Lemma complement_spec (v i : Z) :
  0 <= i ->
  Z.testbit (Modifier.complement v) i = (i <? 32) && negb (Z.testbit v i).
Proof.
  intros Hi. unfold Modifier.complement, to_uint32, wrap.
  destruct (Z.ltb_spec i 32) as [Hlt|Hge].
  - rewrite Z.mod_pow2_bits_low by lia. now rewrite Z.lnot_spec.
  - now rewrite Z.mod_pow2_bits_high by lia.
Qed.

Lemma uint32_high_bits (v i : Z) :
  is_uint32 v -> 32 <= i -> Z.testbit v i = false.
Proof.
  intros Hv Hi. rewrite <- (Z.mod_small v (2 ^ 32)) by exact Hv.
  apply Z.mod_pow2_bits_high. lia.
Qed.

(** Property X16.
    [with] adds the flags of the other modifier and [without] takes exactly
    them away: the result of [with] contains both operands, the result of
    [without] shares no flag with the one taken away, adding the flags back
    gives the union again, which is the modifier itself when it contained
    them, and [with] followed by [without] is [without]. *)
Theorem modifier_with_and_without (m other : Modifier.t) :
  is_uint32 (Modifier.value m) ->
  Modifier.contains (Modifier.with_ m other) other = true /\
  Modifier.contains (Modifier.with_ m other) m = true /\
  Z.land (Modifier.value (Modifier.without m other)) (Modifier.value other) = 0 /\
  Modifier.with_ (Modifier.without m other) other = Modifier.with_ m other /\
  (Modifier.contains m other = true ->
     Modifier.with_ (Modifier.without m other) other = m) /\
  Modifier.without (Modifier.with_ m other) other = Modifier.without m other.
Proof.
  intros Hm. destruct m as [a], other as [b].
  unfold Modifier.contains, Modifier.with_, Modifier.without, Modifier.value in *.
  cbn [Modifier.mask_] in *.
  assert (Hunion : Z.lor (Z.land a (Modifier.complement b)) b = Z.lor a b).
  { apply Z.bits_inj'. intros i Hi.
    rewrite !Z.lor_spec, Z.land_spec, complement_spec by exact Hi.
    destruct (Z.ltb_spec i 32) as [_|Hge].
    - destruct (Z.testbit a i), (Z.testbit b i); reflexivity.
    - rewrite (uint32_high_bits a i Hm Hge). reflexivity. }
  repeat split.
  - apply Z.eqb_eq. apply Z.bits_inj'. intros i Hi.
    rewrite Z.land_spec, Z.lor_spec.
    destruct (Z.testbit a i), (Z.testbit b i); reflexivity.
  - apply Z.eqb_eq. apply Z.bits_inj'. intros i Hi.
    rewrite Z.land_spec, Z.lor_spec.
    destruct (Z.testbit a i), (Z.testbit b i); reflexivity.
  - apply Z.bits_inj'. intros i Hi.
    rewrite !Z.land_spec, complement_spec, Z.bits_0 by exact Hi.
    destruct (Z.testbit a i), (Z.testbit b i), (i <? 32); reflexivity.
  - now rewrite Hunion.
  - intros Hcontains. apply Z.eqb_eq in Hcontains.
    rewrite Hunion. f_equal. rewrite <- Hcontains.
    apply Z.bits_inj'. intros i Hi. rewrite Z.lor_spec, Z.land_spec.
    destruct (Z.testbit a i), (Z.testbit b i); reflexivity.
  - f_equal. apply Z.bits_inj'. intros i Hi.
    rewrite !Z.land_spec, Z.lor_spec, complement_spec by exact Hi.
    destruct (Z.testbit a i), (Z.testbit b i), (i <? 32); reflexivity.
Qed.

Lemma modifier_with_and_without_witness :
  Modifier.with_ (Modifier.without (Modifier.plus Modifier.Shift Modifier.Control)
                                   (Modifier.of_key Modifier.Shift))
                 (Modifier.of_key Modifier.Shift)
    = Modifier.plus Modifier.Shift Modifier.Control.
Proof.
  refine (proj1 (proj2 (proj2 (proj2 (proj2
            (modifier_with_and_without (Modifier.plus Modifier.Shift Modifier.Control)
                                       (Modifier.of_key Modifier.Shift) _))))) _).
  - unfold is_uint32. cbn. lia.
  - reflexivity.
Defined.

Ltac modifier_unfold :=
  cbv [Modifier.test Modifier.enable Modifier.disable Modifier.shift Modifier.alt
       Modifier.control Modifier.meta Modifier.value Modifier.mask_ Modifier.code].

Ltac land_constants :=
  repeat match goal with
    | |- context [Z.land (Z.pos ?p) (Z.pos ?q)] =>
        let r := eval vm_compute in (Z.land (Z.pos p) (Z.pos q)) in
        change (Z.land (Z.pos p) (Z.pos q)) with r
    | |- context [Z.land (Modifier.complement ?c) (Z.pos ?q)] =>
        let r := eval vm_compute in (Z.land (Modifier.complement c) (Z.pos q)) in
        change (Z.land (Modifier.complement c) (Z.pos q)) with r
    end.

(** Property X17.
    [enable(key)] sets the flag of the key and [disable(key)] clears it, for
    each of Shift, Alt, Control and Meta, and neither touches the flag of
    another key. *)
Theorem modifier_enable_and_disable (m : Modifier.t) (k k' : Modifier.Key) :
  k <> Modifier.None_ -> k' <> Modifier.None_ ->
  Modifier.test (Modifier.enable m k) k = true /\
  Modifier.test (Modifier.disable m k) k = false /\
  (k' <> k ->
     Modifier.test (Modifier.enable m k) k' = Modifier.test m k' /\
     Modifier.test (Modifier.disable m k) k' = Modifier.test m k').
Proof.
  intros Hk Hk'. destruct m as [a].
  assert (Hset : forall code, code <> 0 -> (Z.lor (Z.land a code) code =? 0) = false).
  { intros code Hcode. apply Z.eqb_neq. intros H. apply Z.lor_eq_0_iff in H. tauto. }
  destruct k; try contradiction;
    (split; [| split];
     [ modifier_unfold; rewrite Z.land_lor_distr_l; land_constants;
       now rewrite Hset
     | modifier_unfold; rewrite <- Z.land_assoc; land_constants;
       now rewrite Z.land_0_r
     | intros Hne; destruct k'; try contradiction; modifier_unfold;
       rewrite Z.land_lor_distr_l, <- Z.land_assoc; land_constants;
       now rewrite Z.lor_0_r ]).
Qed.

Lemma modifier_enable_and_disable_witness :
  Modifier.shift (Modifier.enable (Modifier.of_key Modifier.Alt) Modifier.Shift) = true.
Proof.
  refine (proj1 (modifier_enable_and_disable (Modifier.of_key Modifier.Alt)
                   Modifier.Shift Modifier.Alt _ _)); discriminate.
Defined.

(** ** InputGenerator: the pending output *)

Section pending_output.
Variable g : InputGenerator.t.

Let pending := InputGenerator.pendingSequence_ g.
Let consumed := InputGenerator.consumedBytes_ g.
Let size := Z.of_nat (length pending).

Hypothesis size_fits_int : size < 2 ^ 31.
Hypothesis consumed_inside : 0 <= consumed <= size.

Lemma consume_inside (n : Z) :
  0 <= n <= size - consumed ->
  InputGenerator.consume g n =
    if n =? size - consumed
    then InputGenerator.with_buffer g [] 0
    else InputGenerator.with_buffer g pending (consumed + n).
Proof.
  intros Hn. unfold InputGenerator.consume.
  fold pending. fold consumed. fold size.
  unfold to_size_t. rewrite wrap_small by lia.
  destruct (Z.eqb_spec (consumed + n) size), (Z.eqb_spec n (size - consumed));
    try lia; reflexivity.
Qed.

(** Property X18.
    [peek] shows the pending bytes from the consumed count on, and after
    [consume(n)] with [n] of them it shows the same bytes without the first
    [n]; consuming all of them empties the buffer and sets the count to
    zero, consuming fewer leaves the buffer as it is. *)
Theorem consume_advances_peek (n : Z) :
  0 <= n <= size - consumed ->
  InputGenerator.peek g = Returns (skipn (Z.to_nat consumed) pending) /\
  InputGenerator.peek (InputGenerator.consume g n) =
    Returns (skipn (Z.to_nat n) (skipn (Z.to_nat consumed) pending)) /\
  (n = size - consumed ->
     InputGenerator.pendingSequence_ (InputGenerator.consume g n) = [] /\
     InputGenerator.consumedBytes_ (InputGenerator.consume g n) = 0) /\
  (n < size - consumed ->
     InputGenerator.pendingSequence_ (InputGenerator.consume g n) = pending /\
     InputGenerator.consumedBytes_ (InputGenerator.consume g n) = consumed + n).
Proof.
  intros Hn. rewrite (consume_inside n Hn).
  assert (Hpeek : InputGenerator.peek g = Returns (skipn (Z.to_nat consumed) pending)).
  { unfold InputGenerator.peek. fold pending. fold consumed. fold size.
    destruct (Z.leb_spec 0 consumed), (Z.leb_spec consumed size); try lia.
    reflexivity. }
  split; [exact Hpeek |].
  destruct (Z.eqb_spec n (size - consumed)) as [Hall|Hless].
  - split; [| split]; [| intros _; split; reflexivity | lia].
    unfold InputGenerator.peek. cbn.
    rewrite skipn_skipn. rewrite skipn_all2; [reflexivity |].
    unfold size in *. lia.
  - split; [| split]; [| lia | intros _; split; reflexivity].
    unfold InputGenerator.peek.
    cbn [InputGenerator.with_buffer InputGenerator.consumedBytes_
         InputGenerator.pendingSequence_].
    fold size.
    destruct (Z.leb_spec 0 (consumed + n)), (Z.leb_spec (consumed + n) size); try lia.
    cbn [andb]. rewrite skipn_skipn. do 2 f_equal. lia.
Qed.

(** Property X19.
    Consuming [a] bytes and then [b] bytes is consuming [a + b] bytes, as
    long as that many are pending. *)
Theorem consume_in_steps (a b : Z) :
  0 <= a -> 0 <= b -> a + b <= size - consumed ->
  InputGenerator.consume (InputGenerator.consume g a) b =
    InputGenerator.consume g (a + b).
Proof.
  intros Ha Hb Hab.
  rewrite (consume_inside (a + b)) by lia.
  rewrite (consume_inside a) by lia.
  destruct (Z.eqb_spec a (size - consumed)) as [Hall|Hless].
  - assert (b = 0) by lia. subst b.
    destruct (Z.eqb_spec (a + 0) (size - consumed)); [| lia].
    reflexivity.
  - unfold InputGenerator.consume.
    cbn [InputGenerator.with_buffer InputGenerator.consumedBytes_
         InputGenerator.pendingSequence_].
    fold size. unfold to_size_t. rewrite wrap_small by lia.
    rewrite <- Z.add_assoc.
    destruct (Z.eqb_spec (consumed + (a + b)) size),
             (Z.eqb_spec (a + b) (size - consumed)); try lia; reflexivity.
Qed.

(** Property X20.
    [consume] does not check its argument against the pending bytes: after
    consuming more than are pending the count is past the buffer, [peek]
    views memory outside it, and no further consumption brings it back. *)
Theorem consume_beyond_pending (n m : Z) :
  size - consumed < n -> 0 <= m -> consumed + n + m < 2 ^ 31 ->
  InputGenerator.peek (InputGenerator.consume g n) = Fails OutOfBounds /\
  InputGenerator.peek (InputGenerator.consume (InputGenerator.consume g n) m)
    = Fails OutOfBounds.
Proof.
  intros Hn Hm Hint.
  assert (Hfirst : InputGenerator.consume g n
                   = InputGenerator.with_buffer g pending (consumed + n)).
  { unfold InputGenerator.consume. fold pending. fold consumed. fold size.
    unfold to_size_t. rewrite wrap_small by lia.
    destruct (Z.eqb_spec (consumed + n) size); [lia | reflexivity]. }
  assert (Hsecond : InputGenerator.consume (InputGenerator.consume g n) m
                    = InputGenerator.with_buffer g pending (consumed + n + m)).
  { rewrite Hfirst. unfold InputGenerator.consume.
    cbn [InputGenerator.with_buffer InputGenerator.consumedBytes_
         InputGenerator.pendingSequence_].
    fold size. unfold to_size_t. rewrite wrap_small by lia.
    destruct (Z.eqb_spec (consumed + n + m) size); [lia | reflexivity]. }
  rewrite Hsecond, Hfirst. unfold InputGenerator.peek.
  cbn [InputGenerator.with_buffer InputGenerator.consumedBytes_
       InputGenerator.pendingSequence_].
  fold size.
  destruct (Z.leb_spec (consumed + n) size), (Z.leb_spec (consumed + n + m) size);
    try lia.
  rewrite !andb_false_r. split; reflexivity.
Qed.

End pending_output.

Lemma consume_advances_peek_witness :
  InputGenerator.peek (InputGenerator.consume three_pending 2) = Returns [Byte.x41].
Proof.
  refine (proj1 (proj2 (consume_advances_peek three_pending _ _ 2 _)));
    cbn; lia.
Defined.

Lemma consume_in_steps_witness :
  InputGenerator.consume (InputGenerator.consume three_pending 1) 2 =
  InputGenerator.consume three_pending 3.
Proof.
  refine (consume_in_steps three_pending _ _ 1 2 _ _ _); cbn; lia.
Defined.

Lemma consume_beyond_pending_witness :
  InputGenerator.peek (InputGenerator.consume three_pending 4) = Fails OutOfBounds.
Proof.
  refine (proj1 (consume_beyond_pending three_pending 4 0 _ _ _)); cbn; lia.
Defined.

(** ** Vi motions and text objects *)

Lemma while_invariant {S : Type} (inv : S -> Prop) (cond : S -> bool) (body : S -> S) :
  (forall s, inv s -> cond s = true -> inv (body s)) ->
  forall fuel s s', inv s -> while fuel cond body s = Some s' ->
  inv s' /\ cond s' = false.
Proof.
  intros Hstep. induction fuel as [|fuel IH]; intros s s' Hs H; cbn [while] in H;
    destruct (cond s) eqn:E; try discriminate.
  - injection H as <-. now split.
  - apply (IH (body s)); [now apply Hstep | exact H].
  - injection H as <-. now split.
Qed.

Lemma while_terminates {S : Type} (inv : S -> Prop) (measure : S -> Z)
    (cond : S -> bool) (body : S -> S) :
  (forall s, inv s -> cond s = true ->
     inv (body s) /\ 0 <= measure (body s) < measure s) ->
  forall fuel s, inv s -> measure s <= Z.of_nat fuel ->
  exists s', while fuel cond body s = Some s' /\ inv s' /\ cond s' = false.
Proof.
  intros Hstep. induction fuel as [|fuel IH]; intros s Hs Hm; cbn [while];
    destruct (cond s) eqn:E.
  - destruct (Hstep s Hs E). lia.
  - now exists s.
  - destruct (Hstep s Hs E) as [Hinv Hless]. apply IH; [exact Hinv | lia].
  - now exists s.
Qed.

Lemma to_int_small (v : Z) : - 2 ^ 31 <= v < 2 ^ 31 -> to_int v = v.
Proof.
  intros Hv. unfold to_int, wrap.
  destruct (Z.ltb_spec v 0) as [Hneg|Hpos].
  - replace (v mod 2 ^ 32) with (v + 2 ^ 32).
    + destruct (Z.ltb_spec (v + 2 ^ 32) (2 ^ 31)); lia.
    + rewrite <- (Z_mod_plus_full v 1 (2 ^ 32)).
      rewrite Z.mod_small by lia. lia.
  - rewrite Z.mod_small by lia.
    destruct (Z.ltb_spec v (2 ^ 31)); lia.
Qed.

Section vi_motions.
Import vi.

Variable fuel : nat.
Variable v : ViCommands.
Variable count : Z.

Let t := terminal v.
Let cursor := cursorPosition v.

Hypothesis sane_terminal : sane t.
Hypothesis cursor_inside : inside t cursor.
Hypothesis count_fits : 0 <= count < 2 ^ 30.
Hypothesis enough_fuel : lines t + columns t + historyLineCount t <= Z.of_nat fuel.

Ltac loop inv measure :=
  match goal with
  | |- context [while fuel ?cond ?body ?init] =>
      let s' := fresh "s'" in
      let Hloop := fresh "Hloop" in
      let Hrun := fresh "Hrun" in
      let Hinv := fresh "Hinv" in
      let Hend := fresh "Hend" in
      assert (Hloop : exists s', while fuel cond body init = Some s'
                                 /\ inv s' /\ cond s' = false);
      [ apply (while_terminates inv measure); cbv beta
      | destruct Hloop as (s' & Hrun & Hinv & Hend); cbv beta in Hinv; rewrite Hrun ]
  end.

Lemma motion_inside (motion : ViMotion) :
  exists p, translateToCellLocation fuel v motion count = Some p /\ inside t p.
Proof.
  destruct sane_terminal as (Hlines & Hcolumns & Hhistory).
  destruct cursor_inside as (Hline & Hcolumn).
  assert (Hcount : to_int count = count) by (apply to_int_small; lia).
  unfold translateToCellLocation. fold t. fold cursor.
  destruct motion; rewrite ?Hcount.
  - (* CharLeft *)
    eexists; split; [reflexivity |]. unfold inside, with_column; cbn [line column]. lia.
  - (* CharRight *)
    eexists; split; [reflexivity |]. unfold inside, with_column; cbn [line column]. lia.
  - (* ScreenColumn *)
    eexists; split; [reflexivity |]. unfold inside; cbn [line column]. lia.
  - (* FileBegin *)
    eexists; split; [reflexivity |]. unfold inside; cbn [line column].
    rewrite to_int_small by lia. lia.
  - (* FileEnd *)
    eexists; split; [reflexivity |]. unfold inside; cbn [line column]. lia.
  - (* LineBegin *)
    eexists; split; [reflexivity |]. unfold inside; cbn [line column]. lia.
  - (* LineTextBegin *)
    loop (fun r => inside t r) (fun r => columns t - 1 - column r).
    + intros s Hs Hc. apply andb_prop in Hc as [Hc _]. apply Z.ltb_lt in Hc.
      unfold inside, with_column in *; cbn [line column]. lia.
    + unfold inside; cbn [line column]. lia.
    + cbn [column]. lia.
    + now exists s'.
  - (* LineDown *)
    eexists; split; [reflexivity |]. unfold inside; cbn [line column]. lia.
  - (* LineEnd *)
    eexists; split; [reflexivity |]. unfold inside; cbn [line column]. lia.
  - (* LineUp *)
    eexists; split; [reflexivity |]. unfold inside; cbn [line column]. lia.
  - (* PageDown *)
    eexists; split; [reflexivity |]. unfold inside; cbn [line column].
    assert (0 <= Z.quot (lines t) 2) by (apply Z.quot_pos; lia). lia.
  - (* PageUp *)
    eexists; split; [reflexivity |]. unfold inside; cbn [line column].
    assert (0 <= Z.quot (lines t) 2) by (apply Z.quot_pos; lia). lia.
  - (* ParagraphBackward *)
    loop (fun s : CellLocation * CellLocation => inside t (snd s))
         (fun s : CellLocation * CellLocation => line (snd s) + historyLineCount t).
    + intros [prev current] Hs Hc. apply andb_prop in Hc as [Hc _]. apply Z.ltb_lt in Hc.
      unfold inside, with_line in *; cbn [line column snd] in *. lia.
    + cbn [snd line column].
      destruct (0 <? line cursor) eqn:E; [apply Z.ltb_lt in E |];
        unfold inside, with_line; cbn [line column]; lia.
    + cbn [snd line column].
      destruct (0 <? line cursor); unfold with_line; cbn [line column]; lia.
    + exists (snd s'). split; [reflexivity | exact Hinv].
  - (* ParagraphForward *)
    loop (fun s : CellLocation * CellLocation => inside t (snd s))
         (fun s : CellLocation * CellLocation => lines t - 1 - line (snd s)).
    + intros [prev current] Hs Hc. apply andb_prop in Hc as [Hc _]. apply Z.ltb_lt in Hc.
      unfold inside, with_line in *; cbn [line column snd] in *. lia.
    + cbn [snd line column].
      destruct (line cursor <? lines t - 1) eqn:E; [apply Z.ltb_lt in E |];
        unfold inside, with_line; cbn [line column]; lia.
    + cbn [snd line column].
      destruct (line cursor <? lines t - 1); unfold with_line; cbn [line column]; lia.
    + exists (snd s'). split; [reflexivity | exact Hinv].
  - (* ParenthesisMatching *)
    loop (fun s : CellLocation * CellLocation => inside t (fst s) /\ inside t (snd s))
         (fun s : CellLocation * CellLocation => column (snd s)).
    + intros [prev current] Hs Hc. apply andb_prop in Hc as [Hc _]. apply Z.ltb_lt in Hc.
      unfold inside, with_column in *; cbn [line column fst snd] in *. lia.
    + cbn [fst snd].
      destruct (0 <? column cursor) eqn:E; [apply Z.ltb_lt in E |];
        unfold inside, with_column; cbn [line column]; lia.
    + cbn [snd].
      destruct (0 <? column cursor); unfold with_column; cbn [line column]; lia.
    + destruct s' as [prev current]. cbn [option_map fst snd] in *.
      eexists; split; [reflexivity |]. destruct (column current =? 0); tauto.
  - (* SearchResultBackward *)
    loop (fun s : CellLocation * CellLocation => inside t (fst s) /\ inside t (snd s))
         (fun s : CellLocation * CellLocation => column (snd s)).
    + intros [prev current] Hs Hc. apply andb_prop in Hc as [Hc _]. apply Z.ltb_lt in Hc.
      unfold inside, with_column in *; cbn [line column fst snd] in *. lia.
    + cbn [fst snd].
      destruct (0 <? column cursor) eqn:E; [apply Z.ltb_lt in E |];
        unfold inside, with_column; cbn [line column]; lia.
    + cbn [snd].
      destruct (0 <? column cursor); unfold with_column; cbn [line column]; lia.
    + destruct s' as [prev current]. cbn [option_map fst snd] in *.
      eexists; split; [reflexivity |]. destruct (column current =? 0); tauto.
  - (* SearchResultForward *)
    loop (fun s : CellLocation * CellLocation => inside t (fst s) /\ inside t (snd s))
         (fun s : CellLocation * CellLocation => column (snd s)).
    + intros [prev current] Hs Hc. apply andb_prop in Hc as [Hc _]. apply Z.ltb_lt in Hc.
      unfold inside, with_column in *; cbn [line column fst snd] in *. lia.
    + cbn [fst snd].
      destruct (0 <? column cursor) eqn:E; [apply Z.ltb_lt in E |];
        unfold inside, with_column; cbn [line column]; lia.
    + cbn [snd].
      destruct (0 <? column cursor); unfold with_column; cbn [line column]; lia.
    + destruct s' as [prev current]. cbn [option_map fst snd] in *.
      eexists; split; [reflexivity |]. destruct (column current =? 0); tauto.
  - (* WordBackward *)
    loop (fun s : CellLocation * CellLocation => inside t (fst s) /\ inside t (snd s))
         (fun s : CellLocation * CellLocation => column (snd s)).
    + intros [prev current] Hs Hc. apply andb_prop in Hc as [Hc _]. apply Z.ltb_lt in Hc.
      unfold inside, with_column in *; cbn [line column fst snd] in *. lia.
    + cbn [fst snd].
      destruct (0 <? column cursor) eqn:E; [apply Z.ltb_lt in E |];
        unfold inside, with_column; cbn [line column]; lia.
    + cbn [snd].
      destruct (0 <? column cursor); unfold with_column; cbn [line column]; lia.
    + destruct s' as [prev current]. cbn [option_map fst snd] in *.
      eexists; split; [reflexivity |]. destruct (column current =? 0); tauto.
  - (* WordEndForward *)
    loop (fun s : CellLocation * CellLocation => inside t (fst s) /\ inside t (snd s))
         (fun s : CellLocation * CellLocation => columns t - 1 - column (snd s)).
    + intros [prev current] Hs Hc. apply andb_prop in Hc as [Hc _]. apply Z.ltb_lt in Hc.
      unfold inside, with_column in *; cbn [line column fst snd] in *. lia.
    + cbn [fst snd].
      destruct (column cursor + 1 <? columns t) eqn:E; [apply Z.ltb_lt in E |];
        unfold inside, with_column; cbn [line column]; lia.
    + cbn [snd].
      destruct (column cursor + 1 <? columns t); unfold with_column; cbn [line column]; lia.
    + exists (fst s'). split; [reflexivity | tauto].
  - (* WordForward *)
    loop (fun s : CellLocation * CellLocation => inside t (fst s) /\ inside t (snd s))
         (fun s : CellLocation * CellLocation => columns t - 1 - column (snd s)).
    + intros [prev current] Hs Hc. apply andb_prop in Hc as [Hc _]. apply Z.ltb_lt in Hc.
      unfold inside, with_column in *; cbn [line column fst snd] in *. lia.
    + cbn [fst snd].
      destruct (column cursor + 1 <? columns t) eqn:E; [apply Z.ltb_lt in E |];
        unfold inside, with_column; cbn [line column]; lia.
    + cbn [snd].
      destruct (column cursor + 1 <? columns t); unfold with_column; cbn [line column]; lia.
    + exists (snd s'). split; [reflexivity | tauto].
  - eexists; split; [reflexivity |]. now split.
  - eexists; split; [reflexivity |]. now split.
  - eexists; split; [reflexivity |]. now split.
Qed.

(** Property X21.
    Every motion gives a location, for a count below 2^30 and a loop
    budget of the grid's extent, and from a cursor inside the grid (the page
    and the history above it) that location is inside the grid too. *)
Theorem motions_stay_inside_the_grid (motion : ViMotion) :
  exists p, translateToCellLocation fuel v motion count = Some p /\ inside t p.
Proof. exact (motion_inside motion). Qed.


End vi_motions.

Section vi_loops.
Import vi.

Variable fuel : nat.
Variable v : ViCommands.

Let t := terminal v.
Let cursor := cursorPosition v.

Ltac loop inv measure :=
  match goal with
  | |- context [while fuel ?cond ?body ?init] =>
      let s' := fresh "s'" in
      let Hloop := fresh "Hloop" in
      let Hrun := fresh "Hrun" in
      let Hinv := fresh "Hinv" in
      let Hend := fresh "Hend" in
      assert (Hloop : exists s', while fuel cond body init = Some s'
                                 /\ inv s' /\ cond s' = false);
      [ apply (while_terminates inv measure); cbv beta
      | destruct Hloop as (s' & Hrun & Hinv & Hend); cbv beta in Hinv; rewrite Hrun ]
  end.

(** Property X23.
    A motion along the line keeps the cursor's line, a motion across lines
    keeps its column, and the motions to the file's or a paragraph's
    boundary go to column 0; this holds for every count and for every state
    of the screen. *)
Theorem motions_keep_line_or_column (motion : ViMotion) (count : Z) (p : CellLocation) :
  translateToCellLocation fuel v motion count = Some p ->
  match motion with
  | LineDown | LineUp | PageDown | PageUp => column p = column cursor
  | FileBegin | FileEnd | ParagraphBackward | ParagraphForward => column p = 0
  | _ => line p = line cursor
  end.
Proof.
  unfold translateToCellLocation. fold t. fold cursor.
  assert (Hback : forall s : CellLocation * CellLocation,
    while fuel
      (fun '(prev, current) =>
         (0 <? column current) && (negb (isCellEmpty t current) || isCellEmpty t prev))
      (fun '(prev, current) =>
         (with_column prev (column current), with_column current (column current - 1)))
      (let prev := if 0 <? column cursor
                   then with_column cursor (column cursor - 1) else cursor in
       (prev, prev)) = Some s ->
    line (fst s) = line cursor /\ line (snd s) = line cursor).
  { intros s Hs.
    apply (while_invariant
             (fun s : CellLocation * CellLocation =>
                line (fst s) = line cursor /\ line (snd s) = line cursor)) in Hs.
    - tauto.
    - intros [prev current] [H1 H2] _. cbn [fst snd with_column line] in *. now split.
    - cbn zeta. cbn [fst snd]. destruct (0 <? column cursor); now split. }
  destruct motion; intros H; cbn zeta in *;
    try (injection H as <-; reflexivity).
  - (* LineTextBegin *)
    apply (while_invariant (fun r => line r = line cursor)) in H.
    + tauto.
    + intros s Hs _. exact Hs.
    + reflexivity.
  - (* ParagraphBackward *)
    destruct (while _ _ _ _) as [s|] eqn:E in H; [| discriminate].
    injection H as <-.
    apply (while_invariant
             (fun s : CellLocation * CellLocation => column (snd s) = 0)) in E.
    + tauto.
    + intros [prev current] Hs _. exact Hs.
    + cbn [snd line]. destruct (0 <? line cursor); reflexivity.
  - (* ParagraphForward *)
    destruct (while _ _ _ _) as [s|] eqn:E in H; [| discriminate].
    injection H as <-.
    apply (while_invariant
             (fun s : CellLocation * CellLocation => column (snd s) = 0)) in E.
    + tauto.
    + intros [prev current] Hs _. exact Hs.
    + cbn [snd line]. destruct (line cursor <? lines t - 1); reflexivity.
  - (* ParenthesisMatching *)
    destruct (while _ _ _ _) as [s|] eqn:E in H; [| discriminate].
    injection H as <-. apply Hback in E. destruct s as [prev current].
    cbn [fst snd] in E. destruct (column current =? 0); tauto.
  - (* SearchResultBackward *)
    destruct (while _ _ _ _) as [s|] eqn:E in H; [| discriminate].
    injection H as <-. apply Hback in E. destruct s as [prev current].
    cbn [fst snd] in E. destruct (column current =? 0); tauto.
  - (* SearchResultForward *)
    destruct (while _ _ _ _) as [s|] eqn:E in H; [| discriminate].
    injection H as <-. apply Hback in E. destruct s as [prev current].
    cbn [fst snd] in E. destruct (column current =? 0); tauto.
  - (* WordBackward *)
    destruct (while _ _ _ _) as [s|] eqn:E in H; [| discriminate].
    injection H as <-. apply Hback in E. destruct s as [prev current].
    cbn [fst snd] in E. destruct (column current =? 0); tauto.
  - (* WordEndForward *)
    destruct (while _ _ _ _) as [s|] eqn:E in H; [| discriminate].
    injection H as <-.
    apply (while_invariant
             (fun s : CellLocation * CellLocation =>
                line (fst s) = line cursor /\ line (snd s) = line cursor)) in E.
    + tauto.
    + intros [prev current] [H1 H2] _. cbn [fst snd with_column line] in *. now split.
    + cbn [fst snd]. destruct (column cursor + 1 <? columns t); now split.
  - (* WordForward *)
    destruct (while _ _ _ _) as [s|] eqn:E in H; [| discriminate].
    injection H as <-.
    apply (while_invariant
             (fun s : CellLocation * CellLocation =>
                line (fst s) = line cursor /\ line (snd s) = line cursor)) in E.
    + tauto.
    + intros [prev current] [H1 H2] _. cbn [fst snd with_column line] in *. now split.
    + cbn [fst snd]. destruct (column cursor + 1 <? columns t); now split.
Qed.

End vi_loops.

Section vi_boundaries.
Import vi.

Variable fuel : nat.
Variable v : ViCommands.

Let t := terminal v.
Let cursor := cursorPosition v.

(** The cell of the cursor's line in column [c]. *)
Let cell (c : Z) : CellLocation := {| line := line cursor; column := c |}.

Ltac loop inv measure :=
  match goal with
  | |- context [while fuel ?cond ?body ?init] =>
      let s' := fresh "s'" in
      let Hloop := fresh "Hloop" in
      let Hrun := fresh "Hrun" in
      let Hinv := fresh "Hinv" in
      let Hend := fresh "Hend" in
      assert (Hloop : exists s', while fuel cond body init = Some s'
                                 /\ inv s' /\ cond s' = false);
      [ apply (while_terminates inv measure); cbv beta
      | destruct Hloop as (s' & Hrun & Hinv & Hend); cbv beta in Hinv; rewrite Hrun ]
  end.

Lemma cell_eta (l : CellLocation) : line l = line cursor -> l = cell (column l).
Proof. destruct l as [ln c]. cbn. intros ->. reflexivity. Qed.

(** Property X24.
    Moving right by [count] columns and then left by [count] columns leads
    back to the cursor when that many columns lie to its right, and so do
    left and then right, down and then up, and up and then down, when the
    grid has that many columns or lines on that side. *)
Theorem char_and_line_motions_undo (count : Z) (motion back : ViMotion) (p : CellLocation) :
  0 <= count < 2 ^ 31 ->
  match motion with
  | CharRight => back = CharLeft /\ 0 <= column cursor
                 /\ count <= columns t - 1 - column cursor
  | CharLeft => back = CharRight /\ count <= column cursor <= columns t - 1
  | LineDown => back = LineUp /\ - historyLineCount t <= line cursor
                /\ count <= lines t - 1 - line cursor
  | LineUp => back = LineDown /\ count <= line cursor + historyLineCount t
              /\ line cursor <= lines t - 1
  | _ => False
  end ->
  translateToCellLocation fuel v motion count = Some p ->
  translateToCellLocation fuel {| terminal := t; cursorPosition := p |} back count
    = Some cursor.
Proof.
  intros Hcount Hroom Hp.
  assert (Hc : to_int count = count) by (apply to_int_small; lia).
  subst cell. subst cursor. subst t.
  destruct v as [t0 [ln c]]. cbn [terminal cursorPosition line column] in *.
  destruct motion; try contradiction;
    [ destruct Hroom as (-> & Hroom)
    | destruct Hroom as (-> & Hroom1 & Hroom2)
    | destruct Hroom as (-> & Hroom1 & Hroom2)
    | destruct Hroom as (-> & Hroom1 & Hroom2) ];
    cbn [translateToCellLocation terminal cursorPosition] in *;
    injection Hp as <-; rewrite ?Hc;
    unfold with_column; cbn [line column]; do 2 f_equal; lia.
Qed.

(** Property X25.
    [LineTextBegin] goes to the first cell of the cursor's line that is not
    empty, or to the last column when every cell before it is empty: the
    cells to the left of the location are empty, and the location is not
    empty unless it is the last column. *)
Theorem line_text_begin_finds_first_text (count : Z) :
  columns t <= Z.of_nat fuel ->
  exists p,
    translateToCellLocation fuel v LineTextBegin count = Some p /\
    line p = line cursor /\ 0 <= column p /\
    (forall c, 0 <= c < column p -> isCellEmpty t (cell c) = true) /\
    (column p < columns t - 1 -> isCellEmpty t p = false).
Proof.
  intros Hfuel. unfold translateToCellLocation. fold t. fold cursor.
  loop (fun r => line r = line cursor /\ 0 <= column r /\
                 forall c, 0 <= c < column r -> isCellEmpty t (cell c) = true)
       (fun r => columns t - 1 - column r).
  - intros s (Hline & Hcol & Hempty) Hc.
    apply andb_prop in Hc as [Hc He]. apply Z.ltb_lt in Hc.
    unfold with_column; cbn [line column]. repeat split; try lia; try assumption.
    intros c Hrange. destruct (Z.eq_dec c (column s)) as [->|Hne].
    + now rewrite <- (cell_eta s Hline).
    + apply Hempty. lia.
  - cbn [line column]. repeat split; try lia.
  - cbn [column]. lia.
  - exists s'. destruct Hinv as (Hline & Hcol & Hempty).
    repeat split; try assumption.
    intros Hlast. apply andb_false_iff in Hend as [Hend|Hend]; [| exact Hend].
    apply Z.ltb_ge in Hend. lia.
Qed.

(** Property X26.
    Where the word motions stop.  [WordForward] stops on a cell that is not
    empty and whose left neighbour is empty, or in the last column;
    [WordEndForward] stops on a cell that is not empty and whose right
    neighbour is empty, or within one column of the last one;
    [WordBackward] stops on a cell that is not empty and whose left
    neighbour is empty, or in column 0. *)
Theorem word_motions_stop_at_word_boundaries (count : Z) :
  0 <= column cursor <= Z.of_nat fuel -> columns t <= Z.of_nat fuel ->
  (exists p,
     translateToCellLocation fuel v WordForward count = Some p /\
     line p = line cursor /\
     (columns t - 1 <= column p \/
      isCellEmpty t p = false /\ isCellEmpty t (cell (column p - 1)) = true)) /\
  (exists p,
     translateToCellLocation fuel v WordEndForward count = Some p /\
     line p = line cursor /\
     (columns t - 2 <= column p \/
      isCellEmpty t p = false /\ isCellEmpty t (cell (column p + 1)) = true)) /\
  (exists p,
     translateToCellLocation fuel v WordBackward count = Some p /\
     line p = line cursor /\
     (column p = 0 \/
      isCellEmpty t p = false /\ isCellEmpty t (cell (column p - 1)) = true)).
Proof.
  intros Hcolumn Hfuel. unfold translateToCellLocation. fold t. fold cursor.
  cbn zeta. split; [| split].
  - (* WordForward *)
    loop (fun s : CellLocation * CellLocation =>
            line (snd s) = line cursor /\
            (fst s = snd s \/ fst s = cell (column (snd s) - 1)))
         (fun s : CellLocation * CellLocation => columns t - 1 - column (snd s)).
    + intros [prev current] (Hline & Hprev) Hc. cbn [fst snd] in *.
      apply andb_prop in Hc as [Hc _]. apply Z.ltb_lt in Hc.
      unfold with_column; cbn [line column]. repeat split; try lia; try assumption.
      right. rewrite (cell_eta current Hline) at 1. unfold cell. f_equal. lia.
    + cbn [fst snd]. split; [| now left].
      destruct (column cursor + 1 <? columns t); reflexivity.
    + cbn [snd].
      destruct (column cursor + 1 <? columns t); unfold with_column; cbn [column]; lia.
    + destruct s' as [prev current]. cbn [fst snd option_map] in *.
      destruct Hinv as (Hline & Hprev).
      exists current. repeat split; try assumption.
      apply andb_false_iff in Hend as [Hend|Hend].
      * left. apply Z.ltb_ge in Hend. lia.
      * right. apply orb_false_iff in Hend as [He Hp].
        apply negb_false_iff in Hp.
        destruct Hprev as [->| ->]; [congruence | now split].
  - (* WordEndForward *)
    loop (fun s : CellLocation * CellLocation =>
            line (fst s) = line cursor /\ line (snd s) = line cursor /\
            (column (fst s) = column (snd s) \/ column (fst s) = column (snd s) - 1))
         (fun s : CellLocation * CellLocation => columns t - 1 - column (snd s)).
    + intros [prev current] (Hlp & Hlc & Hprev) Hc. cbn [fst snd] in *.
      apply andb_prop in Hc as [Hc _]. apply Z.ltb_lt in Hc.
      unfold with_column; cbn [line column]. repeat split; try lia; try assumption.
    + cbn [fst snd].
      destruct (column cursor + 1 <? columns t); repeat split; try reflexivity; now left.
    + cbn [snd].
      destruct (column cursor + 1 <? columns t); unfold with_column; cbn [column]; lia.
    + destruct s' as [prev current]. cbn [fst snd option_map] in *.
      destruct Hinv as (Hlp & Hlc & Hprev).
      exists prev. repeat split; try assumption.
      apply andb_false_iff in Hend as [Hend|Hend].
      * left. apply Z.ltb_ge in Hend. lia.
      * right. apply orb_false_iff in Hend as [He Hp].
        apply negb_false_iff in He.
        rewrite (cell_eta prev Hlp) in Hp. rewrite (cell_eta current Hlc) in He.
        destruct Hprev as [Hsame|Hnext].
        -- rewrite Hsame in Hp. congruence.
        -- rewrite (cell_eta prev Hlp) at 1. split; [exact Hp |].
           replace (column prev + 1) with (column current) by lia. exact He.
  - (* WordBackward *)
    loop (fun s : CellLocation * CellLocation =>
            line (fst s) = line cursor /\ line (snd s) = line cursor /\
            0 <= column (snd s) /\
            (column (fst s) = column (snd s) \/ column (fst s) = column (snd s) + 1))
         (fun s : CellLocation * CellLocation => column (snd s)).
    + intros [prev current] (Hlp & Hlc & Hnonneg & Hprev) Hc. cbn [fst snd] in *.
      apply andb_prop in Hc as [Hc _]. apply Z.ltb_lt in Hc.
      unfold with_column; cbn [line column]. repeat split; try lia; try assumption.
    + cbn [fst snd].
      destruct (0 <? column cursor) eqn:E; [apply Z.ltb_lt in E |];
        unfold with_column; cbn [line column]; repeat split; try reflexivity; try lia.
    + cbn [snd].
      destruct (0 <? column cursor); unfold with_column; cbn [column]; lia.
    + destruct s' as [prev current]. cbn [fst snd option_map] in *.
      destruct Hinv as (Hlp & Hlc & Hnonneg & Hprev).
      destruct (Z.eqb_spec (column current) 0) as [Hzero|Hpos].
      * exists current. repeat split; try assumption. now left.
      * exists prev. repeat split; try assumption. right.
        apply andb_false_iff in Hend as [Hend|Hend];
          [apply Z.ltb_ge in Hend; lia |].
        apply orb_false_iff in Hend as [He Hp].
        apply negb_false_iff in He.
        rewrite (cell_eta prev Hlp) in Hp. rewrite (cell_eta current Hlc) in He.
        destruct Hprev as [Hsame|Hnext].
        -- rewrite Hsame in Hp. congruence.
        -- rewrite (cell_eta prev Hlp) at 1. split; [exact Hp |].
           replace (column prev - 1) with (column current) by lia. exact He.
Qed.

(** Property X27.
    Where the paragraph motions stop: [ParagraphForward] on an empty line
    that follows a line that is not empty, or on the last line of the page;
    [ParagraphBackward] on an empty line that precedes a line that is not
    empty, or on the first line of the history. *)
Theorem paragraph_motions_stop_at_paragraph_boundaries (count : Z) :
  0 <= historyLineCount t -> inside t cursor ->
  lines t + historyLineCount t <= Z.of_nat fuel ->
  (exists p,
     translateToCellLocation fuel v ParagraphForward count = Some p /\
     (line p = lines t - 1 \/
      isLineEmpty t (line p) = true /\ isLineEmpty t (line p - 1) = false)) /\
  (exists p,
     translateToCellLocation fuel v ParagraphBackward count = Some p /\
     (line p = - historyLineCount t \/
      isLineEmpty t (line p) = true /\ isLineEmpty t (line p + 1) = false)).
Proof.
  intros Hhistory ((Htop & Hbottom) & _) Hfuel. unfold translateToCellLocation. fold t. fold cursor.
  cbn zeta. cbn [line]. split.
  - loop (fun s : CellLocation * CellLocation =>
            line (snd s) <= lines t - 1 /\
            (line (fst s) = line (snd s) \/ line (fst s) = line (snd s) - 1))
         (fun s : CellLocation * CellLocation => lines t - 1 - line (snd s)).
    + intros [prev current] (Hin & Hprev) Hc. cbn [fst snd] in *.
      apply andb_prop in Hc as [Hc _]. apply Z.ltb_lt in Hc.
      unfold with_line; cbn [line column]. repeat split; try lia.
    + cbn [fst snd].
      destruct (line cursor <? lines t - 1) eqn:E; [apply Z.ltb_lt in E |];
        unfold with_line; cbn [line]; split; try lia.
    + cbn [snd].
      destruct (line cursor <? lines t - 1); unfold with_line; cbn [line]; lia.
    + destruct s' as [prev current]. cbn [fst snd option_map] in *.
      destruct Hinv as (Hin & Hprev). exists current. split; [reflexivity |].
      apply andb_false_iff in Hend as [Hend|Hend].
      * left. apply Z.ltb_ge in Hend. lia.
      * right. apply orb_false_iff in Hend as [He Hp].
        apply negb_false_iff in He.
        destruct Hprev as [Hsame|Hnext].
        -- rewrite Hsame in Hp. congruence.
        -- split; [exact He |]. now rewrite <- Hnext.
  - loop (fun s : CellLocation * CellLocation =>
            - historyLineCount t <= line (snd s) /\
            (line (fst s) = line (snd s) \/ line (fst s) = line (snd s) + 1))
         (fun s : CellLocation * CellLocation => line (snd s) + historyLineCount t).
    + intros [prev current] (Hin & Hprev) Hc. cbn [fst snd] in *.
      apply andb_prop in Hc as [Hc _]. apply Z.ltb_lt in Hc.
      unfold with_line; cbn [line column]. repeat split; try lia.
    + cbn [fst snd].
      destruct (0 <? line cursor) eqn:E; [apply Z.ltb_lt in E |];
        unfold with_line; cbn [line]; split; try lia.
    + cbn [snd].
      destruct (0 <? line cursor); unfold with_line; cbn [line]; lia.
    + destruct s' as [prev current]. cbn [fst snd option_map] in *.
      destruct Hinv as (Hin & Hprev). exists current. split; [reflexivity |].
      apply andb_false_iff in Hend as [Hend|Hend].
      * left. apply Z.ltb_ge in Hend. lia.
      * right. apply orb_false_iff in Hend as [He Hp].
        apply negb_false_iff in He.
        destruct Hprev as [Hsame|Hnext].
        -- rewrite Hsame in Hp. congruence.
        -- split; [exact He |]. now rewrite <- Hnext.
Qed.

End vi_boundaries.

Section vi_text_objects.
Import vi.

Variable fuel : nat.

(** The two scans of the text objects: to the left while the column is
    positive and the test fails, to the right while the column is left of
    the margin and the test fails. *)
Lemma scan_left (test : CellLocation -> bool) (start : CellLocation) :
  0 <= column start <= Z.of_nat fuel ->
  exists a,
    while fuel (fun a => (0 <? column a) && negb (test a))
               (fun a => with_column a (column a - 1)) start = Some a /\
    line a = line start /\ 0 <= column a <= column start /\
    (forall c, column a < c <= column start ->
               test {| line := line start; column := c |} = false) /\
    (0 < column a -> test a = true).
Proof.
  intros Hstart.
  destruct (while_terminates
              (fun a => line a = line start /\ 0 <= column a <= column start /\
                        forall c, column a < c <= column start ->
                                  test {| line := line start; column := c |} = false)
              (fun a => column a)
              (fun a => (0 <? column a) && negb (test a))
              (fun a => with_column a (column a - 1)))
    with (fuel := fuel) (s := start) as (a & Hrun & (Hline & Hcol & Hnone) & Hend).
  - intros [ln c] (Hline & Hcol & Hnone) Hc. cbn [line column with_column] in *.
    apply andb_prop in Hc as [Hc Ht]. apply Z.ltb_lt in Hc. apply negb_true_iff in Ht.
    repeat split; try lia; try assumption.
    intros c' Hrange. destruct (Z.eq_dec c' c) as [->|Hne].
    + now rewrite <- Hline.
    + apply Hnone. lia.
  - repeat split; lia.
  - lia.
  - exists a. repeat split; try assumption; try lia.
    intros Hpos. apply andb_false_iff in Hend as [Hend|Hend].
    + apply Z.ltb_ge in Hend. lia.
    + now apply negb_false_iff in Hend.
Qed.

Lemma scan_right (test : CellLocation -> bool) (margin : Z) (start : CellLocation) :
  margin - column start <= Z.of_nat fuel ->
  exists b,
    while fuel (fun b => (column b <? margin) && negb (test b))
               (fun b => with_column b (column b + 1)) start = Some b /\
    line b = line start /\ column start <= column b /\
    (forall c, column start <= c < column b ->
               test {| line := line start; column := c |} = false) /\
    (column b < margin -> test b = true).
Proof.
  intros Hstart.
  destruct (while_terminates
              (fun b => line b = line start /\ column start <= column b /\
                        forall c, column start <= c < column b ->
                                  test {| line := line start; column := c |} = false)
              (fun b => margin - column b)
              (fun b => (column b <? margin) && negb (test b))
              (fun b => with_column b (column b + 1)))
    with (fuel := fuel) (s := start) as (b & Hrun & (Hline & Hcol & Hnone) & Hend).
  - intros [ln c] (Hline & Hcol & Hnone) Hc. cbn [line column with_column] in *.
    apply andb_prop in Hc as [Hc Ht]. apply Z.ltb_lt in Hc. apply negb_true_iff in Ht.
    repeat split; try lia; try assumption.
    intros c' Hrange. destruct (Z.eq_dec c' c) as [->|Hne].
    + now rewrite <- Hline.
    + apply Hnone. lia.
  - repeat split; lia.
  - lia.
  - exists b. repeat split; try assumption; try lia.
    intros Hpos. apply andb_false_iff in Hend as [Hend|Hend].
    + apply Z.ltb_ge in Hend. lia.
    + now apply negb_false_iff in Hend.
Qed.

Variable v : ViCommands.

Let t := terminal v.
Let cursor := cursorPosition v.
Let cell (c : Z) : CellLocation := {| line := line cursor; column := c |}.

Hypothesis cursor_column : 0 <= column cursor <= Z.of_nat fuel.
Hypothesis enough_fuel : columns t <= Z.of_nat fuel.

(** Property X28.
    The [Word] text object is a run of cells on the cursor's line around
    the cursor: no cell from its first column up to but not including its
    last is empty, the cell before the first is empty unless the first is
    column 0, and the last cell is empty unless it is the last column.  The
    scope makes no difference. *)
Theorem word_text_object_is_a_run_of_text (scope : TextObjectScope) :
  exists a b,
    translateToCellRange_textObject fuel v scope Word
      = Some {| first := a; second := b |} /\
    line a = line cursor /\ line b = line cursor /\
    0 <= column a <= column cursor /\ column cursor <= column b /\
    (forall c, column a <= c < column b -> isCellEmpty t (cell c) = false) /\
    (0 < column a -> isCellEmpty t (cell (column a - 1)) = true) /\
    (column b < columns t - 1 -> isCellEmpty t b = true).
Proof.
  destruct (scan_left
              (fun a => isCellEmpty t {| line := line a; column := column a - 1 |})
              cursor cursor_column)
    as (a & Ha & Hla & Hca & Hleft & Hbefore).
  destruct (scan_right
              (fun b => isCellEmpty t {| line := line b; column := column b |})
              (columns t - 1) cursor)
    as (b & Hb & Hlb & Hcb & Hright & Hlast); [lia |].
  cbv beta in *. cbn [line column] in *.
  exists a, b. unfold translateToCellRange_textObject. fold t. fold cursor.
  rewrite Ha, Hb. cbn [option_map].
  repeat split; try assumption; try lia.
  - intros c Hc. unfold cell.
    destruct (Z.lt_ge_cases c (column cursor)) as [Hlt|Hge].
    + specialize (Hleft (c + 1)). replace (c + 1 - 1) with c in Hleft by lia.
      apply Hleft. lia.
    + apply Hright. lia.
  - intros Hpos. unfold cell. rewrite <- Hla. now apply Hbefore.
  - intros Hmargin. specialize (Hlast Hmargin). now destruct b.
Qed.

(** Property X29.
    [expandMatchingPair] with the scope [A] gives, on the cursor's line, the
    nearest cell at or before the cursor that holds the left character, or
    column 0 when none does, and the nearest cell at or after the cursor
    that holds the right character, or the last column when none does.  The
    scope [Inner] moves each end that holds its character by one cell
    towards the other. *)
Theorem matching_pair_is_the_nearest (left right : Ascii.ascii) :
  exists a b,
    expandMatchingPair fuel v A left right = Some {| first := a; second := b |} /\
    line a = line cursor /\ line b = line cursor /\
    0 <= column a <= column cursor /\ column cursor <= column b /\
    (forall c, column a < c <= column cursor ->
               compareCellTextAt t (cell c) left = false) /\
    (0 < column a -> compareCellTextAt t a left = true) /\
    (forall c, column cursor <= c < column b ->
               compareCellTextAt t (cell c) right = false) /\
    (column b < columns t - 1 -> compareCellTextAt t b right = true) /\
    expandMatchingPair fuel v Inner left right =
      Some {| first := if compareCellTextAt t a left
                       then with_column a (column a + 1) else a;
              second := if compareCellTextAt t b right
                        then with_column b (column b - 1) else b |}.
Proof.
  destruct (scan_left (fun a => compareCellTextAt t a left) cursor cursor_column)
    as (a & Ha & Hla & Hca & Hleft & Hfound).
  destruct (scan_right (fun b => compareCellTextAt t b right) (columns t - 1) cursor)
    as (b & Hb & Hlb & Hcb & Hright & Hlast); [lia |].
  cbv beta in *.
  exists a, b. unfold expandMatchingPair. fold t. fold cursor.
  rewrite Ha, Hb. cbn [andb].
  repeat split; try assumption; try lia.
Qed.

End vi_text_objects.

(** ** The properties at the scenarios *)

Lemma ring_index_inside_storage_witness :
  ring.at_ (ring.rotate ring_ABCDE 2) (-1)
    = nth_error (ring.storage (ring.rotate ring_ABCDE 2)) 2.
Proof.
  refine (proj2 (ring_index_inside_storage (ring.rotate ring_ABCDE 2) (-1) _) _ _ _);
    vm_compute; try split; intros; discriminate || reflexivity.
Defined.

Lemma rotate_shifts_view_witness :
  ring.at_ (ring.rotate ring_ABCDE 2) 0 = ring.at_ ring_ABCDE (0 - 2).
Proof.
  refine (rotate_shifts_view ring_ABCDE 2 0 _ _ _ _);
    vm_compute; try split; intros; discriminate || reflexivity.
Defined.

Lemma rotate_left_and_right_witness :
  ring.rotate_right (ring.rotate_left ring_ABCDE 3) 3 = ring_ABCDE.
Proof.
  refine (proj2 (proj2 (proj2 (rotate_left_and_right ring_ABCDE 3 _ _ _))) _);
    vm_compute; try split; intros; discriminate || reflexivity.
Defined.

Lemma rezero_keeps_logical_order_witness :
  ring.elements (ring.rezero (ring.rotate ring_ABCDE 2))
    = ring.elements (ring.rotate ring_ABCDE 2).
Proof.
  refine (proj2 (proj2 (rezero_keeps_logical_order (ring.rotate ring_ABCDE 2) _ _)));
    vm_compute; try split; intros; discriminate || reflexivity.
Defined.

Lemma reverse_iteration_reverses_witness :
  RingReverseIterator.elements (ring.rotate ring_ABCDE 2)
    = rev (ring.elements (ring.rotate ring_ABCDE 2)).
Proof.
  refine (reverse_iteration_reverses (ring.rotate ring_ABCDE 2) _ _);
    vm_compute; intros; discriminate || reflexivity.
Defined.

Lemma push_back_position_witness :
  ring.at_ (dynamic_ring.push_back (ring.rotate ring_ABCDE 2) "F") 2 = Some "F".
Proof.
  refine (proj1 (proj2 (push_back_position (ring.rotate ring_ABCDE 2) "F" _ _)));
    vm_compute; try split; intros; discriminate || reflexivity.
Defined.

Lemma pop_front_unrotated_witness :
  exists r',
    dynamic_ring.pop_front ring_ABCDE = Returns r' /\
    ring.zero_index r' = 0 /\
    ring.size r' = ring.size ring_ABCDE - 1 /\
    ring.elements r' = tl (ring.elements ring_ABCDE).
Proof.
  refine (pop_front_unrotated ring_ABCDE _ _);
    vm_compute; intros; discriminate || reflexivity.
Defined.

Lemma constructed_atlas_has_room_witness :
  exists a backend',
    new 0 geometry_properties [] = Returns (a, backend') /\
    tileCount geometry_properties + directMappingCount geometry_properties
      <= capacity a.
Proof.
  eexists. eexists. split; [vm_compute; reflexivity |].
  refine (proj1 (constructed_atlas_has_room 0 geometry_properties [] _ _ _ _ _)).
  - unfold AtlasProperties_wf, is_uint32. cbn. lia.
  - vm_compute. reflexivity.
  - cbn. lia.
Defined.

Lemma tiles_do_not_overlap_witness :
  exists a backend',
    new 0 geometry_properties [] = Returns (a, backend') /\
    exists li lj,
      tileLocation a 7 = Returns li /\ tileLocation a 8 = Returns lj /\
      apart (tileSize geometry_properties) li lj.
Proof.
  eexists. eexists. split; [vm_compute; reflexivity |].
  refine (tiles_do_not_overlap 0 geometry_properties [] _ _ _ _ 7 8 _ _ _ _ _).
  - unfold AtlasProperties_wf, is_uint32. cbn. lia.
  - vm_compute. reflexivity.
  - vm_compute. discriminate.
  - vm_compute. discriminate.
  - vm_compute. split; [discriminate | reflexivity].
  - vm_compute. split; [discriminate | reflexivity].
  - discriminate.
Defined.

Lemma motions_stay_inside_the_grid_witness :
  exists p,
    vi.translateToCellLocation 204 sample_vi vi.WordForward 1 = Some p /\
    vi.inside sample_terminal p.
Proof.
  refine (motions_stay_inside_the_grid 204 sample_vi 1 _ _ _ _ vi.WordForward);
    unfold vi.sane, vi.inside; cbn; lia.
Defined.


Lemma motions_keep_line_or_column_witness :
  vi.line {| vi.line := 4; vi.column := 8 |} = vi.line (vi.cursorPosition sample_vi).
Proof.
  refine (motions_keep_line_or_column 204 sample_vi vi.WordForward 1
            {| vi.line := 4; vi.column := 8 |} _).
  vm_compute. reflexivity.
Defined.

Lemma char_and_line_motions_undo_witness :
  vi.translateToCellLocation 0
    {| vi.terminal := sample_terminal;
       vi.cursorPosition := {| vi.line := 4; vi.column := 13 |} |}
    vi.CharLeft 10
  = Some (vi.cursorPosition sample_vi).
Proof.
  refine (char_and_line_motions_undo 0 sample_vi 10 vi.CharRight vi.CharLeft
            {| vi.line := 4; vi.column := 13 |} _ _ _).
  - lia.
  - cbn. repeat split; lia.
  - vm_compute. reflexivity.
Defined.

Lemma line_text_begin_finds_first_text_witness :
  exists p,
    vi.translateToCellLocation 80 sample_vi vi.LineTextBegin 1 = Some p /\
    vi.line p = 4 /\ 0 <= vi.column p /\
    (forall c, 0 <= c < vi.column p ->
       vi.isCellEmpty sample_terminal {| vi.line := 4; vi.column := c |} = true) /\
    (vi.column p < 80 - 1 -> vi.isCellEmpty sample_terminal p = false).
Proof.
  refine (line_text_begin_finds_first_text 80 sample_vi 1 _). cbn. lia.
Defined.

Lemma word_motions_stop_at_word_boundaries_witness :
  exists p,
    vi.translateToCellLocation 80 sample_vi vi.WordForward 1 = Some p /\
    vi.line p = 4 /\
    (80 - 1 <= vi.column p \/
     vi.isCellEmpty sample_terminal p = false /\
     vi.isCellEmpty sample_terminal {| vi.line := 4; vi.column := vi.column p - 1 |}
       = true).
Proof.
  refine (proj1 (word_motions_stop_at_word_boundaries 80 sample_vi 1 _ _)); cbn; lia.
Defined.

Lemma paragraph_motions_stop_at_paragraph_boundaries_witness :
  exists p,
    vi.translateToCellLocation 124 sample_vi vi.ParagraphForward 1 = Some p /\
    (vi.line p = 24 - 1 \/
     vi.isLineEmpty sample_terminal (vi.line p) = true /\
     vi.isLineEmpty sample_terminal (vi.line p - 1) = false).
Proof.
  refine (proj1 (paragraph_motions_stop_at_paragraph_boundaries 124 sample_vi 1 _ _ _));
    unfold vi.inside; cbn; lia.
Defined.

Lemma word_text_object_is_a_run_of_text_witness :
  exists a b,
    vi.translateToCellRange_textObject 80 sample_vi vi.Inner vi.Word
      = Some {| vi.first := a; vi.second := b |} /\
    vi.line a = 4 /\ vi.line b = 4 /\
    0 <= vi.column a <= 3 /\ 3 <= vi.column b /\
    (forall c, vi.column a <= c < vi.column b ->
       vi.isCellEmpty sample_terminal {| vi.line := 4; vi.column := c |} = false) /\
    (0 < vi.column a ->
       vi.isCellEmpty sample_terminal {| vi.line := 4; vi.column := vi.column a - 1 |}
         = true) /\
    (vi.column b < 80 - 1 -> vi.isCellEmpty sample_terminal b = true).
Proof.
  refine (word_text_object_is_a_run_of_text 80 sample_vi _ _ vi.Inner); cbn; lia.
Defined.

Lemma matching_pair_is_the_nearest_witness :
  exists a b,
    vi.expandMatchingPair 80 sample_vi vi.A (Ascii.ascii_of_nat 40) (Ascii.ascii_of_nat 41)
      = Some {| vi.first := a; vi.second := b |} /\
    vi.line a = 4 /\ vi.line b = 4 /\ 0 <= vi.column a <= 3 /\ 3 <= vi.column b.
Proof.
  assert (Hcolumn : 0 <= vi.column (vi.cursorPosition sample_vi) <= Z.of_nat 80)
    by (cbn; lia).
  assert (Hfuel : vi.columns (vi.terminal sample_vi) <= Z.of_nat 80) by (cbn; lia).
  destruct (matching_pair_is_the_nearest 80 sample_vi Hcolumn Hfuel
              (Ascii.ascii_of_nat 40) (Ascii.ascii_of_nat 41))
    as (a & b & Hrange & Hla & Hlb & Hca & Hcb & _).
  exists a, b. repeat split; try assumption; cbn in Hca; lia.
Defined.
